(** * UsenetStreamer: the NZBDav streaming core of [server.js]

  A shallow embedding of the job poller, the media locator, the stream
  resolution cache and the range-aware file server of [server.js],
  together with the properties the specification states about them, and
  of the request parsing, the search plans and the result selection of
  its two handlers, with further properties of the code.

  Conventions of the embedding.
  - JavaScript numbers that hold byte offsets, sizes, depths and
    millisecond clocks are integers of [Z]; the embedding coincides with
    the code on the safe-integer range of a double.
  - JavaScript strings are [string]s of bytes; case folding is the ASCII one.
  - [undefined]/[null] object properties are [option]s, and the [a || b]
    alias chains of the code are written with [js_or].
  - The process runs on one event loop.  A synchronous stretch of code
    (up to its first suspension) is one function on the shared state, and
    the continuation that runs when an awaited operation settles is
    another one. *)

From Stdlib Require Import ZArith Lia Ascii Sorted.
From stdpp Require Import gmap strings list pretty.

Local Open Scope Z_scope.

(** ** JavaScript values used by the core *)

Module JS.

(** Truthiness of a string-valued property that may be missing. *)
Definition truthy (v : option string) : bool :=
  match v with
  | Some s => negb (String.eqb s "")
  | None => false
  end.

(** [a || b] *)
Definition js_or (a b : option string) : option string :=
  if truthy a then a else b.

(** [a ?? b] *)
Definition js_nullish {A} (a b : option A) : option A :=
  match a with Some _ => a | None => b end.

(** Truthiness of a number. *)
Definition truthy_num (z : Z) : bool := negb (z =? 0).

(** An [Error] object with the properties the core attaches or reads. *)
Record error := Error {
  message : string;
  isNzbdavFailure : bool;           (* absent reads as falsy *)
  failureMessage : option string;
  nzoId : option string;
  category : option string;
  downloadUrl : option string;
  title : option string;
  response_status : option Z        (* error.response?.status *)
}.

(** [new Error(msg)] *)
Definition new_Error (msg : string) : error :=
  Error msg false None None None None None None.

#[global] Instance error_eq_dec : EqDecision error.
Proof. solve_decision. Defined.

(** A call that returns or throws. *)
Inductive result (A : Type) :=
| Ok (a : A)
| Throw (e : error).
Arguments Ok {A} a.
Arguments Throw {A} e.

(** [a || b || ... || d] where the last operand is a string literal. *)
Definition or_else (a : option string) (d : string) : string :=
  match a with
  | Some s => if String.eqb s "" then d else s
  | None => d
  end.

Definition is_upper (c : ascii) : bool :=
  let n := N_of_ascii c in ((65 <=? n) && (n <=? 90))%N.

Definition is_digit (c : ascii) : bool :=
  let n := N_of_ascii c in ((48 <=? n) && (n <=? 57))%N.

Definition lower_ascii (c : ascii) : ascii :=
  if is_upper c then ascii_of_N (N_of_ascii c + 32) else c.

(** [s.toLowerCase()] *)
Fixpoint toLowerCase (s : string) : string :=
  match s with
  | EmptyString => EmptyString
  | String c s' => String (lower_ascii c) (toLowerCase s')
  end.

(** What the HTTP client's promise rejects with: a transport failure, a
    per-call timeout, or a status that [validateStatus] refuses. *)
Record client_error := ClientError {
  ce_message : string;
  ce_status : option Z     (* error.response?.status *)
}.

Definition of_client_error (e : client_error) : error :=
  Error (ce_message e) false None None None None None (ce_status e).

Inductive http (A : Type) :=
| Responded (data : A)
| Failed (e : client_error).
Arguments Responded {A} data.
Arguments Failed {A} e.

End JS.

Import JS.

(** ** Constants of [server.js] *)

Definition NZBDAV_POLL_INTERVAL_MS : Z := 2000.
Definition NZBDAV_POLL_TIMEOUT_MS : Z := 80000.
Definition NZBDAV_CACHE_TTL_MS : Z := 3600000.
Definition NZBDAV_MAX_DIRECTORY_DEPTH : Z := 6.

(** ** The stream resolution cache *)

Module Cache.

(** The object [buildNzbdavStream] resolves to. *)
Record stream_data := StreamData {
  sd_nzoId : string;
  sd_category : string;
  sd_jobName : string;
  sd_viewPath : string;
  sd_size : Z
}.

#[global] Instance stream_data_eq_dec : EqDecision stream_data.
Proof. solve_decision. Defined.

(** How a promise settles. *)
Inductive outcome :=
| Resolved (data : stream_data)
| Rejected (err : error).

#[global] Instance outcome_eq_dec : EqDecision outcome.
Proof. solve_decision. Defined.

(** A promise is a reference: the cache and every caller that was handed
    the promise share it, so it is named by an identifier. *)
Definition promise_id := nat.

(** The three shapes of a value of [nzbdavStreamCache], keyed by
    [status].  [expiresAt] is [None] for JavaScript's [null]. *)
Inductive cache_entry :=
| EntryReady (data : stream_data) (expiresAt : option Z)
| EntryPending (promise : promise_id)
| EntryFailed (err : error) (expiresAt : option Z).

#[global] Instance cache_entry_eq_dec : EqDecision cache_entry.
Proof. solve_decision. Defined.

(** [entry.expiresAt]; a pending entry has no such property. *)
Definition entry_expiresAt (e : cache_entry) : option Z :=
  match e with
  | EntryReady _ x => x
  | EntryPending _ => None
  | EntryFailed _ x => x
  end.

(** [entry.expiresAt && entry.expiresAt <= now] *)
Definition expired (now : Z) (e : cache_entry) : bool :=
  match entry_expiresAt e with
  | Some x => truthy_num x && (x <=? now)
  | None => false
  end.

(** [cleanupNzbdavCache], with [now = Date.now()]. *)
Definition cleanupNzbdavCache (now : Z) (cache : gmap string cache_entry)
  : gmap string cache_entry :=
  if NZBDAV_CACHE_TTL_MS <=? 0 then cache
  else filter (λ kv, expired now kv.2 = false) cache.

(** [NZBDAV_CACHE_TTL_MS > 0 ? Date.now() + NZBDAV_CACHE_TTL_MS : null] *)
Definition ttl_expiry (now : Z) : option Z :=
  if 0 <? NZBDAV_CACHE_TTL_MS then Some (now + NZBDAV_CACHE_TTL_MS) else None.

(** The shared state of the process: the cache map, the promises of the
    builds, and the clock.  [builderCalls] records every invocation of
    [builder()], newest first; the promise created by an invocation is
    numbered by the count of earlier invocations. *)
Record world := World {
  nzbdavStreamCache : gmap string cache_entry;
  running : gmap promise_id string;   (* unsettled build promise ↦ its cacheKey *)
  settled : gmap promise_id outcome;  (* settled build promises *)
  clock : Z;                          (* Date.now() *)
  builderCalls : list string
}.

Definition initial (t0 : Z) : world := World ∅ ∅ ∅ t0 [].

(** What a call of [getOrCreateNzbdavStream] gives its caller. *)
Inductive call_result :=
| Returned (data : stream_data)   (* return existing.data *)
| Threw (err : error)             (* throw existing.error *)
| Awaits (p : promise_id).        (* the caller settles as promise [p] does *)

#[global] Instance call_result_eq_dec : EqDecision call_result.
Proof. solve_decision. Defined.

(** [getOrCreateNzbdavStream(cacheKey, builder)] up to its first
    suspension.  On a miss the immediately-invoked async function calls
    [builder()] and suspends on it, and the pending entry is stored before
    control returns to the event loop. *)
Definition getOrCreateNzbdavStream (cacheKey : string) (w : world)
  : call_result * world :=
  let cache := cleanupNzbdavCache (clock w) (nzbdavStreamCache w) in
  match cache !! cacheKey with
  | Some (EntryReady data _) =>
      (Returned data,
       World cache (running w) (settled w) (clock w) (builderCalls w))
  | Some (EntryPending p) =>
      (Awaits p,
       World cache (running w) (settled w) (clock w) (builderCalls w))
  | Some (EntryFailed err _) =>
      (Threw err,
       World cache (running w) (settled w) (clock w) (builderCalls w))
  | None =>
      let p := length (builderCalls w) in
      (Awaits p,
       World (<[cacheKey := EntryPending p]> cache)
             (<[p := cacheKey]> (running w))
             (settled w) (clock w)
             (cacheKey :: builderCalls w))
  end.

(** The continuation of [getOrCreateNzbdavStream] that runs when the
    builder behind promise [p] settles with [o]: on success the async
    function stores the ready entry; on an error the [catch] of the
    originating call stores the failed entry or deletes the key.  Both run
    as microtasks of one turn of the event loop. *)
Definition settleBuilder (p : promise_id) (o : outcome) (w : world) : world :=
  match running w !! p with
  | None => w
  | Some cacheKey =>
      let cache :=
        match o with
        | Resolved data =>
            <[cacheKey := EntryReady data (ttl_expiry (clock w))]>
              (nzbdavStreamCache w)
        | Rejected err =>
            if isNzbdavFailure err
            then <[cacheKey := EntryFailed err (ttl_expiry (clock w))]>
                   (nzbdavStreamCache w)
            else delete cacheKey (nzbdavStreamCache w)
        end in
      World cache (delete p (running w)) (<[p := o]> (settled w))
            (clock w) (builderCalls w)
  end.

(** What a caller finally observes. *)
Definition observed (w : world) (r : call_result) : option outcome :=
  match r with
  | Returned data => Some (Resolved data)
  | Threw err => Some (Rejected err)
  | Awaits p => settled w !! p
  end.

(** Turns of the event loop that touch the cache or the clock. *)
Inductive event :=
| Request (cacheKey : string)            (* a stream request reaches the cache *)
| Settle (p : promise_id) (o : outcome)  (* a builder settles *)
| Tick (ms : N).                         (* time passes *)

Definition advance (ms : N) (w : world) : world :=
  World (nzbdavStreamCache w) (running w) (settled w)
        (clock w + Z.of_N ms) (builderCalls w).

Definition step (ev : event) (w : world)
  : world * option (string * call_result) :=
  match ev with
  | Request k =>
      let '(r, w') := getOrCreateNzbdavStream k w in (w', Some (k, r))
  | Settle p o => (settleBuilder p o w, None)
  | Tick ms => (advance ms w, None)
  end.

(** Runs the events in order; returns the final state and, per request,
    its key and what it was given. *)
Fixpoint run (evs : list event) (w : world)
  : world * list (string * call_result) :=
  match evs with
  | [] => (w, [])
  | ev :: evs' =>
      let '(w1, r) := step ev w in
      let '(w2, rs) := run evs' w1 in
      (w2, match r with Some x => x :: rs | None => rs end)
  end.

Inductive reachable : world → Prop :=
| reach_init t0 : 0 ≤ t0 → reachable (initial t0)
| reach_step w ev : reachable w → reachable (step ev w).1.

(** Number of pipeline executions started for a key. *)
Definition builds_of (k : string) (w : world) : nat :=
  length (filter (λ k', k' = k) (builderCalls w)).

Definition is_settle_of (p : promise_id) (ev : event) : bool :=
  match ev with
  | Settle q _ => bool_decide (q = p)
  | _ => false
  end.

Definition is_request_of (k : string) (ev : event) : bool :=
  match ev with
  | Request k' => bool_decide (k' = k)
  | _ => false
  end.

(** The entry is pending, or carries a positive expiry no later than one
    TTL from now. *)
Definition entry_ok (now : Z) (e : cache_entry) : Prop :=
  match e with
  | EntryPending _ => True
  | EntryReady _ x | EntryFailed _ x =>
      ∃ z, x = Some z ∧ 0 < z ∧ z ≤ now + NZBDAV_CACHE_TTL_MS
  end.

(** The invariant of the reachable states: pending entries and running
    builds correspond one to one, promise numbers are fresh, and committed
    entries carry an expiry. *)
Record inv (w : world) : Prop := Inv {
  inv_pending : ∀ k p,
    nzbdavStreamCache w !! k = Some (EntryPending p) → running w !! p = Some k;
  inv_running : ∀ p k,
    running w !! p = Some k → nzbdavStreamCache w !! k = Some (EntryPending p);
  inv_fresh : ∀ p k,
    running w !! p = Some k → (p < length (builderCalls w))%nat;
  inv_settled_fresh : ∀ p o,
    settled w !! p = Some o → (p < length (builderCalls w))%nat;
  inv_settled_running : ∀ p o,
    settled w !! p = Some o → running w !! p = None;
  inv_clock : 0 ≤ clock w;
  inv_entries : ∀ k e,
    nzbdavStreamCache w !! k = Some e → entry_ok (clock w) e
}.

(** What a request is given on a hit of a committed entry. *)
Definition hit (e : cache_entry) : call_result :=
  match e with
  | EntryReady data _ => Returned data
  | EntryFailed err _ => Threw err
  | EntryPending p => Awaits p
  end.

(** An outcome that [getOrCreateNzbdavStream] keeps in the cache. *)
Definition cached_outcome (o : outcome) : bool :=
  match o with
  | Resolved _ => true
  | Rejected err => isNzbdavFailure err
  end.

(** The entry that the completion of a build leaves under its key. *)
Definition committed (now : Z) (o : outcome) : option cache_entry :=
  match o with
  | Resolved data => Some (EntryReady data (ttl_expiry now))
  | Rejected err =>
      if isNzbdavFailure err then Some (EntryFailed err (ttl_expiry now))
      else None
  end.

End Cache.

(** ** The job submitter and the completion poller *)

Module Poller.

Record config := Config {
  NZBDAV_URL : string;
  NZBDAV_API_KEY : string;
  NZBDAV_WEBDAV_URL : string
}.

(** [ensureNzbdavConfigured()]; [Some e] when it throws [e]. *)
Definition ensureNzbdavConfigured (cfg : config) : option error :=
  if String.eqb (NZBDAV_URL cfg) ""
  then Some (new_Error "NZBDAV_URL is not configured")
  else if String.eqb (NZBDAV_API_KEY cfg) ""
  then Some (new_Error "NZBDAV_API_KEY is not configured")
  else if String.eqb (NZBDAV_WEBDAV_URL cfg) ""
  then Some (new_Error "NZBDAV_WEBDAV_URL is not configured")
  else None.

(** The body of the manager's answer to [mode=addurl], by the property
    names the code reads. *)
Record addurl_data := AddurlData {
  ad_status : bool;                  (* response.data?.status, as a truth value *)
  ad_error : option string;
  ad_http_status : Z;                (* response.status *)
  ad_nzo_id : option string;
  ad_nzoId : option string;
  ad_NzoId : option string;
  ad_nzo_ids_0 : option string;      (* nzo_ids[0] when nzo_ids is an array *)
  ad_queue_0_nzo_id : option string  (* queue[0]?.nzo_id when queue is an array *)
}.

(** [addNzbToNzbdav(nzbUrl, category, jobLabel)], given what the one
    queueing call comes back with; [jobLabel] only names the job in the
    request. *)
Definition addNzbToNzbdav (cfg : config) (reply : http addurl_data)
    (nzbUrl category jobLabel : string) : result string :=
  match ensureNzbdavConfigured cfg with
  | Some e => Throw e
  | None =>
      if String.eqb nzbUrl "" then Throw (new_Error "Missing NZB download URL")
      else if String.eqb category "" then Throw (new_Error "Missing NZBDav category")
      else
        match reply with
        | Failed e => Throw (of_client_error e)
        | Responded data =>
            if negb (ad_status data) then
              Throw (new_Error ("[NZBDAV] Failed to queue NZB: " +:+
                or_else (ad_error data)
                  ("addurl returned status " +:+ pretty (ad_http_status data))))
            else
              let nzoId :=
                js_or (js_or (js_or (js_or (ad_nzo_id data) (ad_nzoId data))
                                    (ad_NzoId data))
                             (ad_nzo_ids_0 data))
                      (ad_queue_0_nzo_id data) in
              if negb (truthy nzoId)
              then Throw (new_Error "[NZBDAV] addurl succeeded but no nzo_id returned")
              else Ok (or_else nzoId "")
        end
  end.

(** An entry of the manager's history, by the property names the code
    reads. *)
Record slot := Slot {
  nzo_id : option string;
  slot_nzoId : option string;
  NzoId : option string;
  status : option string;
  Status : option string;
  fail_message : option string;
  failMessage : option string;
  FailMessage : option string;
  slot_category : option string;
  Category : option string;
  job_name : option string;
  JobName : option string;
  name : option string;
  Name : option string
}.

#[global] Instance slot_eq_dec : EqDecision slot.
Proof. solve_decision. Defined.

(** The body of the manager's answer to [mode=history]. *)
Record history_data := HistoryData {
  hd_status : bool;        (* response.data?.status, as a truth value *)
  hd_error : option string;
  hd_http_status : Z;      (* response.status *)
  hd_slots : list slot     (* history?.slots || history?.Slots || [] *)
}.

(** One history query as the poller experiences it: the time the call
    takes and what it comes back with. *)
Record poll := Poll {
  elapsed : N;
  reply : http history_data
}.

(** The callback of [slots.find]. *)
Definition slot_matches (nzoId : string) (entry : slot) : bool :=
  let entryId := js_or (js_or (nzo_id entry) (slot_nzoId entry)) (NzoId entry) in
  bool_decide (entryId = Some nzoId).

(** [slots.find(...)] *)
Definition find_slot (nzoId : string) (slots : list slot) : option slot :=
  List.find (slot_matches nzoId) slots.

(** The error raised for a slot whose status is [failed]. *)
Definition failureError (s : slot) (nzoId category : string) : error :=
  let failMessage :=
    or_else (js_or (js_or (fail_message s) (failMessage s)) (FailMessage s))
            "Unknown NZBDav error" in
  Error ("[NZBDAV] NZB failed: " +:+ failMessage) true (Some failMessage)
        (Some nzoId) (Some category) None None None.

Definition timeoutError : error :=
  new_Error "[NZBDAV] Timeout while waiting for NZB to become streamable".

Definition historyError (data : history_data) : error :=
  new_Error ("[NZBDAV] Failed to query history: " +:+
    or_else (hd_error data)
      ("history returned status " +:+ pretty (hd_http_status data))).

(** What one pass through the loop body decides, before the sleep. *)
Inductive verdict :=
| Return (s : slot)
| Raise (e : error)
| Continue.

(** The loop body of [waitForNzbdavHistorySlot] from the reply of the
    history query to the statement before [await sleep]. *)
Definition poll_once (nzoId category : string) (r : http history_data) : verdict :=
  match r with
  | Failed e => Raise (of_client_error e)
  | Responded data =>
      if negb (hd_status data) then Raise (historyError data)
      else
        match find_slot nzoId (hd_slots data) with
        | Some s =>
            let st := toLowerCase (or_else (js_or (status s) (Status s)) "") in
            if String.eqb st "completed" then Return s
            else if String.eqb st "failed" then Raise (failureError s nzoId category)
            else Continue
        | None => Continue
        end
  end.

(** What a run of the poller leaves behind: how it ended, and the clock
    value at which each history query was issued, oldest first. *)
Record polling := Polling {
  ended : result slot;
  queried : list Z
}.

(** The [while (Date.now() < deadline)] loop.  [polls i] is the [i]-th
    history query; [fuel] bounds the number of loop tests. *)
Fixpoint poll_loop (polls : nat → poll) (nzoId category : string)
    (deadline : Z) (fuel i : nat) (now : Z) (log : list Z) : option polling :=
  match fuel with
  | O => None
  | S fuel' =>
      if now <? deadline then
        let q := polls i in
        let log' := log ++ [now] in
        match poll_once nzoId category (reply q) with
        | Return s => Some (Polling (Ok s) log')
        | Raise e => Some (Polling (Throw e) log')
        | Continue =>
            poll_loop polls nzoId category deadline fuel' (S i)
              (now + Z.of_N (elapsed q) + NZBDAV_POLL_INTERVAL_MS) log'
        end
      else Some (Polling (Throw timeoutError) log)
  end.

(** The number of loop tests that always suffices: the clock gains at
    least one poll interval per pass. *)
Definition poll_fuel : nat :=
  S (Z.to_nat (NZBDAV_POLL_TIMEOUT_MS / NZBDAV_POLL_INTERVAL_MS)).

(** [waitForNzbdavHistorySlot(nzoId, category)] entered at clock value
    [now]. *)
Definition waitForNzbdavHistorySlot (cfg : config) (polls : nat → poll)
    (nzoId category : string) (now : Z) : option polling :=
  match ensureNzbdavConfigured cfg with
  | Some e => Some (Polling (Throw e) [])
  | None =>
      poll_loop polls nzoId category (now + NZBDAV_POLL_TIMEOUT_MS)
        poll_fuel 0 now []
  end.

(** Clock value at which the [i]-th query is issued when all earlier
    passes end in the sleep. *)
Fixpoint query_time (polls : nat → poll) (now : Z) (i : nat) : Z :=
  match i with
  | O => now
  | S j => query_time polls now j + Z.of_N (elapsed (polls j))
           + NZBDAV_POLL_INTERVAL_MS
  end.

(** How a run of the poller started at [start] can end: [n] is the first
    pass that does not go to sleep. *)
Definition ends_at (polls : nat → poll) (nzoId category : string) (start : Z)
    (p : polling) (n : nat) : Prop :=
  (∀ j, (j < n)%nat →
     query_time polls start j < start + NZBDAV_POLL_TIMEOUT_MS
     ∧ poll_once nzoId category (reply (polls j)) = Continue)
  ∧ if query_time polls start n <? start + NZBDAV_POLL_TIMEOUT_MS
    then queried p = map (query_time polls start) (seq 0 (S n))
         ∧ match poll_once nzoId category (reply (polls n)) with
           | Return s => ended p = Ok s
           | Raise e => ended p = Throw e
           | Continue => False
           end
    else queried p = map (query_time polls start) (seq 0 n)
         ∧ ended p = Throw timeoutError.

End Poller.

(** ** Regular expressions *)

Module Regex.

(** The fragment of the pattern language that the patterns of [server.js]
    use. *)
Inductive regex :=
| Eps
| Chr (c : ascii)            (* a literal character *)
| Dot                        (* [.] *)
| Digit                      (* [\d] *)
| Class (cs : list ascii)    (* [[...]] *)
| Cat (r1 r2 : regex)
| Alt (r1 r2 : regex)
| Opt (r : regex)            (* [r?] *)
| Star (r : regex)           (* [r*] *)
| NotDigitAhead.             (* [(?![0-9])] *)

Definition upper_ascii (c : ascii) : ascii :=
  let n := N_of_ascii c in
  if ((97 <=? n) && (n <=? 122))%N then ascii_of_N (n - 32) else c.

(** Character comparison; [ci] is the [i] flag. *)
Definition eq_char (ci : bool) (a b : ascii) : bool :=
  if ci then Ascii.eqb (upper_ascii a) (upper_ascii b) else Ascii.eqb a b.

(** Line terminators, which [.] does not match. *)
Definition is_line_terminator (c : ascii) : bool :=
  let n := N_of_ascii c in ((n =? 10) || (n =? 13))%N.

(** Iteration of a matcher [m]: at most [n] rounds, each of which must
    consume input. *)
Fixpoint star_iter (m : list ascii → (list ascii → bool) → bool)
    (k : list ascii → bool) (n : nat) (s : list ascii) : bool :=
  match n with
  | O => k s
  | S n' =>
      m s (λ s', (length s' <? length s)%nat && star_iter m k n' s') || k s
  end.

(** Backtracking matcher in continuation-passing style: [matches ci r s k]
    holds when [r] matches a prefix of [s] whose remainder satisfies [k]. *)
Fixpoint matches (ci : bool) (r : regex) (s : list ascii)
    (k : list ascii → bool) : bool :=
  match r with
  | Eps => k s
  | Chr c =>
      match s with
      | a :: s' => eq_char ci a c && k s'
      | [] => false
      end
  | Dot =>
      match s with
      | a :: s' => negb (is_line_terminator a) && k s'
      | [] => false
      end
  | Digit =>
      match s with
      | a :: s' => is_digit a && k s'
      | [] => false
      end
  | Class cs =>
      match s with
      | a :: s' => existsb (eq_char ci a) cs && k s'
      | [] => false
      end
  | Cat r1 r2 => matches ci r1 s (λ s', matches ci r2 s' k)
  | Alt r1 r2 => matches ci r1 s k || matches ci r2 s k
  | Opt r1 => matches ci r1 s k || k s
  | Star r1 => star_iter (matches ci r1) k (length s) s
  | NotDigitAhead =>
      match s with
      | a :: _ => negb (is_digit a) && k s
      | [] => k s
      end
  end.

(** [regex.test(str)] for a pattern without anchors: a match may start at
    any offset. *)
Fixpoint test_from (ci : bool) (r : regex) (s : list ascii) : bool :=
  matches ci r s (λ _, true)
  || match s with
     | [] => false
     | _ :: s' => test_from ci r s'
     end.

Definition test (ci : bool) (r : regex) (str : string) : bool :=
  test_from ci r (String.list_ascii_of_string str).

(** [regex.test(str)] for a pattern between [^] and [$]. *)
Definition test_anchored (ci : bool) (r : regex) (str : string) : bool :=
  matches ci r (String.list_ascii_of_string str)
    (λ rest, match rest with [] => true | _ => false end).

(** The pattern that a run of literal characters denotes. *)
Fixpoint lit (cs : list ascii) : regex :=
  match cs with
  | [] => Eps
  | c :: cs' => Cat (Chr c) (lit cs')
  end.

Definition seq (rs : list regex) : regex := foldr Cat Eps rs.

End Regex.

(** ** The media locator *)

Module Locator.
Import Regex.

(** An entry of a directory listing as [listWebdavDirectory] returns it. *)
Record dirent := Dirent {
  name : string;
  isDirectory : bool;
  size : option Z         (* [null] when the share reports no size *)
}.

(** [{ season, episode }] *)
Record requested_episode := RequestedEpisode {
  season : Z;
  episode : Z
}.

Definition NZBDAV_VIDEO_EXTENSIONS : list string :=
  [".mp4"; ".mkv"; ".avi"; ".mov"; ".wmv"; ".flv"; ".webm"; ".m4v"; ".ts";
   ".m2ts"; ".mpg"; ".mpeg"].

(** State of the platform's [path.posix.extname] scan, which walks the
    path from its last character to its first. *)
Record ext_scan := ExtScan {
  startDot : option nat;
  startPart : nat;
  end_ : option nat;
  matchedSlash : bool;
  preDotState : Z;
  stopped : bool
}.

Definition ext_scan_step (st : ext_scan) (ic : nat * ascii) : ext_scan :=
  let '(i, code) := ic in
  if stopped st then st
  else if Ascii.eqb code "/" then
    if negb (matchedSlash st)
    then ExtScan (startDot st) (S i) (end_ st) (matchedSlash st)
                 (preDotState st) true
    else st
  else
    let st1 :=
      match end_ st with
      | None => ExtScan (startDot st) (startPart st) (Some (S i)) false
                        (preDotState st) false
      | Some _ => st
      end in
    if Ascii.eqb code "." then
      match startDot st1 with
      | None => ExtScan (Some i) (startPart st1) (end_ st1) (matchedSlash st1)
                        (preDotState st1) false
      | Some _ => ExtScan (startDot st1) (startPart st1) (end_ st1)
                          (matchedSlash st1) 1 false
      end
    else
      match startDot st1 with
      | Some _ => ExtScan (startDot st1) (startPart st1) (end_ st1)
                          (matchedSlash st1) (-1) false
      | None => st1
      end.

(** [path.posix.extname(path)] *)
Definition extname (path : string) : string :=
  let cs := String.list_ascii_of_string path in
  let st := fold_left ext_scan_step (rev (imap (λ i c, (i, c)) cs))
              (ExtScan None 0 None true 0 false) in
  match startDot st, end_ st with
  | Some sd, Some e =>
      if (preDotState st =? 0)
         || ((preDotState st =? 1) && (sd =? e - 1)%nat
             && (sd =? startPart st + 1)%nat)
      then ""
      else String.string_of_list_ascii (take (e - sd) (drop sd cs))
  | _, _ => ""
  end.

(** [isVideoFileName(fileName)] *)
Definition isVideoFileName (fileName : string) : bool :=
  let extension := extname (toLowerCase fileName) in
  bool_decide (extension ∈ NZBDAV_VIDEO_EXTENSIONS).

(** The four patterns of [fileMatchesEpisode].  The sources are template
    literals, in which [\.] and [\s] are cooked to [.] and [s] before the
    pattern is compiled. *)
Definition episode_patterns (req : requested_episode) : list regex :=
  let s := lit (String.list_ascii_of_string (pretty (season req))) in
  let e := lit (String.list_ascii_of_string (pretty (episode req))) in
  let zeros := Star (Chr "0") in
  [ seq [Chr "s"; zeros; s; Chr "e"; zeros; e; NotDigitAhead];
    seq [Chr "s"; zeros; s; Opt Dot; Chr "e"; zeros; e; NotDigitAhead];
    seq [zeros; s; Class ["x"; "X"]%char; zeros; e; NotDigitAhead];
    seq [Class ["e"; "E"]%char;
         Alt (lit (String.list_ascii_of_string "pisode")) (Chr "p");
         Opt Dot; Star (Chr "s"); zeros; e; NotDigitAhead] ].

(** [fileMatchesEpisode(fileName, requestedEpisode)] *)
Definition fileMatchesEpisode (fileName : string)
    (requestedEpisode : option requested_episode) : bool :=
  match requestedEpisode with
  | None => true
  | Some req => existsb (λ r, test true r fileName) (episode_patterns req)
  end.

Fixpoint replace_backslashes (s : string) : string :=
  match s with
  | EmptyString => EmptyString
  | String c s' =>
      String (if Ascii.eqb c "\" then "/"%char else c) (replace_backslashes s')
  end.

(** [normalizeNzbdavPath(pathValue)] *)
Definition normalizeNzbdavPath (pathValue : string) : string :=
  if String.eqb pathValue "" then "/"
  else
    let normalized := replace_backslashes pathValue in
    match normalized with
    | String "/" _ => normalized
    | _ => "/" +:+ normalized
    end.

Fixpoint strip_leading_slashes (s : string) : string :=
  match s with
  | String "/" s' => strip_leading_slashes s'
  | _ => s
  end.

(** The file share: what [client.getDirectoryContents(relativePath)] gives,
    mapped to [dirent]s; [None] when the call fails. *)
Definition share := string → option (list dirent).

(** [listWebdavDirectory(directory)]; [None] when it throws. *)
Definition listWebdavDirectory (sh : share) (directory : string)
  : option (list dirent) :=
  let normalizedPath := normalizeNzbdavPath directory in
  let relativePath :=
    if String.eqb normalizedPath "/" then "/"
    else strip_leading_slashes normalizedPath in
  sh relativePath.

(** The [candidate] object. *)
Record candidate := Candidate {
  c_name : string;
  c_size : Z;
  matchesEpisode : bool;
  absolutePath : string;
  viewPath : string
}.

#[global] Instance candidate_eq_dec : EqDecision candidate.
Proof. solve_decision. Defined.

(** State of the traversal loop.  [listed] and [discovered] are records of
    what the loop did: the queue items on which [listWebdavDirectory] was
    called and the candidates that were built, both oldest first. *)
Record walk := Walk {
  queue : list (string * Z);
  visited : gset string;
  bestMatch : option candidate;
  bestEpisodeMatch : option candidate;
  listed : list (string * Z);
  discovered : list candidate
}.

(** [entry?.name || entry?.Name] spliced into a template literal. *)
Definition entryName_text (e : dirent) : string :=
  if String.eqb (name e) "" then "undefined" else name e.

(** [normalizeNzbdavPath(`${currentPath}/${entryName}`)] *)
Definition nextPath (currentPath : string) (e : dirent) : string :=
  normalizeNzbdavPath (currentPath +:+ "/" +:+ entryName_text e).

(** [!best || candidate.size > best.size] then [best = candidate] *)
Definition better (best : option candidate) (c : candidate) : option candidate :=
  match best with
  | None => Some c
  | Some b => if c_size b <? c_size c then Some c else Some b
  end.

(** The body of [for (const entry of entries)]. *)
Definition visit_entry (requestedEpisode : option requested_episode)
    (currentPath : string) (depth : Z) (w : walk) (entry : dirent) : walk :=
  let entryName := name entry in
  let entrySize := default 0 (size entry) in
  let next := nextPath currentPath entry in
  if isDirectory entry then
    Walk (queue w ++ [(next, depth + 1)]) (visited w) (bestMatch w)
         (bestEpisodeMatch w) (listed w) (discovered w)
  else if String.eqb entryName "" || negb (isVideoFileName entryName) then w
  else
    let m := fileMatchesEpisode entryName requestedEpisode in
    let c := Candidate entryName entrySize m next (strip_leading_slashes next) in
    Walk (queue w) (visited w) (better (bestMatch w) c)
         (if m then better (bestEpisodeMatch w) c else bestEpisodeMatch w)
         (listed w) (discovered w ++ [c]).

(** One pass through the body of [while (queue.length > 0)], for the head
    [(currentPath, depth)] of the queue and the remaining queue in [w]. *)
Definition visit (sh : share) (requestedEpisode : option requested_episode)
    (currentPath : string) (depth : Z) (w : walk) : walk :=
  if NZBDAV_MAX_DIRECTORY_DEPTH <? depth then w
  else if bool_decide (currentPath ∈ visited w) then w
  else
    let w1 := Walk (queue w) ({[currentPath]} ∪ visited w) (bestMatch w)
                   (bestEpisodeMatch w) (listed w ++ [(currentPath, depth)])
                   (discovered w) in
    match listWebdavDirectory sh currentPath with
    | None => w1
    | Some entries =>
        fold_left (visit_entry requestedEpisode currentPath depth) entries w1
    end.

(** The [while] loop; [fuel] bounds the number of passes. *)
Fixpoint traverse (sh : share) (requestedEpisode : option requested_episode)
    (fuel : nat) (w : walk) : option walk :=
  match queue w with
  | [] => Some w
  | (currentPath, depth) :: rest =>
      match fuel with
      | O => None
      | S fuel' =>
          traverse sh requestedEpisode fuel'
            (visit sh requestedEpisode currentPath depth
               (Walk rest (visited w) (bestMatch w) (bestEpisodeMatch w)
                     (listed w) (discovered w)))
      end
  end.

(** Number of queue items that the subtree below a queue item can still
    produce, itself included, when [n] levels may still be listed. *)
Fixpoint subtree_cost (sh : share) (n : nat) (path : string) : nat :=
  match n with
  | O => 1
  | S n' =>
      S (match listWebdavDirectory sh path with
         | None => 0
         | Some entries =>
             sum_list (map (λ e, if isDirectory e
                                 then subtree_cost sh n' (nextPath path e)
                                 else 0%nat) entries)
         end)
  end.

Definition item_cost (sh : share) (item : string * Z) : nat :=
  subtree_cost sh (Z.to_nat (NZBDAV_MAX_DIRECTORY_DEPTH + 1 - item.2)) item.1.

Definition queue_cost (sh : share) (q : list (string * Z)) : nat :=
  sum_list (map (item_cost sh) q).

(** The root of a job's files. *)
Definition rootPath (category jobName : string) : string :=
  normalizeNzbdavPath ("/content/" +:+ category +:+ "/" +:+ jobName).

Definition start (category jobName : string) : walk :=
  Walk [(rootPath category jobName, 0)] ∅ None None [] [].

(** The traversal of [findBestVideoFile] with its records. *)
Definition locate (sh : share) (category jobName : string)
    (requestedEpisode : option requested_episode) : option walk :=
  let w0 := start category jobName in
  traverse sh requestedEpisode (queue_cost sh (queue w0)) w0.

(** [bestEpisodeMatch || bestMatch] *)
Definition selection (w : walk) : option candidate :=
  match bestEpisodeMatch w with
  | Some c => Some c
  | None => bestMatch w
  end.

(** [findBestVideoFile({ category, jobName, requestedEpisode })]: the outer
    [None] stands for a loop that has not ended, the inner one for
    JavaScript's [null]. *)
Definition findBestVideoFile (sh : share) (category jobName : string)
    (requestedEpisode : option requested_episode) : option (option candidate) :=
  selection <$> locate sh category jobName requestedEpisode.

(** The queue items that a listing of [currentPath] at [depth] appends. *)
Definition children (currentPath : string) (depth : Z) (entries : list dirent)
  : list (string * Z) :=
  map (λ e, (nextPath currentPath e, depth + 1)) (List.filter isDirectory entries).

(** Whether an entry of a listing becomes a candidate. *)
Definition is_video (e : dirent) : bool :=
  negb (isDirectory e)
  && negb (String.eqb (name e) "" || negb (isVideoFileName (name e))).

Definition candidate_of (requestedEpisode : option requested_episode)
    (currentPath : string) (e : dirent) : candidate :=
  Candidate (name e) (default 0 (size e))
            (fileMatchesEpisode (name e) requestedEpisode)
            (nextPath currentPath e)
            (strip_leading_slashes (nextPath currentPath e)).

(** The candidates that a listing of [currentPath] yields, in order. *)
Definition videos (requestedEpisode : option requested_episode)
    (currentPath : string) (entries : list dirent) : list candidate :=
  map (candidate_of requestedEpisode currentPath) (List.filter is_video entries).

(** The largest of a run of candidates, the earliest among equals. *)
Definition best_of (cs : list candidate) : option candidate :=
  fold_left better cs None.

(** [item] stands for a directory entry of the listing of [parent]. *)
Definition child_of (sh : share) (parent item : string * Z) : Prop :=
  ∃ entries e,
    listWebdavDirectory sh parent.1 = Some entries
    ∧ e ∈ entries ∧ isDirectory e = true
    ∧ item = (nextPath parent.1 e, parent.2 + 1).

(** [item] is the root at depth 0, or a directory entry of a listing that
    was made. *)
Definition origin_ok (sh : share) (root : string) (made : list (string * Z))
    (item : string * Z) : Prop :=
  item = (root, 0) ∨ ∃ parent, parent ∈ made ∧ child_of sh parent item.

(** The candidates of the listings that were made, in order. *)
Definition found (sh : share) (requestedEpisode : option requested_episode)
    (made : list (string * Z)) : list candidate :=
  flat_map (λ item, videos requestedEpisode item.1
                      (default [] (listWebdavDirectory sh item.1))) made.

(** The invariant of the traversal loop. *)
Record walk_inv (sh : share) (requestedEpisode : option requested_episode)
    (root : string) (w : walk) : Prop := WalkInv {
  wi_visited : ∀ p, p ∈ visited w ↔ p ∈ (listed w).*1;
  wi_nodup : NoDup (listed w).*1;
  wi_depth : ∀ p d, (p, d) ∈ listed w → 0 ≤ d ≤ NZBDAV_MAX_DIRECTORY_DEPTH;
  wi_qdepth : ∀ p d, (p, d) ∈ queue w → 0 ≤ d;
  wi_origin : ∀ item, item ∈ queue w ++ listed w →
                      origin_ok sh root (listed w) item;
  wi_found : discovered w = found sh requestedEpisode (listed w);
  wi_best : bestMatch w = best_of (discovered w);
  wi_bestEp : bestEpisodeMatch w
              = best_of (List.filter matchesEpisode (discovered w))
}.

(** The share in which every failing listing is an empty directory. *)
Definition heal (sh : share) : share := λ p, Some (default [] (sh p)).

End Locator.

(** ** The build pipeline *)

Module Pipeline.
Import Poller.

(** What the pipeline meets outside the process. *)
Record environment := Environment {
  cfg : config;
  submit_reply : http addurl_data;  (* the answer to the queueing call *)
  submit_elapsed : N;               (* the time the queueing call takes *)
  polls : nat → poll;               (* the answers to the history queries *)
  files : Locator.share             (* the file share *)
}.

(** The [catch] of [buildNzbdavStream]: a job failure is annotated before
    it is thrown again. *)
Definition annotate (downloadUrl category title : string) (e : error) : error :=
  if isNzbdavFailure e
  then Error (message e) (isNzbdavFailure e) (failureMessage e) (JS.nzoId e)
             (Some category) (Some downloadUrl) (Some title) (response_status e)
  else e.

Definition noJobName : error :=
  new_Error "[NZBDAV] Unable to determine job name from history".

Definition noPlayableFile : error :=
  new_Error "[NZBDAV] No playable video files found after mounting NZB".

(** [buildNzbdavStream({ downloadUrl, category, title, requestedEpisode })]
    started at clock value [now]; the outer [None] stands for a run that
    has not ended. *)
Definition buildNzbdavStream (env : environment) (now : Z)
    (downloadUrl category title : string)
    (requestedEpisode : option Locator.requested_episode)
  : option Cache.outcome :=
  let rethrow e := Some (Cache.Rejected (annotate downloadUrl category title e)) in
  match addNzbToNzbdav (cfg env) (submit_reply env) downloadUrl category title with
  | Throw e => rethrow e
  | Ok nzoId =>
      match waitForNzbdavHistorySlot (cfg env) (polls env) nzoId category
              (now + Z.of_N (submit_elapsed env)) with
      | None => None
      | Some p =>
          match ended p with
          | Throw e => rethrow e
          | Ok slot =>
              let slotCategory :=
                or_else (js_or (slot_category slot) (Category slot)) category in
              let slotJobName :=
                js_or (js_or (js_or (job_name slot) (JobName slot)) (name slot))
                      (Name slot) in
              if negb (truthy slotJobName) then rethrow noJobName
              else
                match Locator.findBestVideoFile (files env) slotCategory
                        (or_else slotJobName "") requestedEpisode with
                | None => None
                | Some None => rethrow noPlayableFile
                | Some (Some bestFile) =>
                    Some (Cache.Resolved
                            (Cache.StreamData nzoId slotCategory
                               (or_else slotJobName "")
                               (Locator.viewPath bestFile)
                               (Locator.c_size bestFile)))
                end
          end
      end
  end.

End Pipeline.

(** ** The range-aware proxy *)

Module Proxy.
Import Regex.

Inductive header_value :=
| HStr (s : string)
| HNum (n : Z).

#[global] Instance header_value_eq_dec : EqDecision header_value.
Proof. solve_decision. Defined.

(** What has been written to the client. *)
Inductive payload :=
| Bytes (bs : list ascii)         (* bytes piped or none at all *)
| Text (s : string)               (* res.send(text) *)
| JsonError (msg : string).       (* res.json({ error: msg }) *)

(** The state of the response object [res]. *)
Record response := Response {
  statusCode : Z;
  headers : list (string * header_value);
  body : payload;
  headersSent : bool;
  finished : bool
}.

Definition fresh : response := Response 200 [] (Bytes []) false false.

Definition same_header (a b : string) : bool :=
  String.eqb (toLowerCase a) (toLowerCase b).

(** [res.setHeader(name, value)]; header names are case-insensitive. *)
Definition setHeader (name : string) (v : header_value) (res : response)
  : response :=
  Response (statusCode res)
    (filter (λ kv, same_header kv.1 name = false) (headers res) ++ [(name, v)])
    (body res) (headersSent res) (finished res).

(** [res.getHeader(name)] *)
Definition getHeader (name : string) (res : response) : option header_value :=
  snd <$> List.find (λ kv, same_header kv.1 name) (headers res).

(** [res.status(code)] *)
Definition status (code : Z) (res : response) : response :=
  Response code (headers res) (body res) (headersSent res) (finished res).

(** [res.end()] *)
Definition end_response (res : response) : response :=
  Response (statusCode res) (headers res) (body res) true true.

(** [res.send(text)] *)
Definition send (text : string) (res : response) : response :=
  Response (statusCode res) (headers res) (Text text) true true.

(** [res.json({ error: msg })] *)
Definition json_error (msg : string) (res : response) : response :=
  Response (statusCode res) (headers res) (JsonError msg) true true.

(** [pipelineAsync(stream, res)] for a stream that delivers [bs] to a
    client that stays connected. *)
Definition pipe (bs : list ascii) (res : response) : response :=
  Response (statusCode res) (headers res) (Bytes bs) true true.

(** Number of body bytes of a piped or empty body. *)
Definition body_bytes (res : response) : option nat :=
  match body res with
  | Bytes bs => Some (length bs)
  | _ => None
  end.

(** The inbound request: its method and the headers the core reads. *)
Record request := Request {
  method : option string;
  range : option string;
  if_range : option string;
  accept : option string;
  accept_language : option string;
  accept_encoding : option string;
  user_agent : option string
}.

(** [s.toUpperCase()] *)
Fixpoint toUpperCase (s : string) : string :=
  match s with
  | EmptyString => EmptyString
  | String c s' => String (upper_ascii c) (toUpperCase s')
  end.

(** [(req.method || 'GET').toUpperCase()] *)
Definition originalMethod (req : request) : string :=
  toUpperCase (or_else (method req) "GET").

(** What [fs.promises.stat] finds at a path. *)
Inductive node :=
| RegularFile (content : list ascii) (mtime : string)
| NotAFile.

(** [fs.createReadStream(path, { start, end })] read to its end: the bytes
    from [start] to [end] inclusive; the call throws a range error when a
    bound is negative or [start > end]. *)
Definition createReadStream (content : list ascii) (start end_ : Z)
  : option (list ascii) :=
  if (start <? 0) || (end_ <? 0) || (end_ <? start) then None
  else Some (take (Z.to_nat (end_ - start + 1)) (drop (Z.to_nat start) content)).

Definition rangeError : error := new_Error "ERR_OUT_OF_RANGE".

(** [/^bytes=\d*-\d*$/] *)
Definition range_pattern : regex :=
  seq [lit (String.list_ascii_of_string "bytes="); Star Digit; Chr "-";
       Star Digit].

(** [str.split(sep)] for a one-character separator. *)
Fixpoint split_on (sep : ascii) (s : string) : list string :=
  match s with
  | EmptyString => [EmptyString]
  | String c s' =>
      if Ascii.eqb c sep then EmptyString :: split_on sep s'
      else
        match split_on sep s' with
        | x :: xs => String c x :: xs
        | [] => [String c EmptyString]
        end
  end.

Definition digit_value (c : ascii) : Z := Z.of_N (N_of_ascii c) - 48.

(** Value of the leading decimal digits of [cs], continuing [acc]. *)
Fixpoint leading_digits (acc : Z) (cs : list ascii) : Z :=
  match cs with
  | c :: cs' =>
      if is_digit c then leading_digits (10 * acc + digit_value c) cs' else acc
  | [] => acc
  end.

(** [Number.parseInt(s, 10)] on a string that starts with a digit or is
    not numeric at all; [None] is [NaN]. *)
Definition parseInt (s : string) : option Z :=
  match String.list_ascii_of_string s with
  | c :: cs => if is_digit c then Some (leading_digits 0 (c :: cs)) else None
  | [] => None
  end.

(** The assignment [x = parsed] guarded by
    [Number.isFinite(parsed) && parsed >= 0], inside [if (rangeBound)]. *)
Definition bound_or (rangeBound : string) (current : Z) : Z :=
  if String.eqb rangeBound "" then current
  else
    match parseInt rangeBound with
    | Some parsed => if 0 <=? parsed then parsed else current
    | None => current
    end.

(** [streamFileResponse(req, res, absolutePath, emulateHead, logPrefix,
    existingStats)], where [stats] is [existingStats || await safeStat(..)].
    [Ok None] is the return value [false], [Ok (Some res')] the return value
    [true] with the response in state [res']. *)
Definition streamFileResponse (req : request) (res : response)
    (stats : option node) (emulateHead : bool) : result (option response) :=
  match stats with
  | None | Some NotAFile => Ok None
  | Some (RegularFile content mtime) =>
      let totalSize := Z.of_nat (length content) in
      let res := setHeader "Accept-Ranges" (HStr "bytes") res in
      let res := setHeader "Last-Modified" (HStr mtime) res in
      let res := setHeader "Content-Type" (HStr "application/octet-stream") res in
      if emulateHead then
        Ok (Some (end_response (status 200
                    (setHeader "Content-Length" (HNum totalSize) res))))
      else
        let ranged :=
          match range req with
          | Some rangeHeader =>
              truthy (Some rangeHeader)
              && test_anchored false range_pattern rangeHeader
          | None => false
          end in
        if ranged then
          let rangeHeader := default "" (range req) in
          let rangeSpec := nth 1 (split_on "=" rangeHeader) "" in
          let parts := split_on "-" rangeSpec in
          let rangeStart := nth 0 parts "" in
          let rangeEnd := nth 1 parts "" in
          let start := bound_or rangeStart 0 in
          let end1 := bound_or rangeEnd (totalSize - 1) in
          let end2 := if String.eqb rangeEnd "" then totalSize - 1 else end1 in
          if totalSize <=? start then
            Ok (Some (end_response
                        (setHeader "Content-Range"
                           (HStr ("bytes */" +:+ pretty totalSize))
                           (status 416 res))))
          else
            let end3 := if (totalSize <=? end2) || (end2 <? start)
                        then totalSize - 1 else end2 in
            let chunkSize := end3 - start + 1 in
            match createReadStream content start end3 with
            | None => Throw rangeError
            | Some bytes =>
                let res := status 206 res in
                let res := setHeader "Content-Range"
                             (HStr ("bytes " +:+ pretty start +:+ "-" +:+
                                    pretty end3 +:+ "/" +:+ pretty totalSize))
                             res in
                let res := setHeader "Content-Length" (HNum chunkSize) res in
                Ok (Some (pipe bytes res))
            end
        else
          match createReadStream content 0 (totalSize - 1) with
          | None => Throw rangeError
          | Some bytes =>
              let res := status 200 res in
              let res := setHeader "Content-Length" (HNum totalSize) res in
              Ok (Some (pipe bytes res))
          end
  end.

(** [failureError?.failureMessage || failureError?.message || '...'] *)
Definition failure_text (failureError : error) : string :=
  or_else (js_or (failureMessage failureError) (Some (message failureError)))
          "NZBDav download failed".

(** [streamFailureVideo(req, res, failureError)], where [asset] is what
    [safeStat(FAILURE_VIDEO_PATH)] finds. *)
Definition streamFailureVideo (asset : option node) (req : request)
    (res : response) (failureError : error) : result (option response) :=
  match asset with
  | None | Some NotAFile => Ok None
  | Some (RegularFile _ _) =>
      let emulateHead := String.eqb (originalMethod req) "HEAD" in
      let res := if negb (headersSent res)
                 then setHeader "X-NZBDav-Failure"
                        (HStr (failure_text failureError)) res
                 else res in
      streamFileResponse req res asset emulateHead
  end.

(** The request that [axios.request] sends to the file share. *)
Record share_request := ShareRequest {
  sr_url : string;
  sr_method : string;
  sr_headers : list (string * string)
}.

(** What the file share answers: status, headers, and the bytes its body
    stream would deliver if it were read. *)
Record share_response := ShareResponse {
  up_status : Z;
  up_headers : list (string * header_value);
  up_data : list ascii
}.

Definition pass_through (name : string) (v : option string)
  : list (string * string) :=
  if truthy v then [(name, or_else v "")] else [].

(** The [headers] object of the outbound request. *)
Definition outbound_headers (req : request) (emulateHead : bool)
  : list (string * string) :=
  let hs := pass_through "Range" (range req)
            ++ pass_through "If-Range" (if_range req)
            ++ pass_through "Accept" (accept req)
            ++ pass_through "Accept-Language" (accept_language req)
            ++ pass_through "Accept-Encoding" (accept_encoding req)
            ++ pass_through "User-Agent" (user_agent req) in
  if emulateHead && negb (truthy (range req))
  then hs ++ [("Range", "bytes=0-0")]
  else hs.

(** The [forEach] over the upstream headers. *)
Definition relay_headers (hs : list (string * header_value)) (res : response)
  : response :=
  fold_left (λ r kv, if String.eqb (toLowerCase kv.1) "transfer-encoding"
                     then r else setHeader kv.1 kv.2 r) hs res.

Section Remote.

(** The platform's [encodeURIComponent], the file share's base URL with
    trailing slashes removed, and the file share itself. *)
Variable encodeURIComponent : string → string.
Variable webdavBase : string.
Variable fileShare : share_request → http share_response.

Definition targetUrl (viewPath : string) : string :=
  let normalizedPath := Locator.normalizeNzbdavPath viewPath in
  webdavBase +:+
  String.concat "/" (map encodeURIComponent (split_on "/" normalizedPath)).

(** [proxyNzbdavStream(req, res, viewPath)]; the second component tells
    whether the body stream of the upstream response was piped. *)
Definition proxyNzbdavStream (req : request) (res : response)
    (viewPath : string) : result (response * bool) :=
  let original := originalMethod req in
  if negb (bool_decide (original ∈ ["GET"; "HEAD"]))
  then Ok (send "Method Not Allowed" (status 405 res), false)
  else
    let emulateHead := String.eqb original "HEAD" in
    let proxiedMethod := if emulateHead then "GET" else original in
    let requestConfig :=
      ShareRequest (targetUrl viewPath) proxiedMethod
                   (outbound_headers req emulateHead) in
    match fileShare requestConfig with
    | Failed e => Throw (of_client_error e)
    | Responded nzbdavResponse =>
        let res := status (up_status nzbdavResponse) res in
        let res := relay_headers (up_headers nzbdavResponse) res in
        if emulateHead then Ok (end_response res, false)
        else Ok (pipe (up_data nzbdavResponse) res, true)
    end.

End Remote.

(** [error.response?.status || 502] *)
Definition error_status (e : error) : Z :=
  match response_status e with
  | Some code => if truthy_num code then code else 502
  | None => 502
  end.

(** The [catch] block of [handleNzbdavStream]: [Ok res'] is the state the
    response is left in; [Throw] is an exception that escapes the handler. *)
Definition handle_error (asset : option node) (req : request)
    (res : response) (e : error) : result response :=
  if isNzbdavFailure e then
    match streamFailureVideo asset req res e with
    | Throw e' => Throw e'
    | Ok (Some res') => Ok res'
    | Ok None =>
        if negb (headersSent res)
        then Ok (json_error (or_else (failureMessage e) (message e))
                            (status 502 res))
        else Ok (end_response res)
    end
  else
    if negb (headersSent res)
    then Ok (json_error (message e) (status (error_status e) res))
    else Ok (end_response res).

(** [headers[name]] on the plain object of outbound headers. *)
Definition header_of (name : string) (hs : list (string * string))
  : option string :=
  snd <$> List.find (λ kv, String.eqb kv.1 name) hs.

(** The value that the last header of that name carries in a list of
    upstream headers. *)
Definition last_header (name : string) (hs : list (string * header_value))
  : option header_value :=
  snd <$> List.find (λ kv, same_header kv.1 name) (rev hs).

(** A file share that holds one file and answers a GET the way a server
    with byte-range support does, with the range semantics of
    [streamFileResponse]. *)
Definition range_capable_share (content : list ascii) (mtime : string)
    (rq : share_request) : http share_response :=
  let req := Request (Some (sr_method rq)) (header_of "Range" (sr_headers rq))
                     None None None None None in
  match streamFileResponse req fresh (Some (RegularFile content mtime)) false with
  | Ok (Some r) =>
      Responded (ShareResponse (statusCode r) (headers r)
                   (match body r with Bytes bs => bs | _ => [] end))
  | _ => Failed (ClientError "Request failed" None)
  end.

(** The header names that [streamFileResponse] sets. *)
Definition file_headers : list string :=
  ["Accept-Ranges"; "Last-Modified"; "Content-Type"; "Content-Length";
   "Content-Range"].

(** A string of decimal digits, possibly empty, and its value. *)
Definition all_digits (s : string) : bool :=
  forallb is_digit (String.list_ascii_of_string s).

Definition numeral_value (s : string) : Z :=
  leading_digits 0 (String.list_ascii_of_string s).

(** The separator does not occur in the string. *)
Definition free_of (sep : ascii) (s : string) : Prop :=
  forallb (λ c, negb (Ascii.eqb c sep)) (String.list_ascii_of_string s) = true.

(** The bytes from offset [first] to offset [last] inclusive. *)
Definition slice (content : list ascii) (first last : Z) : list ascii :=
  take (Z.to_nat (last - first + 1)) (drop (Z.to_nat first) content).

(** [cacheKeyParts.join('|')] *)
Definition cacheKey (downloadUrl category : string)
    (requestedEpisode : option Locator.requested_episode) : string :=
  match requestedEpisode with
  | Some ep =>
      downloadUrl +:+ "|" +:+ category +:+ "|" +:+
      pretty (Locator.season ep) +:+ "x" +:+ pretty (Locator.episode ep)
  | None => downloadUrl +:+ "|" +:+ category
  end.

(** [handleNzbdavStream(req, res)] from the point where
    [await getOrCreateNzbdavStream(...)] has settled with [streamData]. *)
Definition handleNzbdavStream (encodeURIComponent : string → string)
    (webdavBase : string) (fileShare : share_request → http share_response)
    (asset : option node) (downloadUrl : option string)
    (streamData : Cache.outcome) (req : request) (res : response)
  : result response :=
  if negb (truthy downloadUrl)
  then Ok (json_error "downloadUrl query parameter is required" (status 400 res))
  else
    match streamData with
    | Cache.Resolved data =>
        match proxyNzbdavStream encodeURIComponent webdavBase fileShare req res
                (Cache.sd_viewPath data) with
        | Ok (res', _) => Ok res'
        | Throw e => handle_error asset req res e
        end
    | Cache.Rejected e => handle_error asset req res e
    end.

End Proxy.

(** ** Sample environments *)

Module Fixtures.
Import Poller Locator.

Definition sample_config : config :=
  Config "http://nzbdav:3000" "secret" "http://nzbdav:3000".

Definition history_slot (id st jobName : string) (fail : option string) : slot :=
  Slot (Some id) None None (Some st) None fail None None None None
       (Some jobName) None None None.

Definition history (slots : list slot) : poll :=
  Poll 150 (Responded (HistoryData true None 200 slots)).

(** The job is queued at the first two queries and completed at the third. *)
Definition polls_completed (i : nat) : poll :=
  history [history_slot "other" "Completed" "Other.Job" None;
           history_slot "nzo1" (if (i <? 2)%nat then "Queued" else "Completed")
             "My.Movie.2024" None].

(** The job is reported as failed at the second query. *)
Definition polls_failed (i : nat) : poll :=
  history [history_slot "nzo1" (if (i <? 1)%nat then "Downloading" else "Failed")
             "My.Movie.2024" (Some "Article missing")].

(** The job never leaves the queue. *)
Definition polls_stuck (_ : nat) : poll :=
  history [history_slot "nzo1" "Queued" "My.Movie.2024" None].

(** The manager breaks down at the third query. *)
Definition polls_broken (i : nat) : poll :=
  if (i <? 2)%nat then polls_stuck i
  else Poll 30 (Failed (ClientError "Request failed with status code 503"
                          (Some 503))).

Definition movie_share : share := λ p,
  if String.eqb p "content/Movies/My.Movie.2024"
  then Some [Dirent "My.Movie.2024.mkv" false (Some 4200000000);
             Dirent "My.Movie.2024.nfo" false (Some 512)]
  else None.

Definition episodes_share : share := λ p,
  if String.eqb p "content/Tv/Show.S01"
  then Some [Dirent "S01E02.mkv" false (Some 1000000000);
             Dirent "S01E03.mkv" false (Some 3000000000);
             Dirent "extras.mkv" false (Some 5000000000);
             Dirent "Subs" true None]
  else None.

(** Every directory holds a directory [d] and a video file whose size is
    the length of the directory's path: a tree without end. *)
Definition endless_share : share := λ p,
  Some [Dirent "d" true None;
        Dirent "v.mkv" false (Some (Z.of_nat (String.length p)))].

(** Every directory lists the same directory name twice. *)
Definition twin_share : share := λ p,
  Some [Dirent "a" true None; Dirent "a" true None;
        Dirent "v.mkv" false (Some 1)].

Definition movie_environment : Pipeline.environment :=
  Pipeline.Environment sample_config
    (Responded (AddurlData true None 200 None None None (Some "nzo1") None))
    200 polls_completed movie_share.

End Fixtures.

(** ** Shapes of paths *)

Module Paths.

Definition no_backslash (s : string) : Prop := Proxy.free_of "\" s.

(** A path of the traversal: it starts with a slash and holds no
    backslash. *)
Definition clean (p : string) : Prop :=
  ∃ rest, p = String "/" rest ∧ no_backslash rest.

(** [p] is [root] or lies below it. *)
Definition under (root p : string) : Prop :=
  p = root ∨ ∃ rest, p = root +:+ "/" +:+ rest.

(** The extension scan over the characters [l] that sit at offset [off] of
    a path, from the last to the first, started in state [st]. *)
Definition scan (off : nat) (l : list ascii) (st : Locator.ext_scan)
  : Locator.ext_scan :=
  fold_left Locator.ext_scan_step (rev (imap (λ i c, ((off + i)%nat, c)) l)) st.

(** A character that is neither a dot nor a slash. *)
Definition plain (c : ascii) : bool :=
  negb (Ascii.eqb c ".") && negb (Ascii.eqb c "/").

End Paths.

(** ** Shapes of file names *)

Module Names.

(** A run of [n] zeros. *)
Fixpoint zeros (n : nat) : string :=
  match n with
  | O => ""
  | S n' => String "0" (zeros n')
  end.

(** The text does not start with a digit. *)
Definition next_not_digit (s : string) : bool :=
  match s with
  | String a _ => negb (JS.is_digit a)
  | EmptyString => true
  end.

(** No character of the text is a digit. *)
Definition digit_free (s : list ascii) : bool :=
  forallb (λ c, negb (JS.is_digit c)) s.

End Names.

(** ** The requested episode *)

Module Episode.
Import JS Locator.

(** The white space that [parseInt] skips, among the code units below
    256. *)
Definition is_space (c : ascii) : bool :=
  let n := N_of_ascii c in
  ((n =? 9) || (n =? 10) || (n =? 11) || (n =? 12) || (n =? 13) || (n =? 32)
   || (n =? 160))%N.

Fixpoint skip_spaces (cs : list ascii) : list ascii :=
  match cs with
  | c :: cs' => if is_space c then skip_spaces cs' else cs
  | [] => []
  end.

(** [parseInt(value, 10)] on the string that [value] converts to; [None]
    is [NaN].  Numbers are exact integers, as doubles are below [2^53]. *)
Definition parseInt (s : string) : option Z :=
  let cs := skip_spaces (String.list_ascii_of_string s) in
  let '(sign, ds) :=
    match cs with
    | "-"%char :: r => (-1, r)
    | "+"%char :: r => (1, r)
    | _ => (1, cs)
    end in
  match ds with
  | c :: _ =>
      if is_digit c then Some (sign * Proxy.leading_digits 0 ds) else None
  | [] => None
  end.

(** [extractInt(value)]: [None] is [null]; the argument is [None] for
    [undefined] and [null], and the string that the value converts to
    otherwise. *)
Definition extractInt (value : option string) : option Z :=
  match value with
  | None => None
  | Some v => parseInt v
  end.

(** [s.includes(c)] for a one-character [c]. *)
Definition includes (c : ascii) (s : string) : bool :=
  existsb (Ascii.eqb c) (String.list_ascii_of_string s).

(** The properties of [req.query] that [parseRequestedEpisode] reads. *)
Record query := Query {
  q_season : option string;
  q_Season : option string;
  q_S : option string;
  q_episode : option string;
  q_Episode : option string;
  q_E : option string
}.

Definition no_query : query := Query None None None None None None.

(** Truthiness of [extractInt]'s result. *)
Definition truthy_int (v : option Z) : bool :=
  match v with
  | Some z => truthy_num z
  | None => false
  end.

(** [parseRequestedEpisode(type, id, query)]; [id] is [None] when it is
    not a string, and a [type] that is not a string is any text other than
    [series].  [None] is the result [null]. *)
Definition parseRequestedEpisode (type : string) (id : option string)
    (q : query) : option requested_episode :=
  let seasonFromQuery :=
    extractInt (js_nullish (js_nullish (q_season q) (q_Season q)) (q_S q)) in
  let episodeFromQuery :=
    extractInt (js_nullish (js_nullish (q_episode q) (q_Episode q)) (q_E q)) in
  let fromId :=
    match id with
    | Some i =>
        if String.eqb type "series" && includes ":" i
        then
          let parts := Proxy.split_on ":" i in
          if (3 <=? length parts)%nat then
            match extractInt (parts !! 1%nat), extractInt (parts !! 2%nat) with
            | Some s, Some e =>
                if truthy_num s && truthy_num e
                then Some (RequestedEpisode s e) else None
            | _, _ => None
            end
          else None
        else None
    | None => None
    end in
  match seasonFromQuery, episodeFromQuery with
  | Some s, Some e =>
      if truthy_num s && truthy_num e then Some (RequestedEpisode s e)
      else fromId
  | _, _ => fromId
  end.

(** The category settings, each [process.env.X || default]. *)
Record categories := Categories {
  env_NZBDAV_CATEGORY_MOVIES : option string;
  env_NZBDAV_CATEGORY_SERIES : option string;
  env_NZBDAV_CATEGORY_DEFAULT : option string
}.

(** [getNzbdavCategory(type)] *)
Definition getNzbdavCategory (env : categories) (type : string) : string :=
  if String.eqb type "series" || String.eqb type "tv"
  then or_else (env_NZBDAV_CATEGORY_SERIES env) "Tv"
  else if String.eqb type "movie"
  then or_else (env_NZBDAV_CATEGORY_MOVIES env) "Movies"
  else or_else (env_NZBDAV_CATEGORY_DEFAULT env) "Movies".

(** The cache key that [handleNzbdavStream] computes from the query. *)
Definition requestKey (env : categories) (downloadUrl type : string)
    (id : option string) (q : query) : string :=
  Proxy.cacheKey downloadUrl (getNzbdavCategory env type)
    (parseRequestedEpisode type id q).

End Episode.

(** ** The search request of the stream handler *)

Module Search.
Import JS Regex.

(** [s.trim()], for the white space among the code units below 256. *)
Definition trim (s : string) : string :=
  String.string_of_list_ascii
    (rev (Episode.skip_spaces
            (rev (Episode.skip_spaces (String.list_ascii_of_string s))))).

(** [/^tt\d+$/] *)
Definition imdb_pattern : regex :=
  seq [lit (String.list_ascii_of_string "tt"); Digit; Star Digit].

(** [/^\d+$/] *)
Definition number_pattern : regex := seq [Digit; Star Digit].

(** [pickFirstDefined(...values)]: each value is [None] for [undefined]
    and [null], and the string it converts to otherwise. *)
Definition pickFirstDefined (values : list (option string)) : option string :=
  mjoin (List.find (λ v, match v with
                         | Some x => negb (String.eqb (trim x) "")
                         | None => false
                         end) values).

(** [normalizeImdb(value)] *)
Definition normalizeImdb (value : option string) : option string :=
  match value with
  | None => None
  | Some v =>
      let trimmed := trim v in
      if String.eqb trimmed "" then None
      else
        let withPrefix :=
          if String.prefix "tt" trimmed then trimmed else "tt" +:+ trimmed in
        if test_anchored false imdb_pattern withPrefix then Some withPrefix
        else None
  end.

(** [normalizeNumericId(value)] *)
Definition normalizeNumericId (value : option string) : option string :=
  match value with
  | None => None
  | Some v =>
      let trimmed := trim v in
      if test_anchored false number_pattern trimmed then Some trimmed else None
  end.

(** The check of the path id at the head of the handler: [Some primaryId]
    when [id.split(':')[0]] matches [/^tt\d+$/], [None] for the 400
    answer. *)
Definition primaryId_of (id : string) : option string :=
  let primaryId := default "" (head (Proxy.split_on ":" id)) in
  if test_anchored false imdb_pattern primaryId then Some primaryId else None.

(** [seasonNum] and [episodeNum] of the handler: the second and third
    part of the path id of a series, [None] for [null]. *)
Definition pathNumbers (type id : string) : option Z * option Z :=
  if String.eqb type "series" && Episode.includes ":" id then
    let parts := Proxy.split_on ":" id in
    (parts !! 1%nat ≫= Episode.parseInt, parts !! 2%nat ≫= Episode.parseInt)
  else (None, None).

(** A search plan [{ type, query }]. *)
Record plan := Plan {
  p_type : string;
  p_query : string
}.

#[global] Instance plan_eq_dec : EqDecision plan.
Proof. solve_decision. Defined.

(** [searchPlans] and [seenPlans]. *)
Record plans_state := PlansState {
  searchPlans : list plan;
  seenPlans : gset string
}.

(** What the plans are built from: the request's type, the normalised
    identifiers, season and episode of the path id ([None] for [null]),
    the resolved title and year, the path's primary id and the
    [PROWLARR_STRICT_ID_MATCH] setting. *)
Record plan_input := PlanInput {
  type : string;
  imdb : option string;
  tvdb : option string;
  tmdb : option string;
  seasonNum : option Z;
  episodeNum : option Z;
  movieTitle : option string;
  releaseYear : option Z;
  primaryId : string;
  PROWLARR_STRICT_ID_MATCH : bool
}.

(** [`{Season:${seasonNum}}`] and [`{Episode:${episodeNum}}`], [None]
    when the number is not finite. *)
Definition seasonToken (i : plan_input) : option string :=
  (λ n : Z, "{Season:" +:+ pretty n +:+ "}") <$> seasonNum i.

Definition episodeToken (i : plan_input) : option string :=
  (λ n : Z, "{Episode:" +:+ pretty n +:+ "}") <$> episodeNum i.

Definition token_list (v : option string) : list string :=
  if truthy v then [or_else v ""] else [].

(** [addPlan(planType, { tokens, rawQuery })]: the value returned and the
    state that follows. *)
Definition addPlan (i : plan_input) (planType : string) (tokens : list string)
    (rawQuery : option string) (st : plans_state) : bool * plans_state :=
  let query :=
    if truthy rawQuery then or_else rawQuery ""
    else
      let tokenList :=
        tokens ++ (if String.eqb planType "tvsearch"
                   then token_list (seasonToken i) ++ token_list (episodeToken i)
                   else []) in
      String.concat " " (List.filter (λ t, negb (String.eqb t "")) tokenList) in
  if String.eqb query "" then (false, st)
  else
    let planKey := planType +:+ "|" +:+ query in
    if bool_decide (planKey ∈ seenPlans st) then (false, st)
    else (true, PlansState (searchPlans st ++ [Plan planType query])
                           ({[planKey]} ∪ seenPlans st)).

Definition searchType (i : plan_input) : string :=
  if String.eqb (type i) "series" then "tvsearch"
  else if String.eqb (type i) "movie" then "movie"
  else "search".

(** [String(n).padStart(2, '0')] *)
Definition pad2 (n : Z) : string :=
  let s := pretty n in
  if (String.length s <? 2)%nat
  then Names.zeros (2 - String.length s) +:+ s else s.

Definition textQueryParts (i : plan_input) : list string :=
  let episodePart :=
    match seasonNum i, episodeNum i with
    | Some s, Some e =>
        if String.eqb (type i) "series"
        then ["S" +:+ pad2 s +:+ "E" +:+ pad2 e] else []
    | _, _ => []
    end in
  (if truthy (movieTitle i) then [or_else (movieTitle i) ""] else [])
  ++ match releaseYear i with
     | Some y => if String.eqb (type i) "movie" then [pretty y] else episodePart
     | None => episodePart
     end.

(** [(textQueryParts.join(' ').trim() || primaryId).trim()] *)
Definition textQueryFallback (i : plan_input) : string :=
  let joined := trim (String.concat " " (textQueryParts i)) in
  trim (if String.eqb joined "" then primaryId i else joined).

(** The plans of a request, in the order in which they are dispatched. *)
Definition buildSearchPlans (i : plan_input) : plans_state :=
  let imdbToken := "{ImdbId:" +:+ or_else (imdb i) "" +:+ "}" in
  let st := PlansState [] ∅ in
  let st := if truthy (imdb i)
            then (addPlan i (searchType i) [imdbToken] None st).2 else st in
  let st := if String.eqb (type i) "series" && truthy (tvdb i)
            then (addPlan i "tvsearch"
                    ["{TvdbId:" +:+ or_else (tvdb i) "" +:+ "}"] None st).2
            else st in
  let st := if String.eqb (type i) "movie" && truthy (tmdb i)
            then (addPlan i "movie"
                    ["{TmdbId:" +:+ or_else (tmdb i) "" +:+ "}"] None st).2
            else st in
  let st := if (length (searchPlans st) =? 0)%nat && truthy (imdb i)
            then (addPlan i (searchType i) [imdbToken] None st).2 else st in
  if negb (PROWLARR_STRICT_ID_MATCH i)
  then (addPlan i "search" [] (Some (textQueryFallback i)) st).2
  else st.

(** The key [`${planType}|${query}`] of a plan. *)
Definition plan_key (p : plan) : string := p_type p +:+ "|" +:+ p_query p.

Definition plan_types : list string := ["tvsearch"; "movie"; "search"].

(** The invariant of the plan list: the keys that were seen are the keys of
    the plans, no key occurs twice, and every plan has a query and one of
    the three types. *)
Record plans_inv (st : plans_state) : Prop := PlansInv {
  pi_seen : ∀ k, k ∈ seenPlans st ↔ k ∈ plan_key <$> searchPlans st;
  pi_nodup : NoDup (plan_key <$> searchPlans st);
  pi_shape : ∀ p, p ∈ searchPlans st → p_query p ≠ "" ∧ p_type p ∈ plan_types
}.

Definition id_prefixes : list string := ["{ImdbId:"; "{TvdbId:"; "{TmdbId:"].

(** The query of the plan starts with an identifier token. *)
Definition is_id_plan (p : plan) : bool :=
  existsb (λ tok, String.prefix tok (p_query p)) id_prefixes.

(** [l] without the white space at its end. *)
Definition strip_end (l : list ascii) : list ascii :=
  rev (Episode.skip_spaces (rev l)).

End Search.

(** ** The search results of the stream handler *)

Module Results.
Import JS.

(** A search result, by the properties the handler reads, typed as the
    indexer manager delivers them: identifiers and sizes are integers, the
    others strings; [None] is a property that is absent or [null]. *)
Record result := Result {
  protocol : option string;
  downloadProtocol : option string;
  guid : option string;
  downloadUrl : option string;
  link : option string;
  indexerId : option Z;
  IndexerId : option Z;
  indexer : option string;
  Indexer : option string;
  title : option string;
  Title : option string;
  size : option Z;
  Size : option Z
}.

#[global] Instance result_eq_dec : EqDecision result.
Proof. solve_decision. Defined.

(** [a || b] on numbers. *)
Definition or_num (a b : option Z) : option Z :=
  match a with
  | Some z => if truthy_num z then a else b
  | None => b
  end.

(** [s.startsWith(p)] and [s.endsWith(p)] *)
Definition startsWith (p s : string) : bool := String.prefix p s.

Definition endsWith (p s : string) : bool :=
  let n := String.length s in
  let m := String.length p in
  (m <=? n)%nat && String.eqb (String.substring (n - m) m s) p.

(** [isTorrentResult(result)] *)
Definition isTorrentResult (r : result) : bool :=
  let protocol :=
    toLowerCase (or_else (js_or (protocol r) (downloadProtocol r)) "") in
  if String.eqb protocol "torrent" then true
  else
    let guid := toLowerCase (or_else (guid r) "") in
    let downloadUrl := toLowerCase (or_else (downloadUrl r) "") in
    let link := toLowerCase (or_else (link r) "") in
    if startsWith "magnet:" guid || startsWith "magnet:" downloadUrl
       || startsWith "magnet:" link
    then true
    else endsWith ".torrent" guid || endsWith ".torrent" downloadUrl
         || endsWith ".torrent" link.

(** [deriveResultKey(result)] for a result that is not [null]. *)
Definition deriveResultKey (r : result) : string :=
  let indexerId :=
    match or_num (indexerId r) (IndexerId r) with
    | Some z => if truthy_num z then pretty z else "unknown"
    | None => "unknown"
    end in
  let indexer := or_else (js_or (indexer r) (Indexer r)) "" in
  let title := Search.trim (or_else (js_or (title r) (Title r)) "") in
  let size :=
    match or_num (size r) (Size r) with
    | Some z => if truthy_num z then z else 0
    | None => 0
    end in
  indexerId +:+ "|" +:+ indexer +:+ "|" +:+ title +:+ "|" +:+ pretty size.

(** What a plan's request settles with: [Rejected], or the response's
    data, which is [None] when it is not an array; an item of the array is
    [None] when it is not an object. *)
Inductive plan_response :=
| PlanRejected
| PlanFulfilled (data : option (list (option result))).

(** An entry of [resultsByKey]. *)
Record entry := Entry {
  e_result : result;
  e_planType : string
}.

(** The callback of [planResults.filter]. *)
Definition is_nzb_item (item : option result) : bool :=
  match item with
  | None => false
  | Some r => truthy (downloadUrl r) && negb (isTorrentResult r)
  end.

(** [filteredResults] of a plan. *)
Definition filteredResults (planResults : list (option result)) : list result :=
  omap id (List.filter is_nzb_item planResults).

(** The body of [for (const item of filteredResults)]; [resultsByKey] keeps
    its entries in the order in which they were set. *)
Definition add_result (planType : string) (resultsByKey : list (string * entry))
    (item : result) : list (string * entry) :=
  let key := deriveResultKey item in
  if String.eqb key "" then resultsByKey
  else if bool_decide (key ∈ resultsByKey.*1) then resultsByKey
  else resultsByKey ++ [(key, Entry item planType)].

(** The body of [for (const result of planResultsSettled)]. *)
Definition add_plan_results (resultsByKey : list (string * entry))
    (settled : Search.plan * plan_response) : list (string * entry) :=
  match settled.2 with
  | PlanRejected => resultsByKey
  | PlanFulfilled data =>
      fold_left (add_result (Search.p_type settled.1))
        (filteredResults (default [] data)) resultsByKey
  end.

(** [dedupedNzbResults] *)
Definition dedupedNzbResults (settled : list (Search.plan * plan_response))
  : list result :=
  map (λ kv, e_result kv.2) (fold_left add_plan_results settled []).

(** The callback of [dedupedNzbResults.filter]. *)
Definition has_required_fields (r : result) : bool :=
  truthy (downloadUrl r)
  && match indexerId r with Some z => truthy_num z | None => false end.

(** [result.size || 0] *)
Definition size_or_zero (r : result) : Z :=
  match size r with
  | Some z => z
  | None => 0
  end.

(** Insertion behind the elements that are at least as large. *)
Fixpoint insert_desc (x : result) (l : list result) : list result :=
  match l with
  | [] => [x]
  | y :: l' =>
      if size_or_zero y <? size_or_zero x then x :: y :: l'
      else y :: insert_desc x l'
  end.

(** [array.sort((a, b) => (b.size || 0) - (a.size || 0))]: the sort is
    stable, and insertion in the order of the array gives the one stable
    arrangement by descending size. *)
Definition sort_desc (l : list result) : list result :=
  fold_left (λ acc x, insert_desc x acc) l [].

(** The results behind the streams of the answer, in their order. *)
Definition finalNzbResults (settled : list (Search.plan * plan_response))
  : list result :=
  sort_desc (List.filter has_required_fields (dedupedNzbResults settled)).

(** All results that pass the filter of their plan, in the order in which
    the loops meet them. *)
Definition offered (settled : list (Search.plan * plan_response)) : list result :=
  flat_map (λ s, match s.2 with
                 | PlanRejected => []
                 | PlanFulfilled data => filteredResults (default [] data)
                 end) settled.

(** The elements of [l] whose key is not in [seen] and is not the key of
    an earlier element of [l]. *)
Fixpoint firsts (seen : gset string) (l : list result) : list result :=
  match l with
  | [] => []
  | x :: l' =>
      if bool_decide (deriveResultKey x ∈ seen) then firsts seen l'
      else x :: firsts ({[deriveResultKey x]} ∪ seen) l'
  end.

(** Descending order of sizes. *)
Definition size_ge (a b : result) : Prop := size_or_zero b ≤ size_or_zero a.

(** The elements of one size. *)
Definition of_size (s : Z) (l : list result) : list result :=
  List.filter (λ r, size_or_zero r =? s) l.

End Results.

(** * Properties *)

(** ** The cache: invariant of the reachable states *)

Module CacheFacts.
Import Cache.

Lemma ttl_positive : 0 < NZBDAV_CACHE_TTL_MS.
Proof. reflexivity. Qed.

Lemma ttl_expiry_eq now : ttl_expiry now = Some (now + NZBDAV_CACHE_TTL_MS).
Proof. reflexivity. Qed.

(** Lazy eviction drops exactly the entries that have expired. *)
Lemma cleanup_lookup now (cache : gmap string cache_entry) k :
  cleanupNzbdavCache now cache !! k =
  match cache !! k with
  | Some e => if expired now e then None else Some e
  | None => None
  end.
Proof.
  unfold cleanupNzbdavCache. simpl.
  destruct (cache !! k) as [e|] eqn:Hk.
  - destruct (expired now e) eqn:He.
    + apply map_lookup_filter_None. right. intros x Hx. simpl.
      rewrite Hk in Hx. injection Hx as <-. congruence.
    + apply map_lookup_filter_Some. split; [done | exact He].
  - apply map_lookup_filter_None. left. exact Hk.
Qed.

Lemma cleanup_pending now (cache : gmap string cache_entry) k p :
  cache !! k = Some (EntryPending p) →
  cleanupNzbdavCache now cache !! k = Some (EntryPending p).
Proof. intros H. rewrite cleanup_lookup, H. reflexivity. Qed.

Lemma cleanup_Some now (cache : gmap string cache_entry) k e :
  cleanupNzbdavCache now cache !! k = Some e →
  cache !! k = Some e ∧ expired now e = false.
Proof.
  rewrite cleanup_lookup. destruct (cache !! k) as [e'|]; [|done].
  destruct (expired now e') eqn:He; [done|]. intros [= <-]. done.
Qed.

Lemma inv_initial t0 : 0 ≤ t0 → inv (initial t0).
Proof. intros Ht. split; simpl; try done. Qed.

Lemma inv_advance ms w : inv w → inv (advance ms w).
Proof.
  intros [H1 H2 H3 H4 H5 H6 H7]. split; simpl; try done; [lia|].
  intros k e Hk. specialize (H7 k e Hk). destruct e; simpl in *; try done.
  all: destruct H7 as (z & -> & ? & ?); exists z; repeat split; try done; lia.
Qed.

Lemma inv_getOrCreate k w : inv w → inv (getOrCreateNzbdavStream k w).2.
Proof.
  intros [H1 H2 H3 H4 H5 H6 H7].
  assert (Hcl : ∀ k' e, cleanupNzbdavCache (clock w) (nzbdavStreamCache w) !! k'
                        = Some e → nzbdavStreamCache w !! k' = Some e).
  { intros k' e He. by apply cleanup_Some in He as [? _]. }
  unfold getOrCreateNzbdavStream.
  destruct (cleanupNzbdavCache (clock w) (nzbdavStreamCache w) !! k)
    as [[d x|p|e x]|] eqn:Hk; simpl.
  1-3: split; simpl; try done; eauto using cleanup_pending.
  split; simpl; try done.
  - intros k' p. destruct (decide (k = k')) as [<-|Hne].
    + rewrite lookup_insert_eq. intros [= <-]. by rewrite lookup_insert_eq.
    + rewrite lookup_insert_ne by done. intros Hp.
      apply Hcl, H1 in Hp. rewrite lookup_insert_ne; [done|].
      intros <-. apply H3 in Hp. lia.
  - intros p k'. destruct (decide (length (builderCalls w) = p)) as [<-|Hne].
    + rewrite lookup_insert_eq. intros [= <-]. by rewrite lookup_insert_eq.
    + rewrite lookup_insert_ne by done. intros Hp. pose proof (H2 _ _ Hp) as Hc.
      rewrite lookup_insert_ne.
      * by apply cleanup_pending.
      * intros <-. rewrite cleanup_lookup, Hc in Hk. done.
  - intros p k'. destruct (decide (length (builderCalls w) = p)) as [<-|Hne].
    + lia.
    + rewrite lookup_insert_ne by done. intros Hp. apply H3 in Hp. lia.
  - intros p o Hp. apply H4 in Hp. lia.
  - intros p o Hp. rewrite lookup_insert_ne; [by eapply H5|].
    intros <-. apply H4 in Hp. lia.
  - intros k' e. destruct (decide (k = k')) as [<-|Hne].
    + rewrite lookup_insert_eq. by intros [= <-].
    + rewrite lookup_insert_ne by done. intros He. eapply H7, Hcl, He.
Qed.

Lemma inv_settle p o w : inv w → inv (settleBuilder p o w).
Proof.
  intros Hinv. pose proof Hinv as [H1 H2 H3 H4 H5 H6 H7].
  unfold settleBuilder. destruct (running w !! p) as [k|] eqn:Hp; [|done].
  pose proof (H2 _ _ Hp) as Hk.
  assert (Hother : ∀ k' q, k' ≠ k →
            nzbdavStreamCache w !! k' = Some (EntryPending q) →
            delete p (running w) !! q = Some k').
  { intros k' q Hne Hq. apply H1 in Hq. rewrite lookup_delete_ne; [done|].
    intros <-. congruence. }
  assert (Hrun : ∀ q k', delete p (running w) !! q = Some k' →
            q ≠ p ∧ k' ≠ k ∧ running w !! q = Some k' ∧
            nzbdavStreamCache w !! k' = Some (EntryPending q)).
  { intros q k' Hq. destruct (decide (p = q)) as [<-|Hne].
    - by rewrite lookup_delete_eq in Hq.
    - rewrite lookup_delete_ne in Hq by done. pose proof (H2 _ _ Hq) as Hc.
      repeat split; try done. intros ->. congruence. }
  assert (Hexp : ∃ z, ttl_expiry (clock w) = Some z ∧ 0 < z
                      ∧ z ≤ clock w + NZBDAV_CACHE_TTL_MS).
  { eexists. split; [apply ttl_expiry_eq|]. pose proof ttl_positive. lia. }
  split; simpl; try done.
  - intros k' q Hq. destruct (decide (k' = k)) as [->|Hne].
    + destruct o as [d|e]; [|destruct (isNzbdavFailure e)].
      all: by rewrite ?lookup_insert_eq, ?lookup_delete_eq in Hq.
    + apply Hother; [done|].
      destruct o as [d|e]; [|destruct (isNzbdavFailure e)].
      all: by rewrite ?lookup_insert_ne, ?lookup_delete_ne in Hq.
  - intros q k' Hq. apply Hrun in Hq as (? & ? & ? & ?).
    destruct o as [d|e]; [|destruct (isNzbdavFailure e)].
    all: by rewrite ?lookup_insert_ne, ?lookup_delete_ne.
  - intros q k' Hq. apply Hrun in Hq as (_ & _ & Hq & _). eauto.
  - intros q o'. destruct (decide (p = q)) as [<-|Hne].
    + intros _. eauto.
    + rewrite lookup_insert_ne by done. eauto.
  - intros q o'. destruct (decide (p = q)) as [<-|Hne].
    + intros _. apply lookup_delete_eq.
    + rewrite lookup_insert_ne, lookup_delete_ne by done. eauto.
  - intros k' e'. destruct (decide (k' = k)) as [->|Hne].
    + destruct o as [d|e]; [|destruct (isNzbdavFailure e)].
      all: rewrite ?lookup_insert_eq, ?lookup_delete_eq; intros [= <-]; exact Hexp.
    + destruct o as [d|e]; [|destruct (isNzbdavFailure e)].
      all: rewrite ?lookup_insert_ne, ?lookup_delete_ne by done; eauto.
Qed.

Lemma inv_step ev w : inv w → inv (step ev w).1.
Proof.
  destruct ev as [k|p o|ms]; simpl; intros Hinv.
  - pose proof (inv_getOrCreate k w Hinv).
    by destruct (getOrCreateNzbdavStream k w).
  - by apply inv_settle.
  - by apply inv_advance.
Qed.

Lemma reachable_inv w : reachable w → inv w.
Proof.
  induction 1 as [t0 Ht|w ev _ IH]; [by apply inv_initial | by apply inv_step].
Qed.

Lemma run_cons ev evs w :
  run (ev :: evs) w =
  (let w1 := (step ev w).1 in
   ((run evs w1).1,
    match (step ev w).2 with
    | Some x => x :: (run evs w1).2
    | None => (run evs w1).2
    end)).
Proof.
  simpl. destruct (step ev w) as [w1 r]. simpl.
  by destruct (run evs w1) as [w2 rs].
Qed.

Lemma reachable_run evs w : reachable w → reachable (run evs w).1.
Proof.
  revert w. induction evs as [|ev evs IH]; intros w Hw; [done|].
  rewrite run_cons. simpl. apply IH. by apply reach_step.
Qed.

Lemma clock_step ev w : clock w ≤ clock (step ev w).1.
Proof.
  destruct ev as [k|p o|ms]; simpl.
  - unfold getOrCreateNzbdavStream.
    by destruct (cleanupNzbdavCache _ _ !! k) as [[]|].
  - unfold settleBuilder. by destruct (running w !! p).
  - lia.
Qed.

Lemma clock_run evs w : clock w ≤ clock (run evs w).1.
Proof.
  revert w. induction evs as [|ev evs IH]; intros w; [done|].
  rewrite run_cons. simpl. pose proof (clock_step ev w).
  specialize (IH (step ev w).1). lia.
Qed.

(** *** A pending entry and the events that are not its own completion *)

Lemma pending_step ev w k p :
  inv w →
  nzbdavStreamCache w !! k = Some (EntryPending p) →
  is_settle_of p ev = false →
  nzbdavStreamCache (step ev w).1 !! k = Some (EntryPending p)
  ∧ builds_of k (step ev w).1 = builds_of k w
  ∧ (∀ r, (step ev w).2 = Some (k, r) → r = Awaits p).
Proof.
  intros Hinv Hk Hev. destruct ev as [k'|q o|ms]; simpl.
  - unfold getOrCreateNzbdavStream.
    pose proof (cleanup_pending (clock w) _ _ _ Hk) as Hc.
    destruct (decide (k' = k)) as [->|Hne].
    + rewrite Hc. simpl. repeat split; try done. by intros r [= <-].
    + destruct (cleanupNzbdavCache _ _ !! k') as [[]|] eqn:Hk'; simpl.
      1-3: repeat split; try done; intros r [= ? ?]; done.
      rewrite lookup_insert_ne by done. repeat split; try done.
      * unfold builds_of. simpl. rewrite filter_cons.
        by destruct (decide (k' = k)).
      * intros r [= ? ?]. done.
  - simpl in Hev. apply bool_decide_eq_false in Hev.
    unfold settleBuilder. destruct (running w !! q) as [k'|] eqn:Hq; [|done].
    simpl. assert (k' ≠ k).
    { intros ->. apply (inv_running _ Hinv) in Hq. congruence. }
    repeat split; try done.
    destruct o as [d|e]; [|destruct (isNzbdavFailure e)].
    all: by rewrite ?lookup_insert_ne, ?lookup_delete_ne.
  - done.
Qed.

Lemma pending_run evs w k p :
  inv w →
  nzbdavStreamCache w !! k = Some (EntryPending p) →
  forallb (λ ev, negb (is_settle_of p ev)) evs = true →
  nzbdavStreamCache (run evs w).1 !! k = Some (EntryPending p)
  ∧ builds_of k (run evs w).1 = builds_of k w
  ∧ (∀ r, (k, r) ∈ (run evs w).2 → r = Awaits p).
Proof.
  revert w. induction evs as [|ev evs IH]; intros w Hinv Hk Hall.
  - simpl. repeat split; try done. intros r Hr. by apply elem_of_nil in Hr.
  - simpl in Hall. apply andb_true_iff in Hall as [Hev Hall].
    apply negb_true_iff in Hev.
    destruct (pending_step ev w k p Hinv Hk Hev) as (Hk1 & Hb1 & Hr1).
    destruct (IH (step ev w).1 (inv_step _ _ Hinv) Hk1 Hall) as (Hk2 & Hb2 & Hr2).
    rewrite run_cons. simpl. repeat split; try done; [congruence|].
    intros r Hr. destruct (step ev w).2 as [[k0 r0]|] eqn:Hs; [|by apply Hr2].
    apply elem_of_cons in Hr as [[= <- <-]|Hr]; [by apply Hr1 | by apply Hr2].
Qed.

(** *** A committed entry before its expiry *)

Lemma live_step ev w k e x :
  inv w →
  nzbdavStreamCache w !! k = Some e →
  entry_expiresAt e = Some x →
  clock (step ev w).1 < x →
  nzbdavStreamCache (step ev w).1 !! k = Some e
  ∧ builds_of k (step ev w).1 = builds_of k w
  ∧ (∀ r, (step ev w).2 = Some (k, r) → r = hit e).
Proof.
  intros Hinv Hk Hx Hlt.
  assert (Hpend : ∀ q, e ≠ EntryPending q) by (intros q ->; done).
  destruct ev as [k'|q o|ms]; simpl in *.
  - unfold getOrCreateNzbdavStream in *.
    assert (Hc : cleanupNzbdavCache (clock w) (nzbdavStreamCache w) !! k = Some e).
    { rewrite cleanup_lookup, Hk. unfold expired. rewrite Hx.
      replace (x <=? clock w) with false; [by rewrite andb_false_r|].
      symmetry. apply Z.leb_gt.
      by destruct (cleanupNzbdavCache _ _ !! k') as [[]|]. }
    destruct (decide (k' = k)) as [->|Hne].
    + rewrite Hc in *. destruct e; simpl; repeat split; try done.
      all: try by intros r [= <-]. all: by destruct (Hpend promise).
    + destruct (cleanupNzbdavCache _ _ !! k') as [[]|] eqn:Hk'; simpl.
      1-3: repeat split; try done; intros r [= ? ?]; done.
      rewrite lookup_insert_ne by done. repeat split; try done.
      * unfold builds_of. simpl. rewrite filter_cons.
        by destruct (decide (k' = k)).
      * intros r [= ? ?]. done.
  - unfold settleBuilder in *.
    destruct (running w !! q) as [k'|] eqn:Hq; [|done].
    simpl. assert (k' ≠ k).
    { intros ->. apply (inv_running _ Hinv) in Hq. rewrite Hk in Hq.
      injection Hq as ->. by destruct (Hpend q). }
    repeat split; try done.
    destruct o as [d|err]; [|destruct (isNzbdavFailure err)].
    all: by rewrite ?lookup_insert_ne, ?lookup_delete_ne.
  - done.
Qed.

Lemma live_run evs w k e x :
  inv w →
  nzbdavStreamCache w !! k = Some e →
  entry_expiresAt e = Some x →
  clock (run evs w).1 < x →
  nzbdavStreamCache (run evs w).1 !! k = Some e
  ∧ builds_of k (run evs w).1 = builds_of k w
  ∧ (∀ r, (k, r) ∈ (run evs w).2 → r = hit e).
Proof.
  revert w. induction evs as [|ev evs IH]; intros w Hinv Hk Hx Hlt.
  - simpl. repeat split; try done. intros r Hr. by apply elem_of_nil in Hr.
  - rewrite run_cons in *. simpl in *.
    pose proof (clock_run evs (step ev w).1) as Hmono.
    destruct (live_step ev w k e x Hinv Hk Hx) as (Hk1 & Hb1 & Hr1); [lia|].
    destruct (IH (step ev w).1 (inv_step _ _ Hinv) Hk1 Hx Hlt) as (Hk2 & Hb2 & Hr2).
    repeat split; try done; [congruence|].
    intros r Hr. destruct (step ev w).2 as [[k0 r0]|] eqn:Hs; [|by apply Hr2].
    apply elem_of_cons in Hr as [[= <- <-]|Hr]; [by apply Hr1 | by apply Hr2].
Qed.

(** *** An absent key and the events that are not requests for it *)

Lemma absent_step ev w k :
  inv w →
  nzbdavStreamCache w !! k = None →
  is_request_of k ev = false →
  nzbdavStreamCache (step ev w).1 !! k = None
  ∧ builds_of k (step ev w).1 = builds_of k w.
Proof.
  intros Hinv Hk Hev. destruct ev as [k'|q o|ms]; simpl in *.
  - apply bool_decide_eq_false in Hev. unfold getOrCreateNzbdavStream.
    assert (Hc : cleanupNzbdavCache (clock w) (nzbdavStreamCache w) !! k = None)
      by (by rewrite cleanup_lookup, Hk).
    destruct (cleanupNzbdavCache _ _ !! k') as [[]|] eqn:Hk'; simpl; try done.
    rewrite lookup_insert_ne by done. split; [done|].
    unfold builds_of. simpl. rewrite filter_cons. by destruct (decide (k' = k)).
  - unfold settleBuilder. destruct (running w !! q) as [k'|] eqn:Hq; [|done].
    simpl. assert (k' ≠ k).
    { intros ->. apply (inv_running _ Hinv) in Hq. congruence. }
    split; [|done].
    destruct o as [d|err]; [|destruct (isNzbdavFailure err)].
    all: by rewrite ?lookup_insert_ne, ?lookup_delete_ne.
  - done.
Qed.

Lemma absent_run evs w k :
  inv w →
  nzbdavStreamCache w !! k = None →
  forallb (λ ev, negb (is_request_of k ev)) evs = true →
  nzbdavStreamCache (run evs w).1 !! k = None
  ∧ builds_of k (run evs w).1 = builds_of k w.
Proof.
  revert w. induction evs as [|ev evs IH]; intros w Hinv Hk Hall; [done|].
  simpl in Hall. apply andb_true_iff in Hall as [Hev Hall].
  apply negb_true_iff in Hev.
  destruct (absent_step ev w k Hinv Hk Hev) as (Hk1 & Hb1).
  destruct (IH (step ev w).1 (inv_step _ _ Hinv) Hk1 Hall) as (Hk2 & Hb2).
  rewrite run_cons. simpl. split; [done | congruence].
Qed.

(** *** Settled promises stay settled *)

Lemma settled_step ev w p o :
  inv w → settled w !! p = Some o → settled (step ev w).1 !! p = Some o.
Proof.
  intros Hinv Hp. destruct ev as [k|q o'|ms]; simpl.
  - unfold getOrCreateNzbdavStream.
    by destruct (cleanupNzbdavCache _ _ !! k) as [[]|].
  - unfold settleBuilder. destruct (running w !! q) as [k'|] eqn:Hq; [|done].
    simpl. rewrite lookup_insert_ne; [done|].
    intros ->. apply (inv_settled_running _ Hinv) in Hp. congruence.
  - done.
Qed.

Lemma settled_run evs w p o :
  inv w → settled w !! p = Some o → settled (run evs w).1 !! p = Some o.
Proof.
  revert w. induction evs as [|ev evs IH]; intros w Hinv Hp; [done|].
  rewrite run_cons. simpl. apply IH; [by apply inv_step | by apply settled_step].
Qed.

(** The two shapes of a miss and of the completion that follows it. *)
Lemma getOrCreate_miss k w :
  cleanupNzbdavCache (clock w) (nzbdavStreamCache w) !! k = None →
  getOrCreateNzbdavStream k w =
  (Awaits (length (builderCalls w)),
   World (<[k := EntryPending (length (builderCalls w))]>
            (cleanupNzbdavCache (clock w) (nzbdavStreamCache w)))
         (<[length (builderCalls w) := k]> (running w))
         (settled w) (clock w) (k :: builderCalls w)).
Proof. intros H. unfold getOrCreateNzbdavStream. by rewrite H. Qed.

Lemma settle_running p o w k :
  running w !! p = Some k →
  settleBuilder p o w =
  World (match o with
         | Resolved data =>
             <[k := EntryReady data (ttl_expiry (clock w))]> (nzbdavStreamCache w)
         | Rejected err =>
             if isNzbdavFailure err
             then <[k := EntryFailed err (ttl_expiry (clock w))]>
                    (nzbdavStreamCache w)
             else delete k (nzbdavStreamCache w)
         end)
        (delete p (running w)) (<[p := o]> (settled w))
        (clock w) (builderCalls w).
Proof. intros H. unfold settleBuilder. by rewrite H. Qed.

(** One build in flight per key, in every reachable state. *)
Lemma one_build_per_key w p q k :
  reachable w → running w !! p = Some k → running w !! q = Some k → p = q.
Proof.
  intros Hw Hp Hq. apply reachable_inv in Hw.
  apply (inv_running _ Hw) in Hp, Hq. congruence.
Qed.

Lemma settle_lookup p o w k :
  running w !! p = Some k →
  nzbdavStreamCache (settleBuilder p o w) !! k = committed (clock w) o
  ∧ settled (settleBuilder p o w) !! p = Some o
  ∧ clock (settleBuilder p o w) = clock w
  ∧ builderCalls (settleBuilder p o w) = builderCalls w.
Proof.
  intros Hp. rewrite (settle_running _ _ _ _ Hp). simpl.
  repeat split; try done; [|by rewrite lookup_insert_eq].
  destruct o as [d|e]; simpl; [|destruct (isNzbdavFailure e)].
  all: by rewrite ?lookup_insert_eq, ?lookup_delete_eq.
Qed.

(** C1 — single-flight memoization.  From a reachable state in which the
    key misses, the first request calls the builder once and installs one
    pending entry; whatever else happens before that build completes
    (further requests for this or other keys, completions of other builds,
    time passing), every request for the key is handed the very same
    promise, the builder is not called again for the key, and no second
    build of the key is in flight.  When the build settles with an outcome,
    every holder of the promise observes exactly that outcome; and as long
    as the committed entry is live, later requests observe it too without
    a further build.  The map holds one entry per key. *)
Theorem single_flight (w : world) (key : string) (evs : list event) :
  reachable w →
  cleanupNzbdavCache (clock w) (nzbdavStreamCache w) !! key = None →
  forallb (λ ev, negb (is_settle_of (length (builderCalls w)) ev)) evs = true →
  let p := length (builderCalls w) in
  let w1 := (getOrCreateNzbdavStream key w).2 in
  let w2 := (run evs w1).1 in
  (getOrCreateNzbdavStream key w).1 = Awaits p
  ∧ builds_of key w2 = S (builds_of key w)
  ∧ (∀ r, (key, r) ∈ (run evs w1).2 → r = Awaits p)
  ∧ nzbdavStreamCache w2 !! key = Some (EntryPending p)
  ∧ (∀ q, running w2 !! q = Some key → q = p)
  ∧ NoDup (map_to_list (nzbdavStreamCache w2)).*1
  ∧ (∀ o evs',
       observed (run evs' (settleBuilder p o w2)).1 (Awaits p) = Some o)
  ∧ (∀ o evs',
       cached_outcome o = true →
       clock (run evs' (settleBuilder p o w2)).1
         < clock w2 + NZBDAV_CACHE_TTL_MS →
       builds_of key (run evs' (settleBuilder p o w2)).1 = builds_of key w2
       ∧ ∀ r, (key, r) ∈ (run evs' (settleBuilder p o w2)).2 →
              observed (run evs' (settleBuilder p o w2)).1 r = Some o).
Proof.
  intros Hw Hmiss Hall p w1 w2.
  pose proof (reachable_inv _ Hw) as Hinv.
  pose proof (inv_getOrCreate key w Hinv) as Hinv1. fold w1 in Hinv1.
  assert (Hw1 : nzbdavStreamCache w1 !! key = Some (EntryPending p)
                ∧ builds_of key w1 = S (builds_of key w)).
  { unfold w1. rewrite (getOrCreate_miss _ _ Hmiss). simpl.
    rewrite lookup_insert_eq. split; [done|].
    unfold builds_of. simpl. rewrite filter_cons.
    by destruct (decide (key = key)). }
  destruct Hw1 as [Hk1 Hb1].
  destruct (pending_run evs w1 key p Hinv1 Hk1 Hall) as (Hk2 & Hb2 & Hr2).
  fold w2 in Hk2, Hb2.
  assert (Hinv2 : inv w2) by (apply reachable_inv, reachable_run;
    unfold w1; apply (reach_step w (Request key)) in Hw; simpl in Hw;
    by destruct (getOrCreateNzbdavStream key w)).
  pose proof (inv_pending _ Hinv2 _ _ Hk2) as Hrun2.
  split; [by rewrite (getOrCreate_miss _ _ Hmiss)|].
  split; [congruence|]. split; [done|]. split; [done|].
  split. { intros q Hq. apply (inv_running _ Hinv2) in Hq. congruence. }
  split; [apply NoDup_fst_map_to_list|].
  split.
  - intros o evs'. simpl.
    destruct (settle_lookup p o w2 key Hrun2) as (_ & Hs & _).
    apply settled_run; [by apply inv_settle | done].
  - intros o evs' Hc Hlt.
    destruct (settle_lookup p o w2 key Hrun2) as (Hk3 & Hs3 & Hcl3 & Hb3).
    pose proof (inv_settle p o w2 Hinv2) as Hinv3.
    set (w3 := settleBuilder p o w2) in *.
    assert (He : ∃ e, nzbdavStreamCache w3 !! key = Some e
                 ∧ entry_expiresAt e = Some (clock w2 + NZBDAV_CACHE_TTL_MS)
                 ∧ observed (run evs' w3).1 (hit e) = Some o).
    { rewrite Hk3. destruct o as [d|e]; simpl in *.
      - eexists. split; [done|]. done.
      - rewrite Hc. eexists. split; [done|]. done. }
    destruct He as (e & Hke & Hxe & Hoe).
    destruct (live_run evs' w3 key e _ Hinv3 Hke Hxe Hlt) as (_ & Hb4 & Hr4).
    split; [rewrite Hb4; unfold builds_of; by rewrite Hb3|].
    intros r Hr. apply Hr4 in Hr. by subst r.
Qed.

Lemma single_flight_witness :
  let w := initial 0 in
  let key := "u|Movies" in
  let evs := [Request "u|Movies"; Tick 1500; Request "v|Tv|1x2";
              Request "u|Movies"] in
  reachable w
  ∧ cleanupNzbdavCache (clock w) (nzbdavStreamCache w) !! key = None
  ∧ forallb (λ ev, negb (is_settle_of (length (builderCalls w)) ev)) evs = true
  ∧ (getOrCreateNzbdavStream key w).1 = Awaits 0%nat
  ∧ builds_of key (run evs (getOrCreateNzbdavStream key w).2).1 = 1%nat
  ∧ (∀ r, (key, r) ∈ (run evs (getOrCreateNzbdavStream key w).2).2 →
          r = Awaits 0%nat).
Proof.
  intros w key evs.
  assert (H1 : reachable w) by (apply reach_init; lia).
  assert (H2 : cleanupNzbdavCache (clock w) (nzbdavStreamCache w) !! key = None)
    by reflexivity.
  assert (H3 : forallb (λ ev, negb (is_settle_of (length (builderCalls w)) ev))
                 evs = true) by reflexivity.
  destruct (single_flight w key evs H1 H2 H3) as (Ha & Hb & Hc & _).
  repeat split; assumption.
Defined.

(** C7 — lazy TTL eviction.  A request first drops every expired entry of
    the map and nothing else does (time passing alone leaves the map as it
    is); a ready entry and a failed entry are committed with the same
    expiry, one TTL after the clock at the commit; a ready entry met at or
    after its expiry makes the request call the builder afresh, and met
    before its expiry it is returned with no builder call; and a committed
    entry stays as it is, whatever happens, until the clock reaches its
    expiry. *)
Theorem lazy_ttl_eviction (w : world) :
  reachable w →
  (∀ k k' e,
     nzbdavStreamCache (getOrCreateNzbdavStream k w).2 !! k' = Some e →
     expired (clock w) e = false)
  ∧ (∀ k k', k' ≠ k →
     nzbdavStreamCache (getOrCreateNzbdavStream k w).2 !! k' =
     match nzbdavStreamCache w !! k' with
     | Some e => if expired (clock w) e then None else Some e
     | None => None
     end)
  ∧ (∀ ms, nzbdavStreamCache (advance ms w) = nzbdavStreamCache w)
  ∧ (∀ p k data, running w !! p = Some k →
     nzbdavStreamCache (settleBuilder p (Resolved data) w) !! k =
     Some (EntryReady data (Some (clock w + NZBDAV_CACHE_TTL_MS))))
  ∧ (∀ p k err, running w !! p = Some k → isNzbdavFailure err = true →
     nzbdavStreamCache (settleBuilder p (Rejected err) w) !! k =
     Some (EntryFailed err (Some (clock w + NZBDAV_CACHE_TTL_MS))))
  ∧ (∀ k data x,
     nzbdavStreamCache w !! k = Some (EntryReady data (Some x)) →
     x ≤ clock w →
     (getOrCreateNzbdavStream k w).1 = Awaits (length (builderCalls w))
     ∧ builderCalls (getOrCreateNzbdavStream k w).2 = k :: builderCalls w)
  ∧ (∀ k data x,
     nzbdavStreamCache w !! k = Some (EntryReady data (Some x)) →
     clock w < x →
     (getOrCreateNzbdavStream k w).1 = Returned data
     ∧ builderCalls (getOrCreateNzbdavStream k w).2 = builderCalls w)
  ∧ (∀ k e x evs,
     nzbdavStreamCache w !! k = Some e →
     entry_expiresAt e = Some x →
     clock (run evs w).1 < x →
     nzbdavStreamCache (run evs w).1 !! k = Some e).
Proof.
  intros Hw. pose proof (reachable_inv _ Hw) as Hinv.
  assert (Hcache : ∀ k k', k' ≠ k →
     nzbdavStreamCache (getOrCreateNzbdavStream k w).2 !! k' =
     cleanupNzbdavCache (clock w) (nzbdavStreamCache w) !! k').
  { intros k k' Hne. unfold getOrCreateNzbdavStream.
    destruct (cleanupNzbdavCache _ _ !! k) as [[]|]; simpl; try done.
    by rewrite lookup_insert_ne. }
  repeat split.
  - intros k k' e. destruct (decide (k' = k)) as [->|Hne].
    + unfold getOrCreateNzbdavStream.
      destruct (cleanupNzbdavCache _ _ !! k) as [[]|] eqn:Hk; simpl.
      4: { rewrite lookup_insert_eq. by intros [= <-]. }
      all: rewrite Hk; intros [= <-]; by apply cleanup_Some in Hk as [_ ?].
    + rewrite Hcache by done. intros He. by apply cleanup_Some in He as [_ ?].
  - intros k k' Hne. rewrite Hcache by done. apply cleanup_lookup.
  - intros p k data Hp. by destruct (settle_lookup p (Resolved data) w k Hp) as [-> _].
  - intros p k err Hp Hf.
    destruct (settle_lookup p (Rejected err) w k Hp) as [-> _]. simpl.
    by rewrite Hf.
  - unfold getOrCreateNzbdavStream. rewrite cleanup_lookup, H. unfold expired; simpl.
    destruct (inv_entries _ Hinv _ _ H) as (z & [= <-] & Hz & _).
    replace (truthy_num x) with true
      by (symmetry; apply negb_true_iff, Z.eqb_neq; lia).
    replace (x <=? clock w) with true by (symmetry; by apply Z.leb_le). done.
  - unfold getOrCreateNzbdavStream. rewrite cleanup_lookup, H. unfold expired; simpl.
    destruct (inv_entries _ Hinv _ _ H) as (z & [= <-] & Hz & _).
    replace (truthy_num x) with true
      by (symmetry; apply negb_true_iff, Z.eqb_neq; lia).
    replace (x <=? clock w) with true by (symmetry; by apply Z.leb_le). done.
  - unfold getOrCreateNzbdavStream. rewrite cleanup_lookup, H. unfold expired; simpl.
    replace (x <=? clock w) with false by (symmetry; by apply Z.leb_gt).
    by rewrite andb_false_r.
  - unfold getOrCreateNzbdavStream. rewrite cleanup_lookup, H. unfold expired; simpl.
    replace (x <=? clock w) with false by (symmetry; by apply Z.leb_gt).
    by rewrite andb_false_r.
  - intros. by destruct (live_run evs w k e x Hinv) as [? _].
Qed.

Lemma lazy_ttl_eviction_witness :
  let w := settleBuilder 0%nat
             (Resolved (StreamData "nzo1" "Movies" "My.Movie.2024"
                          "content/Movies/My.Movie.2024/My.Movie.2024.mkv"
                          4200000000))
             (getOrCreateNzbdavStream "u|Movies" (initial 1000)).2 in
  reachable w
  ∧ (getOrCreateNzbdavStream "u|Movies" (advance 3599999 w)).1
    = Returned (StreamData "nzo1" "Movies" "My.Movie.2024"
                  "content/Movies/My.Movie.2024/My.Movie.2024.mkv" 4200000000)
  ∧ (getOrCreateNzbdavStream "u|Movies" (advance 3600000 w)).1 = Awaits 1%nat
  ∧ nzbdavStreamCache (advance 3600000 w) = nzbdavStreamCache w.
Proof.
  intros w.
  assert (H1 : reachable w).
  { apply (reachable_run [Request "u|Movies"; Settle 0%nat _] (initial 1000)).
    apply reach_init. lia. }
  split; [exact H1|]. split; [reflexivity|]. split; [reflexivity|].
  destruct (lazy_ttl_eviction w H1) as (_ & _ & Ht & _). apply Ht.
Defined.

(** C10 — a pending entry has no [expiresAt], so lazy eviction keeps it at
    every clock value and drops ready and failed entries only; no event
    other than the completion of its own build changes it (a request for
    any key, the completion of another build, time passing); and its own
    completion replaces it by the ready entry, by the failed entry on an
    explicit job failure, or removes it on any other error. *)
Theorem pending_entry_protected (w : world) (k : string) (p : promise_id) :
  reachable w →
  nzbdavStreamCache w !! k = Some (EntryPending p) →
  entry_expiresAt (EntryPending p) = None
  ∧ (∀ now, cleanupNzbdavCache now (nzbdavStreamCache w) !! k
            = Some (EntryPending p))
  ∧ (∀ now k' e, nzbdavStreamCache w !! k' = Some e →
       cleanupNzbdavCache now (nzbdavStreamCache w) !! k' = None →
       ∃ x, entry_expiresAt e = Some x ∧ x ≤ now)
  ∧ running w !! p = Some k
  ∧ (∀ ev, is_settle_of p ev = false →
       nzbdavStreamCache (step ev w).1 !! k = Some (EntryPending p))
  ∧ (∀ evs, forallb (λ ev, negb (is_settle_of p ev)) evs = true →
       nzbdavStreamCache (run evs w).1 !! k = Some (EntryPending p))
  ∧ (∀ o, nzbdavStreamCache (settleBuilder p o w) !! k =
       match o with
       | Resolved data =>
           Some (EntryReady data (Some (clock w + NZBDAV_CACHE_TTL_MS)))
       | Rejected err =>
           if isNzbdavFailure err
           then Some (EntryFailed err (Some (clock w + NZBDAV_CACHE_TTL_MS)))
           else None
       end).
Proof.
  intros Hw Hk. pose proof (reachable_inv _ Hw) as Hinv.
  pose proof (inv_pending _ Hinv _ _ Hk) as Hp.
  split; [done|]. split; [intros; by apply cleanup_pending|].
  split.
  { intros now k' e He. rewrite cleanup_lookup, He. unfold expired.
    destruct (entry_expiresAt e) as [x|]; [|done].
    destruct (truthy_num x); simpl; [|done].
    destruct (x <=? now) eqn:Hx; [|done]. intros _. exists x.
    split; [done|]. by apply Z.leb_le. }
  split; [done|].
  split. { intros ev Hev. by destruct (pending_step ev w k p Hinv Hk Hev) as [? _]. }
  split. { intros evs Hev. by destruct (pending_run evs w k p Hinv Hk Hev) as [? _]. }
  intros o. destruct (settle_lookup p o w k Hp) as [-> _].
  by destruct o.
Qed.

Lemma pending_entry_protected_witness :
  let w := (run [Request "u|Movies"; Tick 90000000; Request "v|Tv|1x2"]
              (initial 0)).1 in
  reachable w
  ∧ nzbdavStreamCache w !! "u|Movies" = Some (EntryPending 0%nat)
  ∧ nzbdavStreamCache
      (step (Settle 1%nat (Rejected (new_Error "boom"))) w).1 !! "u|Movies"
    = Some (EntryPending 0%nat).
Proof.
  intros w.
  assert (H1 : reachable w) by (apply reachable_run, reach_init; lia).
  assert (H2 : nzbdavStreamCache w !! "u|Movies" = Some (EntryPending 0%nat))
    by reflexivity.
  split; [exact H1|]. split; [exact H2|].
  destruct (pending_entry_protected w "u|Movies" 0%nat H1 H2)
    as (_ & _ & _ & _ & Hs & _).
  apply Hs. reflexivity.
Defined.

End CacheFacts.

(** ** The completion poller *)

Module PollerFacts.
Import Poller.

Section Loop.

Variable polls : nat → poll.
Variables nzoId category : string.
Variable start : Z.

Local Abbreviation deadline := (start + NZBDAV_POLL_TIMEOUT_MS).
Local Abbreviation verdict_at i := (poll_once nzoId category (reply (polls i))).
Local Abbreviation time_at i := (query_time polls start i).

Lemma query_time_step i :
  time_at (S i) = time_at i + Z.of_N (elapsed (polls i)) + NZBDAV_POLL_INTERVAL_MS.
Proof. reflexivity. Qed.

Lemma query_time_lower i : start + NZBDAV_POLL_INTERVAL_MS * Z.of_nat i ≤ time_at i.
Proof.
  induction i as [|i IH]; [simpl; lia|].
  rewrite query_time_step. unfold NZBDAV_POLL_INTERVAL_MS in *. lia.
Qed.

(** The loop entered at its [i]-th pass ends when enough fuel is left for
    the time that remains. *)
Lemma poll_loop_ends fuel : ∀ i now log,
  deadline - now ≤ NZBDAV_POLL_INTERVAL_MS * Z.of_nat fuel →
  is_Some (poll_loop polls nzoId category deadline (S fuel) i now log).
Proof.
  induction fuel as [|fuel IH]; intros i now log Hfuel; simpl.
  - replace (now <? deadline) with false by (symmetry; apply Z.ltb_ge; lia).
    by eexists.
  - destruct (now <? deadline); [|by eexists].
    destruct (poll_once _ _ _); try by eexists.
    apply IH. unfold NZBDAV_POLL_INTERVAL_MS in *. lia.
Qed.

Lemma poll_loop_result fuel : ∀ i p,
  (∀ j, (j < i)%nat → time_at j < deadline ∧ verdict_at j = Continue) →
  poll_loop polls nzoId category deadline fuel i (time_at i)
    (map (λ j, time_at j) (seq 0 i)) = Some p →
  ∃ n, (i ≤ n)%nat ∧ ends_at polls nzoId category start p n.
Proof.
  induction fuel as [|fuel IH]; intros i p Hbefore; simpl; [done|].
  destruct (time_at i <? deadline) eqn:Hlt.
  - destruct (verdict_at i) as [s|e|] eqn:Hv.
    + intros [= <-]. exists i. split; [done|]. split; [done|].
      rewrite Hlt, Hv. split; [|done].
      cbn [queried]. by rewrite seq_S, map_app.
    + intros [= <-]. exists i. split; [done|]. split; [done|].
      rewrite Hlt, Hv. split; [|done].
      cbn [queried]. by rewrite seq_S, map_app.
    + intros Hp.
      destruct (IH (S i) p) as (n & Hn & Hends).
      * intros j Hj. destruct (decide (j = i)) as [->|Hne].
        -- split; [by apply Z.ltb_lt | done].
        -- apply Hbefore. lia.
      * rewrite seq_S, map_app. exact Hp.
      * exists n. split; [lia | done].
  - intros [= <-]. exists i. split; [done|]. split; [done|].
    rewrite Hlt. done.
Qed.

End Loop.

(** A pass that ends the polling with a job failure met a slot of the job
    whose status reads [failed]. *)
Lemma poll_once_failure nzoId category r e :
  poll_once nzoId category r = Raise e →
  isNzbdavFailure e = true →
  ∃ data s, r = Responded data
    ∧ find_slot nzoId (hd_slots data) = Some s
    ∧ toLowerCase (or_else (js_or (status s) (Status s)) "") = "failed"
    ∧ e = failureError s nzoId category.
Proof.
  unfold poll_once. destruct r as [data|ce]; [|by intros [= <-]].
  destruct (hd_status data); simpl; [|by intros [= <-]].
  destruct (find_slot nzoId (hd_slots data)) as [s|] eqn:Hs; [|done].
  destruct (String.eqb _ "completed"); [done|].
  destruct (String.eqb _ "failed") eqn:Hf; [|done].
  intros [= <-] _. apply String.eqb_eq in Hf. by exists data, s.
Qed.

(** The poller always ends. *)
Lemma waitFor_ends cfg polls nzoId category now :
  is_Some (waitForNzbdavHistorySlot cfg polls nzoId category now).
Proof.
  unfold waitForNzbdavHistorySlot.
  destruct (ensureNzbdavConfigured cfg); [by eexists|].
  apply (poll_loop_ends polls nzoId category now 40).
  unfold NZBDAV_POLL_INTERVAL_MS, NZBDAV_POLL_TIMEOUT_MS. lia.
Qed.

Lemma ensure_not_failure cfg e :
  ensureNzbdavConfigured cfg = Some e → isNzbdavFailure e = false.
Proof.
  unfold ensureNzbdavConfigured.
  repeat (destruct (String.eqb _ ""); [by intros [= <-]|]). done.
Qed.

Lemma addNzb_not_failure cfg reply nzbUrl category jobLabel e :
  addNzbToNzbdav cfg reply nzbUrl category jobLabel = Throw e →
  isNzbdavFailure e = false.
Proof.
  unfold addNzbToNzbdav.
  destruct (ensureNzbdavConfigured cfg) as [e0|] eqn:Hc.
  { intros [= <-]. by eapply ensure_not_failure. }
  repeat (destruct (String.eqb _ ""); [by intros [= <-]|]).
  destruct reply as [data|ce]; [|by intros [= <-]].
  destruct (negb (ad_status data)); [by intros [= <-]|].
  destruct (negb (truthy _)); [by intros [= <-]|]. done.
Qed.

(** A poller that ends with a marked error met a slot of the job whose
    status reads [failed]. *)
Lemma poll_loop_failure polls nzoId category deadline fuel : ∀ i now log p e,
  poll_loop polls nzoId category deadline fuel i now log = Some p →
  ended p = Throw e → isNzbdavFailure e = true →
  ∃ j data s,
    reply (polls j) = Responded data
    ∧ find_slot nzoId (hd_slots data) = Some s
    ∧ toLowerCase (or_else (js_or (status s) (Status s)) "") = "failed"
    ∧ e = failureError s nzoId category.
Proof.
  induction fuel as [|fuel IH]; intros i now log p e; simpl; [done|].
  destruct (now <? deadline); [|by intros [= <-] [= <-]].
  destruct (poll_once nzoId category (reply (polls i))) as [s|e0|] eqn:Hv.
  - by intros [= <-].
  - intros [= <-] [= <-] Hf.
    destruct (poll_once_failure _ _ _ _ Hv Hf) as (data & s & ? & ? & ? & ?).
    by exists i, data, s.
  - apply IH.
Qed.

Lemma waitFor_failure cfg polls nzoId category now p e :
  waitForNzbdavHistorySlot cfg polls nzoId category now = Some p →
  ended p = Throw e → isNzbdavFailure e = true →
  ∃ j data s,
    reply (polls j) = Responded data
    ∧ find_slot nzoId (hd_slots data) = Some s
    ∧ toLowerCase (or_else (js_or (status s) (Status s)) "") = "failed"
    ∧ e = failureError s nzoId category.
Proof.
  unfold waitForNzbdavHistorySlot.
  destruct (ensureNzbdavConfigured cfg) as [e0|] eqn:Hc.
  - intros [= <-] [= <-] Hf. apply ensure_not_failure in Hc. congruence.
  - apply poll_loop_failure.
Qed.

(** C5 — poller classification.  With the configuration in place the
    poller always ends, after at most 40 history queries; the queries are
    issued one poll interval (2 s) after the previous query has come back;
    and the poller ends at the first pass [n] that does not go to sleep:
    with the slot when the job's slot reads [completed], with the job
    failure error (marked, carrying reason, job id and category) when it
    reads [failed], with the error of the query when the manager's API
    fails, and with the plain timeout error, which is not marked as a job
    failure, when the pass is due at or after the deadline (80 s after the
    start).  Any other status, and a history without a slot of the job, make
    the pass go to sleep. *)
Theorem poller_classification (cfg : config) (polls : nat → poll)
    (nzoId category : string) (now : Z) :
  ensureNzbdavConfigured cfg = None →
  (∃ p n,
     waitForNzbdavHistorySlot cfg polls nzoId category now = Some p
     ∧ (length (queried p) ≤ 40)%nat
     ∧ (∀ j, (j < n)%nat →
          query_time polls now j < now + NZBDAV_POLL_TIMEOUT_MS
          ∧ poll_once nzoId category (reply (polls j)) = Continue)
     ∧ if query_time polls now n <? now + NZBDAV_POLL_TIMEOUT_MS
       then queried p = map (query_time polls now) (seq 0 (S n))
            ∧ match poll_once nzoId category (reply (polls n)) with
              | Return s => ended p = Ok s
              | Raise e => ended p = Throw e
              | Continue => False
              end
       else queried p = map (query_time polls now) (seq 0 n)
            ∧ ended p = Throw timeoutError)
  ∧ (∀ i, query_time polls now (S i) =
          query_time polls now i + Z.of_N (elapsed (polls i))
          + NZBDAV_POLL_INTERVAL_MS)
  ∧ NZBDAV_POLL_INTERVAL_MS = 2000 ∧ NZBDAV_POLL_TIMEOUT_MS = 80000
  ∧ isNzbdavFailure timeoutError = false
  ∧ (∀ data s,
       hd_status data = true →
       find_slot nzoId (hd_slots data) = Some s →
       let st := toLowerCase (or_else (js_or (status s) (Status s)) "") in
       poll_once nzoId category (Responded data) =
         if String.eqb st "completed" then Return s
         else if String.eqb st "failed"
              then Raise (failureError s nzoId category)
              else Continue)
  ∧ (∀ s, isNzbdavFailure (failureError s nzoId category) = true
          ∧ failureMessage (failureError s nzoId category) =
            Some (or_else (js_or (js_or (fail_message s) (failMessage s))
                                 (FailMessage s)) "Unknown NZBDav error")
          ∧ JS.nzoId (failureError s nzoId category) = Some nzoId
          ∧ JS.category (failureError s nzoId category) = Some category)
  ∧ (∀ data,
       hd_status data = true →
       find_slot nzoId (hd_slots data) = None →
       poll_once nzoId category (Responded data) = Continue)
  ∧ (∀ data,
       hd_status data = false →
       poll_once nzoId category (Responded data) = Raise (historyError data)
       ∧ isNzbdavFailure (historyError data) = false)
  ∧ (∀ ce,
       poll_once nzoId category (Failed ce) = Raise (of_client_error ce)
       ∧ isNzbdavFailure (of_client_error ce) = false).
Proof.
  intros Hcfg. split.
  - unfold waitForNzbdavHistorySlot. rewrite Hcfg.
    destruct (poll_loop_ends polls nzoId category now 40 0 now []) as [p Hp].
    { unfold NZBDAV_POLL_INTERVAL_MS, NZBDAV_POLL_TIMEOUT_MS. lia. }
    change poll_fuel with 41%nat.
    destruct (poll_loop_result polls nzoId category now 41 0 p) as (n & _ & Hb & He).
    { intros j Hj. lia. }
    { exact Hp. }
    exists p, n. split; [exact Hp|]. split; [|split; [exact Hb | exact He]].
    pose proof (query_time_lower polls now n) as Hlow.
    destruct (query_time polls now n <? now + NZBDAV_POLL_TIMEOUT_MS) eqn:Hlt.
    + destruct He as [-> _]. rewrite length_map, length_seq.
      apply Z.ltb_lt in Hlt.
      unfold NZBDAV_POLL_INTERVAL_MS, NZBDAV_POLL_TIMEOUT_MS in *. lia.
    + destruct He as [-> _]. rewrite length_map, length_seq.
      destruct n as [|n]; [lia|].
      destruct (Hb n) as [Hn _]; [lia|].
      pose proof (query_time_lower polls now n) as Hlow'.
      unfold NZBDAV_POLL_INTERVAL_MS, NZBDAV_POLL_TIMEOUT_MS in *. lia.
  - split; [done|]. split; [done|]. split; [done|]. split; [done|].
    split. { intros data s Hst Hs. unfold poll_once. by rewrite Hst, Hs. }
    split. { done. }
    split. { intros data Hst Hs. unfold poll_once. by rewrite Hst, Hs. }
    split. { intros data Hst. unfold poll_once. by rewrite Hst. }
    done.
Qed.

Lemma poller_classification_witness :
  ensureNzbdavConfigured Fixtures.sample_config = None
  ∧ ∃ p, waitForNzbdavHistorySlot Fixtures.sample_config Fixtures.polls_completed
           "nzo1" "Movies" 1000 = Some p
      ∧ (length (queried p) ≤ 40)%nat.
Proof.
  assert (H1 : ensureNzbdavConfigured Fixtures.sample_config = None)
    by reflexivity.
  split; [exact H1|].
  destruct (poller_classification Fixtures.sample_config
              Fixtures.polls_completed "nzo1" "Movies" 1000 H1)
    as [(p & n & Hp & Hlen & _) _].
  exists p. split; [exact Hp | exact Hlen].
Defined.

(** The job that is queued twice and then completed: three queries, 2150 ms
    apart (150 ms for the query and the 2 s sleep). *)
Example poller_completed :
  waitForNzbdavHistorySlot Fixtures.sample_config Fixtures.polls_completed
    "nzo1" "Movies" 1000
  = Some (Polling (Ok (Fixtures.history_slot "nzo1" "Completed" "My.Movie.2024"
                         None))
                  [1000; 3150; 5300]).
Proof. vm_compute. reflexivity. Qed.

Example poller_failed :
  ended <$> waitForNzbdavHistorySlot Fixtures.sample_config Fixtures.polls_failed
              "nzo1" "Movies" 1000
  = Some (Throw (Error "[NZBDAV] NZB failed: Article missing" true
                   (Some "Article missing") (Some "nzo1") (Some "Movies")
                   None None None)).
Proof. vm_compute. reflexivity. Qed.

Example poller_timeout :
  (λ p, (ended p, length (queried p)))
    <$> waitForNzbdavHistorySlot Fixtures.sample_config Fixtures.polls_stuck
          "nzo1" "Movies" 1000
  = Some (Throw timeoutError, 38%nat).
Proof. vm_compute. reflexivity. Qed.

Example poller_api_error :
  (λ p, (ended p, length (queried p)))
    <$> waitForNzbdavHistorySlot Fixtures.sample_config Fixtures.polls_broken
          "nzo1" "Movies" 1000
  = Some (Throw (Error "Request failed with status code 503" false None None
                   None None None (Some 503)), 3%nat).
Proof. vm_compute. reflexivity. Qed.

End PollerFacts.

(** ** The media locator *)

Module LocatorFacts.
Import Locator.

Section Traversal.

Variable sh : share.
Variable requestedEpisode : option requested_episode.

(** *** The entries of one listing *)

Lemma visit_entry_spec currentPath depth w e :
  let w' := visit_entry requestedEpisode currentPath depth w e in
  queue w' = queue w ++ children currentPath depth [e]
  ∧ visited w' = visited w
  ∧ listed w' = listed w
  ∧ discovered w' = discovered w ++ videos requestedEpisode currentPath [e]
  ∧ bestMatch w' = fold_left better (videos requestedEpisode currentPath [e]) (bestMatch w)
  ∧ bestEpisodeMatch w'
    = fold_left better (List.filter matchesEpisode (videos requestedEpisode currentPath [e]))
        (bestEpisodeMatch w).
Proof.
  unfold visit_entry, children, videos, is_video. simpl.
  destruct (isDirectory e); simpl.
  { by rewrite !app_nil_r. }
  destruct (String.eqb (name e) "" || negb (isVideoFileName (name e))); simpl.
  { by rewrite !app_nil_r. }
  fold (candidate_of requestedEpisode currentPath e). rewrite app_nil_r.
  by destruct (fileMatchesEpisode (name e) requestedEpisode).
Qed.

Lemma children_app p d l1 l2 : children p d (l1 ++ l2) = children p d l1 ++ children p d l2.
Proof. unfold children. by rewrite List.filter_app, map_app. Qed.

Lemma videos_app p l1 l2 :
  videos requestedEpisode p (l1 ++ l2)
  = videos requestedEpisode p l1 ++ videos requestedEpisode p l2.
Proof. unfold videos. by rewrite List.filter_app, map_app. Qed.

Lemma fold_visit_entry currentPath depth entries : ∀ w,
  let w' := fold_left (visit_entry requestedEpisode currentPath depth) entries w in
  queue w' = queue w ++ children currentPath depth entries
  ∧ visited w' = visited w
  ∧ listed w' = listed w
  ∧ discovered w' = discovered w ++ videos requestedEpisode currentPath entries
  ∧ bestMatch w' = fold_left better (videos requestedEpisode currentPath entries) (bestMatch w)
  ∧ bestEpisodeMatch w'
    = fold_left better (List.filter matchesEpisode (videos requestedEpisode currentPath entries))
        (bestEpisodeMatch w).
Proof.
  induction entries as [|e entries IH]; intros w.
  - simpl. by rewrite !app_nil_r.
  - assert (Hc : children currentPath depth (e :: entries)
                 = children currentPath depth [e]
                   ++ children currentPath depth entries)
      by apply (children_app currentPath depth [e]).
    assert (Hvid : videos requestedEpisode currentPath (e :: entries)
                   = videos requestedEpisode currentPath [e] ++ videos requestedEpisode currentPath entries)
      by apply (videos_app currentPath [e]).
    rewrite Hc, Hvid, List.filter_app, !fold_left_app.
    change (fold_left (visit_entry requestedEpisode currentPath depth)
              (e :: entries) w)
      with (fold_left (visit_entry requestedEpisode currentPath depth)
              entries (visit_entry requestedEpisode currentPath depth w e)).
    destruct (IH (visit_entry requestedEpisode currentPath depth w e))
      as (Hq & Hv & Hl & Hd & Hb & Hbe).
    destruct (visit_entry_spec currentPath depth w e)
      as (Hq1 & Hv1 & Hl1 & Hd1 & Hb1 & Hbe1).
    cbv zeta. rewrite Hq, Hv, Hl, Hd, Hb, Hbe, Hq1, Hv1, Hl1, Hd1, Hb1, Hbe1.
    by rewrite <- !app_assoc.
Qed.

(** *** One pass of the loop *)

(** What a pass does to the state from which the head of the queue has
    been taken. *)
Lemma visit_spec currentPath depth w :
  let w' := visit sh requestedEpisode currentPath depth w in
  if (NZBDAV_MAX_DIRECTORY_DEPTH <? depth) || bool_decide (currentPath ∈ visited w)
  then w' = w
  else
    let entries := default [] (listWebdavDirectory sh currentPath) in
    queue w' = queue w ++ children currentPath depth entries
    ∧ visited w' = {[currentPath]} ∪ visited w
    ∧ listed w' = listed w ++ [(currentPath, depth)]
    ∧ discovered w' = discovered w ++ videos requestedEpisode currentPath entries
    ∧ bestMatch w'
      = fold_left better (videos requestedEpisode currentPath entries) (bestMatch w)
    ∧ bestEpisodeMatch w'
      = fold_left better
          (List.filter matchesEpisode (videos requestedEpisode currentPath entries))
          (bestEpisodeMatch w).
Proof.
  unfold visit. destruct (NZBDAV_MAX_DIRECTORY_DEPTH <? depth); simpl; [done|].
  destruct (bool_decide (currentPath ∈ visited w)); simpl; [done|].
  destruct (listWebdavDirectory sh currentPath) as [entries|]; simpl.
  - exact (fold_visit_entry currentPath depth entries
             (Walk (queue w) ({[currentPath]} ∪ visited w) (bestMatch w)
                   (bestEpisodeMatch w) (listed w ++ [(currentPath, depth)])
                   (discovered w))).
  - unfold children, videos. simpl. by rewrite !app_nil_r.
Qed.

Lemma subtree_cost_pos n path : (1 ≤ subtree_cost sh n path)%nat.
Proof. destruct n; simpl; lia. Qed.

Lemma queue_cost_cons x q :
  queue_cost sh (x :: q) = (item_cost sh x + queue_cost sh q)%nat.
Proof. reflexivity. Qed.

Lemma queue_cost_app q1 q2 :
  queue_cost sh (q1 ++ q2) = (queue_cost sh q1 + queue_cost sh q2)%nat.
Proof.
  unfold queue_cost. induction q1 as [|x q1 IH]; simpl; [done|].
  rewrite IH. lia.
Qed.

Lemma children_cost currentPath depth entries :
  queue_cost sh (children currentPath depth entries) =
  sum_list (map (λ e, if isDirectory e
                      then subtree_cost sh
                             (Z.to_nat (NZBDAV_MAX_DIRECTORY_DEPTH - depth))
                             (nextPath currentPath e)
                      else 0%nat) entries).
Proof.
  unfold queue_cost, children.
  induction entries as [|e entries IH]; [done|]. simpl.
  destruct (isDirectory e); simpl; [|done].
  rewrite IH. f_equal. unfold item_cost. simpl. do 2 f_equal.
  unfold NZBDAV_MAX_DIRECTORY_DEPTH. lia.
Qed.

(** A pass strictly lowers the cost of the queue. *)
Lemma visit_cost currentPath depth w :
  (queue_cost sh (queue (visit sh requestedEpisode currentPath depth w))
   < item_cost sh (currentPath, depth) + queue_cost sh (queue w))%nat.
Proof.
  pose proof (visit_spec currentPath depth w) as Hv. cbv zeta in Hv.
  pose proof (subtree_cost_pos
    (Z.to_nat (NZBDAV_MAX_DIRECTORY_DEPTH + 1 - depth)) currentPath) as Hpos.
  unfold item_cost at 1. simpl.
  destruct (NZBDAV_MAX_DIRECTORY_DEPTH <? depth) eqn:Hd; simpl in Hv.
  { rewrite Hv. lia. }
  destruct (bool_decide (currentPath ∈ visited w)); simpl in Hv.
  { rewrite Hv. lia. }
  destruct Hv as (-> & _). rewrite queue_cost_app, children_cost.
  apply Z.ltb_ge in Hd.
  replace (Z.to_nat (NZBDAV_MAX_DIRECTORY_DEPTH + 1 - depth))
    with (S (Z.to_nat (NZBDAV_MAX_DIRECTORY_DEPTH - depth)))
    by (unfold NZBDAV_MAX_DIRECTORY_DEPTH in *; lia).
  simpl. destruct (listWebdavDirectory sh currentPath); simpl; lia.
Qed.

(** The loop ends within the cost of its queue. *)
Lemma traverse_ends fuel : ∀ w,
  (queue_cost sh (queue w) ≤ fuel)%nat →
  is_Some (traverse sh requestedEpisode fuel w).
Proof.
  induction fuel as [|fuel IH]; intros w Hcost.
  - destruct w as [[|[p d] rest] ? ? ? ? ?]; simpl in *; [by eexists|].
    pose proof (subtree_cost_pos
      (Z.to_nat (NZBDAV_MAX_DIRECTORY_DEPTH + 1 - d)) p).
    rewrite queue_cost_cons in Hcost. unfold item_cost in Hcost.
    simpl in Hcost. lia.
  - destruct w as [[|[p d] rest] vis bm be ls ds]; [by eexists|].
    cbn [traverse queue visited bestMatch bestEpisodeMatch listed discovered].
    apply IH.
    pose proof (visit_cost p d (Walk rest vis bm be ls ds)) as Hlt.
    cbn [queue] in *. rewrite queue_cost_cons in Hcost. lia.
Qed.

(** More fuel does not change the result. *)
Lemma traverse_more_fuel fuel : ∀ w w' extra,
  traverse sh requestedEpisode fuel w = Some w' →
  traverse sh requestedEpisode (fuel + extra) w = Some w'.
Proof.
  induction fuel as [|fuel IH]; intros w w' extra.
  - destruct w as [[|[p d] rest] ? ? ? ? ?]; simpl; [|done].
    intros [= <-]. by destruct extra.
  - destruct w as [[|[p d] rest] ? ? ? ? ?]; simpl; [done|]. apply IH.
Qed.

(** *** The invariant *)

Variable root : string.

Ltac in_list :=
  repeat (rewrite elem_of_cons || rewrite elem_of_app
          || rewrite list_elem_of_singleton);
  tauto.

Lemma subseteq_snoc {A} (l : list A) (x : A) : l ⊆ l ++ [x].
Proof. intros y Hy. apply elem_of_app. by left. Qed.

Lemma origin_ok_mono made made' item :
  made ⊆ made' → origin_ok sh root made item → origin_ok sh root made' item.
Proof.
  intros Hsub [->|(parent & Hp & Hc)]; [by left|].
  right. exists parent. split; [by apply Hsub | done].
Qed.

Lemma found_snoc made item :
  found sh requestedEpisode (made ++ [item])
  = found sh requestedEpisode made
    ++ videos requestedEpisode item.1 (default [] (listWebdavDirectory sh item.1)).
Proof. unfold found. rewrite flat_map_app. simpl. by rewrite app_nil_r. Qed.

Lemma best_of_app cs cs' : best_of (cs ++ cs') = fold_left better cs' (best_of cs).
Proof. unfold best_of. by rewrite fold_left_app. Qed.

Lemma walk_inv_start : walk_inv sh requestedEpisode root (Walk [(root, 0)] ∅ None None [] []).
Proof.
  split; simpl; try done.
  - intros p. split; [intros H; by apply elem_of_empty in H
                     | intros H; by apply elem_of_nil in H].
  - constructor.
  - intros p d H. by apply elem_of_nil in H.
  - intros p d H. apply list_elem_of_singleton in H. injection H as _ <-. lia.
  - intros item H. apply list_elem_of_singleton in H. by left.
Qed.

Lemma walk_inv_visit p d rest vis bm be ls ds :
  walk_inv sh requestedEpisode root (Walk ((p, d) :: rest) vis bm be ls ds) →
  walk_inv sh requestedEpisode root
    (visit sh requestedEpisode p d (Walk rest vis bm be ls ds)).
Proof.
  intros [Hvis Hnd Hdep Hqd Hor Hf Hb Hbe]. simpl in *.
  pose proof (visit_spec p d (Walk rest vis bm be ls ds)) as Hv.
  cbv zeta in Hv. simpl in Hv.
  destruct ((NZBDAV_MAX_DIRECTORY_DEPTH <? d) || bool_decide (p ∈ vis)) eqn:Hskip.
  - rewrite Hv. split; simpl; try done.
    + intros p' d' H. apply (Hqd p' d'). by right.
    + intros item H. apply Hor. by right.
  - apply orb_false_iff in Hskip as [Hd Hnew].
    apply Z.ltb_ge in Hd. apply bool_decide_eq_false in Hnew.
    destruct Hv as (Hq' & Hv' & Hl' & Hd' & Hb' & Hbe').
    split.
    + intros p'. rewrite Hv', Hl', fmap_app, elem_of_app, elem_of_union,
        elem_of_singleton. simpl. rewrite list_elem_of_singleton, Hvis. tauto.
    + rewrite Hl', fmap_app. simpl. apply NoDup_app. split; [done|].
      split; [|apply NoDup_singleton].
      intros x Hx Hx'. apply list_elem_of_singleton in Hx'. subst x.
      by apply Hvis in Hx.
    + intros p' d'. rewrite Hl', elem_of_app, list_elem_of_singleton.
      intros [H|[= -> ->]]; [by apply (Hdep p')|].
      split; [|done]. apply (Hqd p d). by left.
    + intros p' d'. rewrite Hq', elem_of_app. intros [H|H].
      * apply (Hqd p' d'). by right.
      * unfold children in H. apply list_elem_of_fmap in H as (e & [= -> ->] & _).
        assert (0 ≤ d) by (apply (Hqd p d); by left). lia.
    + intros item. rewrite Hq', Hl', !elem_of_app, list_elem_of_singleton.
      intros [[H|H]|[H| -> ]].
      * eapply origin_ok_mono; [|apply Hor; in_list]. by apply subseteq_snoc.
      * right. exists (p, d). split; [in_list|].
        unfold children in H. apply list_elem_of_fmap in H as (e & -> & He).
        apply list_elem_of_In, List.filter_In in He as [He Hdir].
        apply list_elem_of_In in He. unfold child_of. simpl.
        destruct (listWebdavDirectory sh p) as [entries|]; simpl in *.
        -- by exists entries, e.
        -- by apply elem_of_nil in He.
      * eapply origin_ok_mono; [|apply Hor; in_list]. by apply subseteq_snoc.
      * eapply origin_ok_mono; [|apply Hor; in_list]. by apply subseteq_snoc.
    + rewrite Hd', Hl', found_snoc, Hf. done.
    + rewrite Hb', Hd', Hb. by rewrite best_of_app.
    + rewrite Hbe', Hd', Hbe, List.filter_app. by rewrite best_of_app.
Qed.

Lemma walk_inv_traverse fuel : ∀ w w',
  walk_inv sh requestedEpisode root w →
  traverse sh requestedEpisode fuel w = Some w' →
  walk_inv sh requestedEpisode root w' ∧ queue w' = [].
Proof.
  induction fuel as [|fuel IH]; intros w w' Hinv.
  - destruct w as [[|[p d] rest] ? ? ? ? ?]; simpl; [|done].
    by intros [= <-].
  - destruct w as [[|[p d] rest] vis bm be ls ds]; simpl.
    + by intros [= <-].
    + apply IH. by apply walk_inv_visit.
Qed.

End Traversal.

(** *** The selection *)

Lemma fold_better_spec cs : ∀ b0,
  match fold_left better cs b0 with
  | None => b0 = None ∧ cs = []
  | Some b =>
      (b0 = Some b ∨ b ∈ cs)
      ∧ (∀ c, c ∈ cs → c_size c ≤ c_size b)
      ∧ (∀ b', b0 = Some b' → c_size b' ≤ c_size b)
  end.
Proof.
  induction cs as [|c cs IH]; intros b0; simpl.
  - destruct b0 as [b|]; [|done]. split; [by left|]. split.
    + intros c H. by apply elem_of_nil in H.
    + intros b' [= <-]. lia.
  - specialize (IH (better b0 c)).
    destruct (fold_left better cs (better b0 c)) as [b|].
    + destruct IH as (Hin & Hmax & Hb0). split; [|split].
      * destruct Hin as [Hin|Hin]; [|right; apply elem_of_cons; by right].
        unfold better in Hin. destruct b0 as [b1|].
        -- destruct (c_size b1 <? c_size c); injection Hin as <-;
             [right; apply elem_of_cons|]; by left.
        -- injection Hin as <-. right. apply elem_of_cons. by left.
      * intros c' Hc'. apply elem_of_cons in Hc' as [->|Hc']; [|by apply Hmax].
        unfold better in Hb0. destruct b0 as [b1|]; [|by apply Hb0].
        destruct (c_size b1 <? c_size c) eqn:Hlt; [by apply Hb0|].
        apply Z.ltb_ge in Hlt. specialize (Hb0 b1 eq_refl). lia.
      * intros b' ->. unfold better in Hb0.
        destruct (c_size b' <? c_size c) eqn:Hlt; [|by apply Hb0].
        apply Z.ltb_lt in Hlt. specialize (Hb0 c eq_refl). lia.
    + destruct IH as [Hb _]. unfold better in Hb. destruct b0 as [b1|]; [|done].
      by destruct (c_size b1 <? c_size c).
Qed.

Lemma best_of_spec cs :
  match best_of cs with
  | None => cs = []
  | Some b => b ∈ cs ∧ ∀ c, c ∈ cs → c_size c ≤ c_size b
  end.
Proof.
  pose proof (fold_better_spec cs None) as H. unfold best_of.
  destruct (fold_left better cs None) as [b|].
  - destruct H as ([H|H] & Hmax & _); [done|]. by split.
  - by destruct H.
Qed.

Lemma found_matches sh requestedEpisode made c :
  c ∈ found sh requestedEpisode made →
  matchesEpisode c = fileMatchesEpisode (c_name c) requestedEpisode.
Proof.
  unfold found. intros H. apply list_elem_of_In, in_flat_map in H as (item & _ & H).
  unfold videos in H. apply in_map_iff in H as (e & <- & _). done.
Qed.

(** *** Failing listings *)

Lemma listWebdavDirectory_heal sh p :
  listWebdavDirectory (heal sh) p = Some (default [] (listWebdavDirectory sh p)).
Proof. reflexivity. Qed.

Lemma visit_heal sh requestedEpisode p d w :
  visit (heal sh) requestedEpisode p d w = visit sh requestedEpisode p d w.
Proof.
  unfold visit. rewrite listWebdavDirectory_heal.
  by destruct (listWebdavDirectory sh p).
Qed.

Lemma traverse_heal sh requestedEpisode fuel : ∀ w,
  traverse (heal sh) requestedEpisode fuel w = traverse sh requestedEpisode fuel w.
Proof.
  induction fuel as [|fuel IH]; intros w; simpl; [done|].
  destruct (queue w) as [|[p d] rest]; [done|]. by rewrite visit_heal, IH.
Qed.

Lemma subtree_cost_heal sh n : ∀ p, subtree_cost (heal sh) n p = subtree_cost sh n p.
Proof.
  induction n as [|n IH]; intros p; cbn [subtree_cost]; [done|].
  rewrite listWebdavDirectory_heal. f_equal.
  destruct (listWebdavDirectory sh p) as [entries|]; simpl; [|done].
  f_equal. apply map_ext. intros e. destruct (isDirectory e); [apply IH | done].
Qed.

Lemma locate_heal sh category jobName requestedEpisode :
  locate (heal sh) category jobName requestedEpisode
  = locate sh category jobName requestedEpisode.
Proof.
  unfold locate. rewrite traverse_heal. f_equal.
  unfold start, queue_cost, item_cost. cbn [queue map sum_list fst snd].
  by rewrite subtree_cost_heal.
Qed.

Lemma locate_ends sh category jobName requestedEpisode :
  ∃ w, locate sh category jobName requestedEpisode = Some w
       ∧ walk_inv sh requestedEpisode (rootPath category jobName) w
       ∧ queue w = [].
Proof.
  destruct (traverse_ends sh requestedEpisode
              (queue_cost sh (queue (start category jobName)))
              (start category jobName)) as [w Hw]; [done|].
  exists w. split; [exact Hw|].
  eapply walk_inv_traverse; [|exact Hw]. apply walk_inv_start.
Qed.

(** C4 — best-file selection.  The traversal ends; the candidates it has
    built are the video files of the listings it has made; and the result
    is: no file when there is no candidate; otherwise a candidate that
    matches the requested episode and is at least as large as every matching
    candidate, when some candidate matches; otherwise a candidate at least
    as large as every candidate.  Without a requested episode every
    candidate counts as matching, so the largest candidate overall is the
    result. *)
Theorem best_file_selection (sh : share) (category jobName : string)
    (requestedEpisode : option requested_episode) :
  ∃ w,
    locate sh category jobName requestedEpisode = Some w
    ∧ findBestVideoFile sh category jobName requestedEpisode
      = Some (selection w)
    ∧ discovered w = found sh requestedEpisode (listed w)
    ∧ (∀ c, c ∈ discovered w →
         matchesEpisode c = fileMatchesEpisode (c_name c) requestedEpisode)
    ∧ match selection w with
      | None => discovered w = []
      | Some c =>
          c ∈ discovered w
          ∧ if existsb matchesEpisode (discovered w)
            then matchesEpisode c = true
                 ∧ ∀ c', c' ∈ discovered w → matchesEpisode c' = true →
                         c_size c' ≤ c_size c
            else ∀ c', c' ∈ discovered w → c_size c' ≤ c_size c
      end
    ∧ (requestedEpisode = None →
       ∀ c, c ∈ discovered w → matchesEpisode c = true).
Proof.
  destruct (locate_ends sh category jobName requestedEpisode)
    as (w & Hw & [_ _ _ _ _ Hf Hb Hbe] & _).
  exists w. split; [exact Hw|].
  split; [unfold findBestVideoFile; by rewrite Hw|]. split; [exact Hf|].
  assert (Hm : ∀ c, c ∈ discovered w →
            matchesEpisode c = fileMatchesEpisode (c_name c) requestedEpisode).
  { intros c Hc. rewrite Hf in Hc. by eapply found_matches. }
  split; [exact Hm|]. split.
  - unfold selection. rewrite Hb, Hbe.
    pose proof (best_of_spec (List.filter matchesEpisode (discovered w))) as He.
    pose proof (best_of_spec (discovered w)) as Ha.
    destruct (best_of (List.filter matchesEpisode (discovered w))) as [c|].
    + destruct He as [Hin Hmax].
      apply list_elem_of_In, List.filter_In in Hin as [Hin Hc].
      split; [by apply list_elem_of_In|].
      replace (existsb matchesEpisode (discovered w)) with true.
      2: { symmetry. apply existsb_exists. by exists c. }
      split; [done|]. intros c' Hc' Hmc'. apply Hmax.
      apply list_elem_of_In, List.filter_In. split; [by apply list_elem_of_In|done].
    + assert (Hnone : existsb matchesEpisode (discovered w) = false).
      { destruct (existsb matchesEpisode (discovered w)) eqn:Hex; [|done].
        apply existsb_exists in Hex as (c & Hin & Hc).
        assert (List.In c (List.filter matchesEpisode (discovered w)))
          by (by apply List.filter_In).
        rewrite He in *. done. }
      destruct (best_of (discovered w)) as [c|]; [|done].
      rewrite Hnone. done.
  - intros -> c Hc. by rewrite (Hm c Hc).
Qed.

(** C6 — bounded, terminating traversal.  For every file share the
    traversal ends with an empty queue; no path is listed twice; every
    listing is made at a depth between 0 and 6, where the root is at depth 0
    and a directory entry of a listing made at depth [d] is at depth [d+1];
    a pass whose listing fails leaves the rest of the queue, the visited
    paths apart from its own, and the best files as they are; and the
    traversal of a share goes exactly as that of the share in which every
    failing listing is an empty directory. *)
Theorem bounded_traversal (sh : share) (category jobName : string)
    (requestedEpisode : option requested_episode) :
  ∃ w,
    locate sh category jobName requestedEpisode = Some w
    ∧ is_Some (findBestVideoFile sh category jobName requestedEpisode)
    ∧ queue w = []
    ∧ NoDup (listed w).*1
    ∧ (∀ p d, (p, d) ∈ listed w → 0 ≤ d ≤ 6)
    ∧ (∀ item, item ∈ listed w →
         origin_ok sh (rootPath category jobName) (listed w) item)
    ∧ (∀ p d w0,
         listWebdavDirectory sh p = None →
         d ≤ NZBDAV_MAX_DIRECTORY_DEPTH → p ∉ visited w0 →
         visit sh requestedEpisode p d w0
         = Walk (queue w0) ({[p]} ∪ visited w0) (bestMatch w0)
                (bestEpisodeMatch w0) (listed w0 ++ [(p, d)]) (discovered w0))
    ∧ locate (heal sh) category jobName requestedEpisode = Some w.
Proof.
  destruct (locate_ends sh category jobName requestedEpisode)
    as (w & Hw & [_ Hnd Hdep _ Hor _ _ _] & Hq).
  exists w. split; [exact Hw|].
  split; [unfold findBestVideoFile; rewrite Hw; by eexists|].
  split; [exact Hq|]. split; [exact Hnd|]. split; [exact Hdep|].
  split. { intros item Hi. apply Hor. apply elem_of_app. by right. }
  split; [|by rewrite locate_heal].
  intros p d w0 Hfail Hd Hnew. unfold visit. rewrite Hfail.
  replace (NZBDAV_MAX_DIRECTORY_DEPTH <? d) with false
    by (symmetry; by apply Z.ltb_ge).
  by rewrite bool_decide_eq_false_2.
Qed.

(** The episode example of the specification. *)
Example episode_requested :
  findBestVideoFile Fixtures.episodes_share "Tv" "Show.S01"
    (Some (RequestedEpisode 1 3))
  = Some (Some (Candidate "S01E03.mkv" 3000000000 true
                  "/content/Tv/Show.S01/S01E03.mkv"
                  "content/Tv/Show.S01/S01E03.mkv")).
Proof. vm_compute. reflexivity. Qed.

Example episode_not_requested :
  findBestVideoFile Fixtures.episodes_share "Tv" "Show.S01" None
  = Some (Some (Candidate "extras.mkv" 5000000000 true
                  "/content/Tv/Show.S01/extras.mkv"
                  "content/Tv/Show.S01/extras.mkv")).
Proof. vm_compute. reflexivity. Qed.

Example nothing_playable :
  findBestVideoFile Fixtures.episodes_share "Tv" "Other" None = Some None.
Proof. vm_compute. reflexivity. Qed.

(** In the tree without end the listings stop at depth 6: seven listings,
    and the file that is found is the one of the directory at depth 6. *)
Example endless_tree_depths :
  (λ w, (map snd (listed w), c_name <$> selection w, length (discovered w)))
    <$> locate Fixtures.endless_share "Movies" "J" None
  = Some ([0; 1; 2; 3; 4; 5; 6], Some "v.mkv", 7%nat).
Proof. vm_compute. reflexivity. Qed.

Example endless_tree_deepest :
  absolutePath <$> default None
    (findBestVideoFile Fixtures.endless_share "Movies" "J" None)
  = Some "/content/Movies/J/d/d/d/d/d/d/v.mkv".
Proof. vm_compute. reflexivity. Qed.

(** With every directory name listed twice, each path is still listed
    once. *)
Example twin_tree_listings :
  (λ w, length (listed w)) <$> locate Fixtures.twin_share "Movies" "J" None
  = Some 7%nat.
Proof. vm_compute. reflexivity. Qed.

End LocatorFacts.

(** ** The range-aware proxy *)

Module ProxyFacts.
Import Regex Proxy.

(** *** Strings *)

Lemma list_of_append (s1 s2 : string) :
  String.list_ascii_of_string (s1 +:+ s2)
  = String.list_ascii_of_string s1 ++ String.list_ascii_of_string s2.
Proof. induction s1 as [|c s1 IH]; simpl; [done|]. by rewrite IH. Qed.

(** *** Headers *)

Lemma same_header_refl a : same_header a a = true.
Proof. unfold same_header. apply String.eqb_refl. Qed.

Lemma getHeader_setHeader name v res :
  getHeader name (setHeader name v res) = Some v.
Proof.
  unfold getHeader, setHeader. simpl.
  induction (headers res) as [|[n x] hs IH]; simpl.
  - by rewrite same_header_refl.
  - rewrite filter_cons. simpl. destruct (decide (same_header n name = false)) as [Hn|Hn].
    + simpl. by rewrite Hn.
    + exact IH.
Qed.

Lemma getHeader_setHeader_ne name name' v res :
  same_header name' name = false →
  getHeader name (setHeader name' v res) = getHeader name res.
Proof.
  intros Hne. unfold getHeader, setHeader. simpl. f_equal.
  assert (Hsym : ∀ n, same_header n name' = true → same_header n name = false).
  { intros n Hn. unfold same_header in *. apply String.eqb_eq in Hn.
    rewrite Hn. exact Hne. }
  induction (headers res) as [|[n x] hs IH]; simpl.
  - by rewrite Hne.
  - rewrite filter_cons. simpl.
    destruct (decide (same_header n name' = false)) as [Hn|Hn]; simpl.
    + destruct (same_header n name); [done | exact IH].
    + apply not_false_is_true in Hn. rewrite (Hsym n Hn). exact IH.
Qed.

(** *** The pattern of the Range header *)

Lemma matches_lit cs rest k :
  matches false (lit cs) (cs ++ rest) k = k rest.
Proof.
  induction cs as [|c cs IH]; simpl; [done|].
  unfold eq_char. by rewrite Ascii.eqb_refl, IH.
Qed.

Lemma star_digits k rest : k rest = true → ∀ ds n,
  forallb is_digit ds = true →
  (length (ds ++ rest) ≤ n)%nat →
  star_iter (matches false Digit) k n (ds ++ rest) = true.
Proof.
  intros Hk. induction ds as [|d ds IH]; intros n Hds Hn; simpl in *.
  - destruct n; simpl; [done|]. by rewrite Hk, orb_true_r.
  - apply andb_true_iff in Hds as [Hd Hds].
    destruct n as [|n]; [lia|]. simpl. rewrite Hd. simpl.
    rewrite IH; [|done|lia].
    replace (_ <? _)%nat with true; [done|].
    symmetry. apply Nat.ltb_lt. lia.
Qed.

Lemma range_pattern_matches ds de :
  all_digits ds = true → all_digits de = true →
  test_anchored false range_pattern ("bytes=" +:+ ds +:+ "-" +:+ de) = true.
Proof.
  unfold all_digits, test_anchored, range_pattern. intros Hds Hde.
  rewrite !list_of_append. cbn [seq foldr].
  change (matches false (Cat ?a ?b) ?s ?k)
    with (matches false a s (λ s', matches false b s' k)).
  rewrite matches_lit. cbn [matches].
  apply star_digits; [|done|done]. cbn [String.list_ascii_of_string app].
  rewrite Ascii.eqb_refl. cbn [andb].
  rewrite <- (app_nil_r (String.list_ascii_of_string de)).
  by apply star_digits.
Qed.

Lemma matches_lit_inv cs : ∀ s k,
  matches false (lit cs) s k = true → ∃ rest, s = cs ++ rest ∧ k rest = true.
Proof.
  induction cs as [|c cs IH]; intros s k; simpl.
  - intros Hk. by exists s.
  - destruct s as [|a s]; [done|]. intros H.
    apply andb_true_iff in H as [Hc H]. apply Ascii.eqb_eq in Hc as ->.
    destruct (IH s k H) as (rest & -> & Hk). by exists rest.
Qed.

Lemma star_digits_inv k n : ∀ s,
  star_iter (matches false Digit) k n s = true →
  ∃ ds rest, s = ds ++ rest ∧ forallb is_digit ds = true ∧ k rest = true.
Proof.
  induction n as [|n IH]; intros s; simpl.
  - intros Hk. by exists [], s.
  - intros H. apply orb_true_iff in H as [H|Hk]; [|by exists [], s].
    destruct s as [|a s]; [done|].
    apply andb_true_iff in H as [Ha H]. apply andb_true_iff in H as [_ H].
    destruct (IH s H) as (ds & rest & -> & Hds & Hk).
    exists (a :: ds), rest. simpl. by rewrite Ha, Hds.
Qed.

(** The headers that the pattern accepts are those of the shape
    [bytes=<digits>-<digits>]. *)
Lemma range_pattern_shape h :
  test_anchored false range_pattern h = true ↔
  ∃ ds de, all_digits ds = true ∧ all_digits de = true
           ∧ h = "bytes=" +:+ ds +:+ "-" +:+ de.
Proof.
  split; [|intros (ds & de & Hds & Hde & ->); by apply range_pattern_matches].
  unfold test_anchored, range_pattern. cbn [seq foldr].
  change (matches false (Cat ?a ?b) ?s ?k)
    with (matches false a s (λ s', matches false b s' k)).
  intros H. apply matches_lit_inv in H as (rest & Hh & H).
  cbn [matches] in H. apply star_digits_inv in H as (ds & rest' & -> & Hds & H).
  destruct rest' as [|a rest']; [done|].
  apply andb_true_iff in H as [Ha H]. apply Ascii.eqb_eq in Ha as ->.
  apply star_digits_inv in H as (de & tail & -> & Hde & Ht).
  destruct tail; [|done]. rewrite app_nil_r in Hh.
  exists (String.string_of_list_ascii ds), (String.string_of_list_ascii de).
  unfold all_digits. rewrite !String.list_ascii_of_string_of_list_ascii.
  split; [done|]. split; [done|].
  rewrite <- (String.string_of_list_ascii_of_string h), Hh.
  rewrite <- (String.string_of_list_ascii_of_string
                ("bytes=" +:+ String.string_of_list_ascii ds +:+ "-"
                 +:+ String.string_of_list_ascii de)).
  f_equal.
  rewrite !list_of_append, !String.list_ascii_of_string_of_list_ascii. done.
Qed.

(** *** Splitting and parsing *)

Lemma split_on_free sep s : free_of sep s → split_on sep s = [s].
Proof.
  unfold free_of. induction s as [|c s IH]; simpl; [done|].
  intros H. apply andb_true_iff in H as [Hc Hs].
  apply negb_true_iff in Hc. rewrite Hc, (IH Hs). done.
Qed.

Lemma split_on_sep sep s1 s2 :
  free_of sep s1 →
  split_on sep (s1 +:+ String sep s2) = s1 :: split_on sep s2.
Proof.
  unfold free_of. induction s1 as [|c s1 IH]; simpl.
  - intros _. by rewrite Ascii.eqb_refl.
  - intros H. apply andb_true_iff in H as [Hc Hs].
    apply negb_true_iff in Hc. rewrite Hc, (IH Hs). done.
Qed.

Lemma digits_free sep s :
  is_digit sep = false → all_digits s = true → free_of sep s.
Proof.
  unfold all_digits, free_of. intros Hsep.
  induction (String.list_ascii_of_string s) as [|c cs IH]; simpl; [done|].
  intros H. apply andb_true_iff in H as [Hc Hcs]. rewrite (IH Hcs), andb_true_r.
  apply negb_true_iff, Ascii.eqb_neq. intros ->. congruence.
Qed.

Lemma range_header_split ds de :
  all_digits ds = true → all_digits de = true →
  let h := "bytes=" +:+ ds +:+ "-" +:+ de in
  let rangeSpec := nth 1 (split_on "=" h) "" in
  nth 0 (split_on "-" rangeSpec) "" = ds
  ∧ nth 1 (split_on "-" rangeSpec) "" = de.
Proof.
  intros Hds Hde h rangeSpec.
  assert (Hspec : rangeSpec = ds +:+ "-" +:+ de).
  { unfold rangeSpec, h.
    change ("bytes=" +:+ ds +:+ "-" +:+ de)
      with ("bytes" +:+ String "=" (ds +:+ "-" +:+ de)).
    rewrite split_on_sep by done.
    rewrite split_on_free; [done|].
    unfold free_of. rewrite !list_of_append, !forallb_app.
    pose proof (digits_free "=" ds eq_refl Hds) as H1.
    pose proof (digits_free "=" de eq_refl Hde) as H2.
    unfold free_of in H1, H2. by rewrite H1, H2. }
  rewrite Hspec.
  change (ds +:+ "-" +:+ de) with (ds +:+ String "-" de).
  rewrite split_on_sep by (by apply digits_free).
  rewrite split_on_free by (by apply digits_free). done.
Qed.

Lemma leading_digits_nonneg cs : ∀ acc, 0 ≤ acc → 0 ≤ leading_digits acc cs.
Proof.
  induction cs as [|c cs IH]; intros acc Hacc; simpl; [done|].
  destruct (is_digit c) eqn:Hc; [|done]. apply IH.
  unfold is_digit in Hc. apply andb_true_iff in Hc as [H1 H2].
  apply N.leb_le in H1, H2. unfold digit_value. lia.
Qed.

Lemma bound_or_digits s current :
  all_digits s = true →
  bound_or s current = if String.eqb s "" then current else numeral_value s.
Proof.
  unfold bound_or, parseInt, numeral_value, all_digits. intros Hs.
  destruct (String.eqb s "") eqn:He; [done|].
  destruct s as [|c s]; [done|]. simpl in *.
  apply andb_true_iff in Hs as [Hc _]. rewrite Hc.
  replace (0 <=? _) with true; [done|]. symmetry. apply Z.leb_le.
  apply leading_digits_nonneg.
  unfold is_digit in Hc. apply andb_true_iff in Hc as [H1 H2].
  apply N.leb_le in H1, H2. unfold digit_value. lia.
Qed.

Lemma truthy_digits_header ds de :
  truthy (Some ("bytes=" +:+ ds +:+ "-" +:+ de)) = true.
Proof. reflexivity. Qed.

Lemma createReadStream_slice content first last :
  0 ≤ first → first ≤ last →
  createReadStream content first last = Some (slice content first last).
Proof.
  intros H1 H2. unfold createReadStream.
  replace (first <? 0) with false by (symmetry; apply Z.ltb_ge; lia).
  replace (last <? 0) with false by (symmetry; apply Z.ltb_ge; lia).
  replace (last <? first) with false by (symmetry; apply Z.ltb_ge; lia).
  done.
Qed.

Lemma slice_length content first last :
  0 ≤ first → first ≤ last → last < Z.of_nat (length content) →
  Z.of_nat (length (slice content first last)) = last - first + 1.
Proof.
  intros H1 H2 H3. unfold slice. rewrite length_take, length_drop. lia.
Qed.

Lemma slice_full content :
  slice content 0 (Z.of_nat (length content) - 1) = content.
Proof.
  unfold slice. simpl. rewrite drop_0. apply firstn_all2. lia.
Qed.



(** The 1000-byte examples of the specification. *)
Example range_open_ended :
  let content := replicate 1000 "x"%char in
  let req := Request (Some "GET") (Some "bytes=500-") None None None None None in
  ∃ res', streamFileResponse req fresh (Some (RegularFile content "")) false
          = Ok (Some res')
    ∧ statusCode res' = 206
    ∧ getHeader "Content-Range" res' = Some (HStr "bytes 500-999/1000")
    ∧ body_bytes res' = Some 500%nat.
Proof. vm_compute. eexists. repeat split. Qed.

Example range_beyond_size :
  let content := replicate 1000 "x"%char in
  let req := Request (Some "GET") (Some "bytes=2000-3000") None None None None None in
  ∃ res', streamFileResponse req fresh (Some (RegularFile content "")) false
          = Ok (Some res')
    ∧ statusCode res' = 416
    ∧ getHeader "Content-Range" res' = Some (HStr "bytes */1000")
    ∧ body_bytes res' = Some 0%nat.
Proof. vm_compute. eexists. repeat split. Qed.

(** *** HEAD requests *)

Lemma relay_headers_lookup hs : ∀ res name,
  getHeader name (relay_headers hs res) =
  if same_header name "transfer-encoding" then getHeader name res
  else match last_header name hs with
       | Some v => Some v
       | None => getHeader name res
       end.
Proof.
  unfold relay_headers, last_header.
  induction hs as [|[n v] hs IH] using rev_ind; intros res name.
  - simpl. by destruct (same_header name "transfer-encoding").
  - rewrite fold_left_app, rev_app_distr. simpl.
    destruct (same_header name "transfer-encoding") eqn:Hte.
    + destruct (String.eqb (toLowerCase n) "transfer-encoding") eqn:Hn.
      * rewrite IH, Hte. done.
      * rewrite getHeader_setHeader_ne.
        -- rewrite IH, Hte. done.
        -- unfold same_header in *. apply String.eqb_eq in Hte.
           apply String.eqb_neq. apply String.eqb_neq in Hn.
           intros Heq. apply Hn. rewrite Heq, Hte. done.
    + destruct (same_header n name) eqn:Hsame.
      * assert (Hn : String.eqb (toLowerCase n) "transfer-encoding" = false).
        { unfold same_header in *. apply String.eqb_eq in Hsame.
          rewrite Hsame. exact Hte. }
        rewrite Hn. simpl.
        assert (Heq : getHeader name = getHeader n).
        { unfold getHeader, same_header in *. apply String.eqb_eq in Hsame.
          by rewrite Hsame. }
        rewrite Heq. apply getHeader_setHeader.
      * destruct (String.eqb (toLowerCase n) "transfer-encoding").
        -- rewrite IH, Hte. done.
        -- rewrite getHeader_setHeader_ne by done. rewrite IH, Hte. done.
Qed.

Lemma outbound_range req :
  header_of "Range" (outbound_headers req true)
  = Some (if truthy (range req) then or_else (range req) "" else "bytes=0-0").
Proof.
  unfold outbound_headers, pass_through, header_of.
  destruct (truthy (range req)); simpl; [done|].
  by destruct (truthy (if_range req)), (truthy (accept req)),
    (truthy (accept_language req)), (truthy (accept_encoding req)),
    (truthy (user_agent req)).
Qed.




(** *** The fallback stream *)

Lemma bound_or_nonneg s current : 0 ≤ current → 0 ≤ bound_or s current.
Proof.
  intros Hc. unfold bound_or. destruct (String.eqb s ""); [done|].
  destruct (parseInt s) as [z|]; [|done].
  destruct (0 <=? z) eqn:Hz; [by apply Z.leb_le | done].
Qed.

(** For a file that is not empty the file-serving path always answers,
    with one of its three statuses, and touches no header but its own. *)
Lemma streamFileResponse_serves content mtime req res emulateHead :
  0 < Z.of_nat (length content) →
  ∃ res',
    streamFileResponse req res (Some (RegularFile content mtime)) emulateHead
    = Ok (Some res')
    ∧ statusCode res' ∈ [200; 206; 416]
    ∧ ((∃ bs, body res' = Bytes bs) ∨ body res' = body res)
    ∧ ∀ name, Forall (λ n, same_header n name = false) file_headers →
              getHeader name res' = getHeader name res.
Proof.
  intros Hpos. unfold streamFileResponse.
  set (S := Z.of_nat (length content)) in *.
  assert (Hkeep : ∀ name r,
    Forall (λ n, same_header n name = false) file_headers →
    getHeader name
      (setHeader "Content-Type" (HStr "application/octet-stream")
         (setHeader "Last-Modified" (HStr mtime)
            (setHeader "Accept-Ranges" (HStr "bytes") r)))
    = getHeader name r).
  { intros name r Hn. unfold file_headers in Hn.
    apply Forall_cons in Hn as [H1 Hn]. apply Forall_cons in Hn as [H2 Hn].
    apply Forall_cons in Hn as [H3 _].
    by rewrite !getHeader_setHeader_ne. }
  assert (Hcl : ∀ name, Forall (λ n, same_header n name = false) file_headers →
            same_header "Content-Length" name = false
            ∧ same_header "Content-Range" name = false).
  { intros name Hn. unfold file_headers in Hn.
    do 3 apply Forall_cons in Hn as [_ Hn].
    apply Forall_cons in Hn as [H4 Hn]. apply Forall_cons in Hn as [H5 _].
    done. }
  destruct emulateHead.
  { eexists. split; [done|]. split; [cbn; apply elem_of_cons; by left|].
    split; [by right|]. intros name Hn. destruct (Hcl name Hn) as [H4 H5].
    change (getHeader ?n (end_response ?r)) with (getHeader n r).
    change (getHeader ?n (status ?c ?r)) with (getHeader n r).
    rewrite getHeader_setHeader_ne by done. by apply Hkeep. }
  destruct (match range req with Some _ => _ | None => false end).
  - cbv zeta.
    set (start := bound_or _ 0).
    set (end2 := if String.eqb _ "" then S - 1 else _).
    assert (Hstart : 0 ≤ start) by (by apply bound_or_nonneg).
    destruct (S <=? start) eqn:Hge.
    + eexists. split; [done|].
      split; [cbn; apply elem_of_cons; right; apply elem_of_cons; right;
              apply elem_of_cons; by left|].
      split; [by right|]. intros name Hn. destruct (Hcl name Hn) as [H4 H5].
      change (getHeader ?n (end_response ?r)) with (getHeader n r).
      rewrite getHeader_setHeader_ne by done.
      change (getHeader ?n (status ?c ?r)) with (getHeader n r).
      by apply Hkeep.
    + apply Z.leb_gt in Hge.
      set (end3 := if (S <=? end2) || (end2 <? start) then S - 1 else end2).
      assert (Hend : start ≤ end3).
      { unfold end3. destruct ((S <=? end2) || (end2 <? start)) eqn:Hc; [lia|].
        apply orb_false_iff in Hc as [_ H2]. apply Z.ltb_ge in H2. lia. }
      rewrite createReadStream_slice by lia.
      eexists. split; [done|].
      split; [cbn; apply elem_of_cons; right; apply elem_of_cons; by left|].
      split; [left; by eexists|]. intros name Hn.
      destruct (Hcl name Hn) as [H4 H5].
      change (getHeader ?n (pipe ?b ?r)) with (getHeader n r).
      rewrite !getHeader_setHeader_ne by done.
      change (getHeader ?n (status ?c ?r)) with (getHeader n r).
      by apply Hkeep.
  - rewrite createReadStream_slice by lia.
    eexists. split; [done|]. split; [cbn; apply elem_of_cons; by left|].
    split; [left; by eexists|]. intros name Hn.
    destruct (Hcl name Hn) as [H4 H5].
    change (getHeader ?n (pipe ?b ?r)) with (getHeader n r).
    rewrite getHeader_setHeader_ne by done.
    change (getHeader ?n (status ?c ?r)) with (getHeader n r).
    by apply Hkeep.
Qed.

Lemma or_else_truthy a d : d ≠ "" → truthy (Some (or_else a d)) = true.
Proof.
  intros Hd. unfold or_else, truthy. destruct a as [x|].
  - destruct (String.eqb x "") eqn:Hx.
    + apply negb_true_iff, String.eqb_neq. done.
    + by rewrite Hx.
  - apply negb_true_iff, String.eqb_neq. done.
Qed.

Lemma failure_text_of_poller s nzoId category :
  failure_text (Poller.failureError s nzoId category)
  = or_else (js_or (js_or (Poller.fail_message s) (Poller.failMessage s))
                   (Poller.FailMessage s)) "Unknown NZBDav error".
Proof.
  unfold failure_text, Poller.failureError. cbn [failureMessage message].
  set (fm := or_else _ "Unknown NZBDav error").
  assert (Ht : truthy (Some fm) = true) by (by apply or_else_truthy).
  unfold js_or. rewrite Ht. unfold or_else, truthy in *.
  apply negb_true_iff in Ht. by rewrite Ht.
Qed.



(** A job failure with the fallback file in place: the ranged request is
    answered from the fallback file, with the reason in the header. *)
Example fallback_served :
  let s := Poller.Slot (Some "nzo1") None None (Some "Failed") None
             (Some "Article missing") None None None None None None None None in
  let e := Poller.failureError s "nzo1" "Movies" in
  let req := Request (Some "GET") (Some "bytes=100-199") None None None None
               None in
  ∃ res',
    handle_error (Some (RegularFile (replicate 1000 "x"%char) "")) req fresh e
    = Ok res'
    ∧ statusCode res' = 206
    ∧ getHeader "X-NZBDav-Failure" res' = Some (HStr "Article missing")
    ∧ getHeader "Content-Range" res' = Some (HStr "bytes 100-199/1000")
    ∧ body_bytes res' = Some 100%nat.
Proof. vm_compute. eexists. repeat split. Qed.

End ProxyFacts.

(** ** The pipeline and the cache *)

Module PipelineFacts.
Import Poller Pipeline Cache CacheFacts.

Lemma annotate_flag downloadUrl category title e :
  isNzbdavFailure (annotate downloadUrl category title e) = isNzbdavFailure e.
Proof. unfold annotate. by destruct (isNzbdavFailure e) eqn:H. Qed.

(** The pipeline always ends. *)
Lemma build_ends env now downloadUrl category title requestedEpisode :
  is_Some (buildNzbdavStream env now downloadUrl category title requestedEpisode).
Proof.
  unfold buildNzbdavStream.
  destruct (addNzbToNzbdav _ _ _ _) as [nzoId|e]; [|by eexists].
  destruct (PollerFacts.waitFor_ends (cfg env) (polls env) nzoId category
              (now + Z.of_N (submit_elapsed env))) as [p ->].
  destruct (ended p) as [slot|e]; [|by eexists].
  destruct (negb (truthy _)); [by eexists|].
  match goal with
  | |- context [Locator.findBestVideoFile ?sh ?c ?j ?r] =>
      destruct (LocatorFacts.locate_ends sh c j r) as (w & Hw & _);
      unfold Locator.findBestVideoFile; rewrite Hw
  end.
  simpl. destruct (Locator.selection w); by eexists.
Qed.

(** The only marked error of the pipeline is the job failure of the
    poller. *)
Lemma build_failure_origin env now downloadUrl category title requestedEpisode e :
  buildNzbdavStream env now downloadUrl category title requestedEpisode
  = Some (Rejected e) →
  isNzbdavFailure e = true →
  ∃ nzoId j data s,
    addNzbToNzbdav (cfg env) (submit_reply env) downloadUrl category title
    = Ok nzoId
    ∧ reply (polls env j) = Responded data
    ∧ find_slot nzoId (hd_slots data) = Some s
    ∧ toLowerCase (or_else (js_or (status s) (Status s)) "") = "failed"
    ∧ e = annotate downloadUrl category title (failureError s nzoId category).
Proof.
  unfold buildNzbdavStream.
  destruct (addNzbToNzbdav _ _ _ _) as [nzoId|e0] eqn:Hadd.
  2: { intros [= <-]. rewrite annotate_flag.
       apply PollerFacts.addNzb_not_failure in Hadd. congruence. }
  destruct (waitForNzbdavHistorySlot _ _ _ _ _) as [p|] eqn:Hwait; [|done].
  destruct (ended p) as [slot|e0] eqn:Hend.
  - destruct (negb (truthy _)); [by intros [= <-]|].
    destruct (Locator.findBestVideoFile _ _ _ _) as [[c|]|]; try done.
    by intros [= <-].
  - intros [= <-]. rewrite annotate_flag. intros Hf.
    destruct (PollerFacts.waitFor_failure _ _ _ _ _ _ _ Hwait Hend Hf)
      as (j & data & s & ? & ? & ? & ->).
    by exists nzoId, j, data, s.
Qed.

(** C2 — cache-poisoning selectivity.  When the build of a key ends in an
    error: if the error is marked as a job failure the key is committed to
    the failed entry holding that error, and every request for the key
    while the clock is before the expiry is thrown that very error, the
    builder not being called again for the key; if the error is not marked
    the key is deleted, and the next request for the key calls the builder
    again.  Of the errors of the pipeline only the job failure raised by the
    poller for a slot that reads [failed] is marked: configuration,
    submission, manager API, timeout and no-playable-file errors are not. *)
Theorem poisoning_selectivity (w : world) (p : promise_id) (key : string)
    (err : error) :
  reachable w →
  running w !! p = Some key →
  let w' := settleBuilder p (Rejected err) w in
  (if isNzbdavFailure err then
     nzbdavStreamCache w' !! key
     = Some (EntryFailed err (Some (clock w + NZBDAV_CACHE_TTL_MS)))
     ∧ ∀ evs, clock (run evs w').1 < clock w + NZBDAV_CACHE_TTL_MS →
         (∀ r, (key, r) ∈ (run evs w').2 → r = Threw err)
         ∧ (getOrCreateNzbdavStream key (run evs w').1).1 = Threw err
         ∧ builds_of key (getOrCreateNzbdavStream key (run evs w').1).2
           = builds_of key w
   else
     nzbdavStreamCache w' !! key = None
     ∧ ∀ evs, forallb (λ ev, negb (is_request_of key ev)) evs = true →
         (getOrCreateNzbdavStream key (run evs w').1).1
         = Awaits (length (builderCalls (run evs w').1))
         ∧ builderCalls (getOrCreateNzbdavStream key (run evs w').1).2
           = key :: builderCalls (run evs w').1
         ∧ builds_of key (getOrCreateNzbdavStream key (run evs w').1).2
           = S (builds_of key w))
  ∧ (∀ env now downloadUrl category title requestedEpisode e,
       buildNzbdavStream env now downloadUrl category title requestedEpisode
       = Some (Rejected e) →
       isNzbdavFailure e = true →
       ∃ nzoId j data s,
         addNzbToNzbdav (cfg env) (submit_reply env) downloadUrl category
           title = Ok nzoId
         ∧ reply (polls env j) = Responded data
         ∧ find_slot nzoId (hd_slots data) = Some s
         ∧ toLowerCase (or_else (js_or (status s) (Status s)) "") = "failed"
         ∧ e = annotate downloadUrl category title
                 (failureError s nzoId category))
  ∧ (∀ cfg e, ensureNzbdavConfigured cfg = Some e → isNzbdavFailure e = false)
  ∧ (∀ cfg reply nzbUrl category jobLabel e,
       addNzbToNzbdav cfg reply nzbUrl category jobLabel = Throw e →
       isNzbdavFailure e = false)
  ∧ (∀ ce, isNzbdavFailure (of_client_error ce) = false)
  ∧ (∀ data, isNzbdavFailure (historyError data) = false)
  ∧ isNzbdavFailure timeoutError = false
  ∧ isNzbdavFailure noJobName = false
  ∧ isNzbdavFailure noPlayableFile = false.
Proof.
  intros Hw Hp w'. pose proof (reachable_inv _ Hw) as Hinv.
  destruct (settle_lookup p (Rejected err) w key Hp) as (Hk & _ & Hclock & Hcalls).
  fold w' in Hk, Hclock, Hcalls.
  pose proof (inv_settle p (Rejected err) w Hinv) as Hinv'. fold w' in Hinv'.
  split; [|split; [apply build_failure_origin|]].
  - simpl in Hk. destruct (isNzbdavFailure err) eqn:Hf.
    + split; [exact Hk|]. intros evs Hlt.
      destruct (live_run evs w' key _ (clock w + NZBDAV_CACHE_TTL_MS) Hinv' Hk
                  eq_refl Hlt) as (Hk2 & Hb2 & Hr2).
      split; [exact Hr2|].
      pose proof (reachable_inv _ (reachable_run evs _
                    (reach_step _ (Settle p (Rejected err)) Hw))) as Hinv2.
      cbn [step fst] in Hinv2. fold w' in Hinv2.
      destruct (live_step (Request key) (run evs w').1 key _ _ Hinv2 Hk2 eq_refl)
        as (_ & Hb3 & Hr3).
      { pose proof (clock_step (Request key) (run evs w').1) as Hc.
        simpl in *. destruct (getOrCreateNzbdavStream key (run evs w').1) as [r wn]
          eqn:Hg. simpl in *.
        assert (clock wn = clock (run evs w').1).
        { unfold getOrCreateNzbdavStream in Hg.
          destruct (cleanupNzbdavCache _ _ !! key) as [[]|];
            injection Hg as _ <-; done. }
        lia. }
      simpl in Hb3, Hr3.
      destruct (getOrCreateNzbdavStream key (run evs w').1) as [r wn].
      simpl in *. split; [by apply Hr3|]. rewrite Hb3, Hb2.
      unfold builds_of. by rewrite Hcalls.
    + split; [exact Hk|]. intros evs Hall.
      destruct (absent_run evs w' key Hinv' Hk Hall) as (Hk2 & Hb2).
      assert (Hmiss : cleanupNzbdavCache (clock (run evs w').1)
                        (nzbdavStreamCache (run evs w').1) !! key = None)
        by (by rewrite cleanup_lookup, Hk2).
      rewrite (getOrCreate_miss _ _ Hmiss). simpl.
      split; [done|]. split; [done|].
      unfold builds_of in *. simpl. rewrite filter_cons.
      destruct (decide (key = key)); [|done]. simpl. rewrite Hb2.
      by rewrite Hcalls.
  - split; [apply PollerFacts.ensure_not_failure|].
    split; [apply PollerFacts.addNzb_not_failure|]. done.
Qed.

Lemma poisoning_selectivity_witness :
  let w := (getOrCreateNzbdavStream "u|Movies" (initial 0)).2 in
  let failure :=
    failureError (Slot (Some "nzo1") None None (Some "Failed") None
                    (Some "Article missing") None None None None None None
                    None None) "nzo1" "Movies" in
  reachable w
  ∧ running w !! 0%nat = Some "u|Movies"
  ∧ (getOrCreateNzbdavStream "u|Movies"
       (run [Tick 1000; Request "v|Tv"]
          (settleBuilder 0%nat (Rejected failure) w)).1).1 = Threw failure
  ∧ (getOrCreateNzbdavStream "u|Movies"
       (run [Tick 1000; Request "v|Tv"]
          (settleBuilder 0%nat (Rejected timeoutError) w)).1).1 = Awaits 2%nat.
Proof.
  intros w failure.
  assert (H1 : reachable w).
  { apply (reachable_run [Request "u|Movies"] (initial 0)).
    apply reach_init. lia. }
  assert (H2 : running w !! 0%nat = Some "u|Movies") by reflexivity.
  split; [exact H1|]. split; [exact H2|]. split.
  - destruct (poisoning_selectivity w 0%nat "u|Movies" failure H1 H2)
      as [[_ Hthrow] _].
    destruct (Hthrow [Tick 1000; Request "v|Tv"]) as (_ & Hr & _);
      [reflexivity | exact Hr].
  - destruct (poisoning_selectivity w 0%nat "u|Movies" timeoutError H1 H2)
      as [[_ Hagain] _].
    destruct (Hagain [Tick 1000; Request "v|Tv"]) as (Hr & _);
      [reflexivity | exact Hr].
Defined.

(** The end-to-end example of the specification: the job is submitted,
    the poller sees it queued twice and then completed, the locator finds
    the one video file, and the cache entry becomes ready. *)
Example end_to_end_build :
  buildNzbdavStream Fixtures.movie_environment 0 "u" "Movies" "My Movie" None
  = Some (Resolved (StreamData "nzo1" "Movies" "My.Movie.2024"
                      "content/Movies/My.Movie.2024/My.Movie.2024.mkv"
                      4200000000)).
Proof. vm_compute. reflexivity. Qed.

Example end_to_end_cache :
  let data := StreamData "nzo1" "Movies" "My.Movie.2024"
                "content/Movies/My.Movie.2024/My.Movie.2024.mkv" 4200000000 in
  let '(w, rs) := run [Request "u|Movies"; Request "u|Movies"; Tick 4500;
                       Settle 0%nat (Resolved data); Tick 60000;
                       Request "u|Movies"] (initial 0) in
  rs = [("u|Movies", Awaits 0%nat); ("u|Movies", Awaits 0%nat);
        ("u|Movies", Returned data)]
  ∧ map (observed w) (map snd rs) = replicate 3 (Some (Resolved data))
  ∧ builderCalls w = ["u|Movies"]
  ∧ nzbdavStreamCache w !! "u|Movies" = Some (EntryReady data (Some 3604500)).
Proof. vm_compute. repeat split. Qed.

(** A ranged GET for the resolved file is answered with the bytes of the
    share. *)
Example end_to_end_range :
  let content := replicate 1000 "x"%char in
  let req := Proxy.Request (Some "GET") (Some "bytes=0-99") None None None
               None None in
  ∃ res',
    Proxy.handleNzbdavStream (λ s, s) "http://share"
      (Proxy.range_capable_share content "") None (Some "u")
      (Resolved (StreamData "nzo1" "Movies" "My.Movie.2024"
                   "content/Movies/My.Movie.2024/My.Movie.2024.mkv" 1000))
      req Proxy.fresh = Ok res'
    ∧ Proxy.statusCode res' = 206
    ∧ Proxy.getHeader "Content-Range" res'
      = Some (Proxy.HStr "bytes 0-99/1000")
    ∧ Proxy.body_bytes res' = Some 100%nat.
Proof. vm_compute. eexists. repeat split. Qed.

End PipelineFacts.

(** ** Further properties of the cache *)

Module CacheExtras.
Import Cache CacheFacts.

Lemma expired_mono t1 t2 e : t1 ≤ t2 → expired t1 e = true → expired t2 e = true.
Proof.
  unfold expired. intros Ht. destruct (entry_expiresAt e) as [x|]; [|done].
  intros H. apply andb_true_iff in H as [Hx Hle]. apply Z.leb_le in Hle.
  rewrite Hx. simpl. apply Z.leb_le. lia.
Qed.

(** X1 — eviction composes: evicting at a time and then at a later time is
    evicting once at the later time (so evicting twice at one time is
    evicting once); eviction only removes entries, and it removes none
    whose expiry lies in the future. *)
Theorem cleanup_composes (t1 t2 : Z) (cache : gmap string cache_entry) :
  t1 ≤ t2 →
  cleanupNzbdavCache t2 (cleanupNzbdavCache t1 cache)
  = cleanupNzbdavCache t2 cache
  ∧ cleanupNzbdavCache t1 (cleanupNzbdavCache t1 cache)
    = cleanupNzbdavCache t1 cache
  ∧ cleanupNzbdavCache t1 cache ⊆ cache
  ∧ (∀ k e x, cache !! k = Some e → entry_expiresAt e = Some x → t1 < x →
       cleanupNzbdavCache t1 cache !! k = Some e).
Proof.
  intros Ht.
  assert (Hcomp : ∀ a b, a ≤ b →
    cleanupNzbdavCache b (cleanupNzbdavCache a cache)
    = cleanupNzbdavCache b cache).
  { intros a b Hab. apply map_eq. intros k. rewrite !cleanup_lookup.
    destruct (cache !! k) as [e|]; [|done].
    destruct (expired a e) eqn:Ha.
    - by rewrite (expired_mono a b e Hab Ha).
    - done. }
  split; [by apply Hcomp|]. split; [by apply Hcomp|]. split.
  - apply map_subseteq_spec. intros k e He. by apply cleanup_Some in He as [? _].
  - intros k e x Hk Hx Hlt. rewrite cleanup_lookup, Hk. unfold expired.
    rewrite Hx. replace (x <=? t1) with false by (symmetry; by apply Z.leb_gt).
    by rewrite andb_false_r.
Qed.

Lemma cleanup_composes_witness :
  let data := StreamData "nzo1" "Movies" "J" "content/Movies/J/j.mkv" 7 in
  let cache : gmap string cache_entry :=
    <["a" := EntryReady data (Some 50)]>
      (<["b" := EntryReady data (Some 150)]> (<["c" := EntryPending 0%nat]> ∅)) in
  10 ≤ 100
  ∧ cleanupNzbdavCache 100 (cleanupNzbdavCache 10 cache)
    = cleanupNzbdavCache 100 cache
  ∧ cleanupNzbdavCache 100 cache !! "a" = None
  ∧ cleanupNzbdavCache 100 cache !! "b" = Some (EntryReady data (Some 150)).
Proof.
  intros data cache.
  assert (H : 10 ≤ 100) by lia.
  destruct (cleanup_composes 10 100 cache H) as (H1 & _).
  split; [exact H|]. split; [exact H1|]. split; reflexivity.
Defined.

(** X2 — in every reachable state pending entries and running builds
    correspond one to one: a key is pending on a promise exactly when that
    promise is the running build of the key; no two running builds share a
    key; a promise is never both running and settled; and every promise
    that is running or settled was created by an earlier builder call. *)
Theorem pending_running_correspondence (w : world) :
  reachable w →
  (∀ k p, nzbdavStreamCache w !! k = Some (EntryPending p)
          ↔ running w !! p = Some k)
  ∧ (∀ p q k, running w !! p = Some k → running w !! q = Some k → p = q)
  ∧ (∀ p, is_Some (running w !! p) → settled w !! p = None)
  ∧ (∀ p, is_Some (running w !! p) ∨ is_Some (settled w !! p) →
          (p < length (builderCalls w))%nat).
Proof.
  intros Hw. pose proof (reachable_inv _ Hw) as [H1 H2 H3 H4 H5 _ _].
  split; [intros k p; split; [apply H1 | apply H2]|].
  split. { intros p q k Hp Hq. apply H2 in Hp, Hq. congruence. }
  split.
  { intros p [k Hp]. destruct (settled w !! p) as [o|] eqn:Hs; [|done].
    apply H5 in Hs. congruence. }
  intros p [[k Hp]|[o Hs]]; eauto.
Qed.

Lemma pending_running_correspondence_witness :
  let w := (run [Request "u|Movies"; Request "v|Tv"; Request "u|Movies";
                 Settle 1%nat (Rejected (new_Error "boom"))] (initial 0)).1 in
  reachable w
  ∧ (nzbdavStreamCache w !! "u|Movies" = Some (EntryPending 0%nat)
     ↔ running w !! 0%nat = Some "u|Movies")
  ∧ settled w !! 0%nat = None.
Proof.
  intros w.
  assert (H : reachable w) by (apply reachable_run, reach_init; lia).
  destruct (pending_running_correspondence w H) as (H1 & _ & H3 & _).
  split; [exact H|]. split; [apply H1|]. apply H3. by eexists.
Defined.

Lemma built_keys_step ev w :
  inv w →
  (∀ k, is_Some (nzbdavStreamCache w !! k) → k ∈ builderCalls w) →
  ∀ k, is_Some (nzbdavStreamCache (step ev w).1 !! k) →
       k ∈ builderCalls (step ev w).1.
Proof.
  intros Hinv IH k. destruct ev as [k'|p o|ms]; simpl.
  - unfold getOrCreateNzbdavStream.
    assert (Hcl : is_Some (cleanupNzbdavCache (clock w) (nzbdavStreamCache w) !! k)
                  → k ∈ builderCalls w).
    { intros [e He]. apply cleanup_Some in He as [He _]. apply IH. by eexists. }
    destruct (cleanupNzbdavCache _ _ !! k') as [[]|]; simpl; try done.
    destruct (decide (k' = k)) as [->|Hne].
    + intros _. apply elem_of_cons. by left.
    + rewrite lookup_insert_ne by done. intros H. apply elem_of_cons. right. auto.
  - unfold settleBuilder. destruct (running w !! p) as [k'|] eqn:Hp; [|apply IH].
    simpl. pose proof (inv_running _ Hinv _ _ Hp) as Hk'.
    destruct (decide (k' = k)) as [->|Hne].
    + intros _. apply IH. by eexists.
    + destruct o as [d|e]; [|destruct (isNzbdavFailure e)].
      all: rewrite ?lookup_insert_ne, ?lookup_delete_ne by done; apply IH.
  - apply IH.
Qed.

Lemma built_keys w :
  reachable w → ∀ k, is_Some (nzbdavStreamCache w !! k) → k ∈ builderCalls w.
Proof.
  induction 1 as [t0 Ht|w ev Hw IH].
  - intros k [e He]. done.
  - apply built_keys_step; [by apply reachable_inv | done].
Qed.

(** X3 — the map only ever holds keys for which the builder was called, so
    it never holds more entries than there were builder calls. *)
Theorem cache_holds_built_keys (w : world) :
  reachable w →
  (∀ k, is_Some (nzbdavStreamCache w !! k) → k ∈ builderCalls w)
  ∧ (size (nzbdavStreamCache w) ≤ length (builderCalls w))%nat.
Proof.
  intros Hw. pose proof (built_keys w Hw) as Hk. split; [exact Hk|].
  rewrite <- length_map_to_list.
  rewrite <- (length_fmap fst).
  apply NoDup_incl_length.
  - apply NoDup_ListNoDup, NoDup_fst_map_to_list.
  - intros k Hin. apply list_elem_of_In. apply list_elem_of_In in Hin.
    apply list_elem_of_fmap in Hin as ([k' e] & -> & He).
    apply elem_of_map_to_list in He. apply Hk. by eexists.
Qed.

Lemma cache_holds_built_keys_witness :
  let w := (run [Request "u|Movies"; Request "v|Tv"; Request "u|Movies"]
              (initial 0)).1 in
  reachable w
  ∧ (size (nzbdavStreamCache w) ≤ length (builderCalls w))%nat.
Proof.
  intros w.
  assert (H : reachable w) by (apply reachable_run, reach_init; lia).
  destruct (cache_holds_built_keys w H) as [_ H2].
  split; [exact H | exact H2].
Defined.

(** X4 — no result outlives its time to live: whenever a request is handed
    a memoized result or a memoized failure, the entry it comes from was
    committed less than one TTL before the request, and the request calls
    no builder. *)
Theorem memoized_is_fresh (w : world) (k : string) :
  reachable w →
  match (getOrCreateNzbdavStream k w).1 with
  | Returned data =>
      ∃ x, nzbdavStreamCache w !! k = Some (EntryReady data (Some x))
           ∧ x - NZBDAV_CACHE_TTL_MS ≤ clock w < x
           ∧ builderCalls (getOrCreateNzbdavStream k w).2 = builderCalls w
  | Threw err =>
      ∃ x, nzbdavStreamCache w !! k = Some (EntryFailed err (Some x))
           ∧ x - NZBDAV_CACHE_TTL_MS ≤ clock w < x
           ∧ builderCalls (getOrCreateNzbdavStream k w).2 = builderCalls w
  | Awaits p =>
      nzbdavStreamCache (getOrCreateNzbdavStream k w).2 !! k
      = Some (EntryPending p)
  end.
Proof.
  intros Hw. pose proof (reachable_inv _ Hw) as Hinv.
  unfold getOrCreateNzbdavStream.
  destruct (cleanupNzbdavCache _ _ !! k) as [[d x|p|e x]|] eqn:Hk; simpl.
  - apply cleanup_Some in Hk as [Hc Hexp].
    destruct (inv_entries _ Hinv _ _ Hc) as (z & -> & Hz & Hle).
    exists z. split; [done|]. split; [|done].
    unfold expired in Hexp. simpl in Hexp.
    replace (truthy_num z) with true in Hexp
      by (symmetry; apply negb_true_iff, Z.eqb_neq; lia).
    simpl in Hexp. apply Z.leb_gt in Hexp. lia.
  - done.
  - apply cleanup_Some in Hk as [Hc Hexp].
    destruct (inv_entries _ Hinv _ _ Hc) as (z & -> & Hz & Hle).
    exists z. split; [done|]. split; [|done].
    unfold expired in Hexp. simpl in Hexp.
    replace (truthy_num z) with true in Hexp
      by (symmetry; apply negb_true_iff, Z.eqb_neq; lia).
    simpl in Hexp. apply Z.leb_gt in Hexp. lia.
  - by rewrite lookup_insert_eq.
Qed.

Lemma memoized_is_fresh_witness :
  let data := StreamData "nzo1" "Movies" "J" "content/Movies/J/j.mkv" 7 in
  let w := (run [Request "u|Movies"; Tick 5000; Settle 0%nat (Resolved data);
                 Tick 1000000] (initial 0)).1 in
  reachable w
  ∧ (getOrCreateNzbdavStream "u|Movies" w).1 = Returned data
  ∧ ∃ x, nzbdavStreamCache w !! "u|Movies" = Some (EntryReady data (Some x))
         ∧ x - NZBDAV_CACHE_TTL_MS ≤ clock w < x.
Proof.
  intros data w.
  assert (H : reachable w) by (apply reachable_run, reach_init; lia).
  pose proof (memoized_is_fresh w "u|Movies" H) as Hm.
  split; [exact H|]. split; [reflexivity|].
  change ((getOrCreateNzbdavStream "u|Movies" w).1) with (Returned data) in Hm.
  destruct Hm as (x & Hx & Hr & _). exists x. split; [exact Hx | exact Hr].
Defined.

End CacheExtras.

(** ** Further properties of the submitter and the poller *)

Module PollerExtras.
Import Poller.

Lemma js_or_find a b :
  truthy (js_or a b) = truthy a || truthy b.
Proof. unfold js_or. by destruct (truthy a) eqn:Ha; [rewrite Ha|]. Qed.

Lemma find_truthy_cons a l :
  List.find truthy (a :: l) = if truthy a then Some a else List.find truthy l.
Proof. reflexivity. Qed.

(** An alias chain picks the first truthy operand. *)
Lemma js_or_chain a b c d e :
  truthy (js_or (js_or (js_or (js_or a b) c) d) e) = true →
  List.find truthy [a; b; c; d; e]
  = Some (js_or (js_or (js_or (js_or a b) c) d) e).
Proof.
  unfold js_or. simpl.
  destruct (truthy a) eqn:Ha; simpl; rewrite ?Ha; simpl; [by rewrite ?Ha|].
  destruct (truthy b) eqn:Hb; simpl; rewrite ?Hb; simpl; [done|].
  destruct (truthy c) eqn:Hc; simpl; rewrite ?Hc; simpl; [done|].
  destruct (truthy d) eqn:Hd; simpl; rewrite ?Hd; simpl; [done|].
  intros He. by rewrite He.
Qed.

(** X5 — the submitter fails fast and normalises the job id.  With a
    missing setting, an empty download URL or an empty category the result
    is one unmarked error whatever the manager would answer; a job id that
    is returned is not empty and is the first non-empty one of [nzo_id],
    [nzoId], [NzoId], [nzo_ids[0]] and [queue[0].nzo_id] of an answer whose
    status flag is set; an answer with the flag set and none of the five is
    an error. *)
Theorem submit_fail_fast_and_job_id (cfg : config) (reply : http addurl_data)
    (nzbUrl category jobLabel : string) :
  ((ensureNzbdavConfigured cfg ≠ None ∨ nzbUrl = "" ∨ category = "") →
   ∃ e, isNzbdavFailure e = false
        ∧ ∀ reply', addNzbToNzbdav cfg reply' nzbUrl category jobLabel = Throw e)
  ∧ (∀ nzoId,
       addNzbToNzbdav cfg reply nzbUrl category jobLabel = Ok nzoId →
       nzoId ≠ ""
       ∧ ensureNzbdavConfigured cfg = None ∧ nzbUrl ≠ "" ∧ category ≠ ""
       ∧ ∃ data,
           reply = Responded data ∧ ad_status data = true
           ∧ List.find truthy
               [ad_nzo_id data; ad_nzoId data; ad_NzoId data;
                ad_nzo_ids_0 data; ad_queue_0_nzo_id data] = Some (Some nzoId))
  ∧ (∀ data,
       reply = Responded data → ad_status data = true →
       List.find truthy
         [ad_nzo_id data; ad_nzoId data; ad_NzoId data;
          ad_nzo_ids_0 data; ad_queue_0_nzo_id data] = None →
       ensureNzbdavConfigured cfg = None → nzbUrl ≠ "" → category ≠ "" →
       addNzbToNzbdav cfg reply nzbUrl category jobLabel
       = Throw (new_Error "[NZBDAV] addurl succeeded but no nzo_id returned")).
Proof.
  split; [|split].
  - intros Hbad. unfold addNzbToNzbdav.
    destruct (ensureNzbdavConfigured cfg) as [e|] eqn:Hc.
    { exists e. split; [|done]. by eapply PollerFacts.ensure_not_failure. }
    destruct Hbad as [?|[ -> | -> ]]; [done| |].
    + exists (new_Error "Missing NZB download URL"). by split.
    + destruct (String.eqb nzbUrl "").
      * exists (new_Error "Missing NZB download URL"). by split.
      * exists (new_Error "Missing NZBDav category"). by split.
  - intros nzoId. unfold addNzbToNzbdav.
    destruct (ensureNzbdavConfigured cfg) as [e|] eqn:Hc; [done|].
    destruct (String.eqb nzbUrl "") eqn:Hu; [done|].
    destruct (String.eqb category "") eqn:Hcat; [done|].
    destruct reply as [data|ce]; [|done].
    destruct (ad_status data) eqn:Hst; [|done]. cbn [negb].
    set (v := js_or _ (ad_queue_0_nzo_id data)).
    destruct (truthy v) eqn:Hv; [|done]. cbn [negb]. intros [= <-].
    assert (Hsome : v = Some (or_else v "") ∧ or_else v "" ≠ "").
    { unfold truthy in Hv. destruct v as [x|]; [|done]. unfold or_else.
      apply negb_true_iff in Hv. rewrite Hv. split; [done|].
      by apply String.eqb_neq. }
    destruct Hsome as [Hv' Hne]. split; [done|]. split; [done|].
    split; [by apply String.eqb_neq|]. split; [by apply String.eqb_neq|].
    exists data. split; [done|]. split; [done|].
    rewrite <- Hv'. by apply js_or_chain.
  - intros data -> Hst Hnone Hc Hu Hcat. unfold addNzbToNzbdav.
    rewrite Hc, Hst.
    apply String.eqb_neq in Hu, Hcat. rewrite Hu, Hcat. cbn [negb].
    set (v := js_or _ (ad_queue_0_nzo_id data)).
    destruct (truthy v) eqn:Hv; [|done].
    rewrite (js_or_chain _ _ _ _ _ Hv) in Hnone. done.
Qed.

Lemma poll_once_return nzoId category r s :
  poll_once nzoId category r = Return s →
  ∃ data, r = Responded data ∧ hd_status data = true
    ∧ find_slot nzoId (hd_slots data) = Some s
    ∧ toLowerCase (or_else (js_or (status s) (Status s)) "") = "completed".
Proof.
  unfold poll_once. destruct r as [data|ce]; [|done].
  destruct (hd_status data) eqn:Hst; simpl; [|done].
  destruct (find_slot nzoId (hd_slots data)) as [s'|] eqn:Hs; [|done].
  destruct (String.eqb _ "completed") eqn:Hc.
  - intros [= <-]. apply String.eqb_eq in Hc. by exists data.
  - by destruct (String.eqb _ "failed").
Qed.

Lemma poll_loop_return polls nzoId category deadline fuel : ∀ i now log p s,
  poll_loop polls nzoId category deadline fuel i now log = Some p →
  ended p = Ok s →
  ∃ j, poll_once nzoId category (reply (polls j)) = Return s.
Proof.
  induction fuel as [|fuel IH]; intros i now log p s; simpl; [done|].
  destruct (now <? deadline); [|by intros [= <-]].
  destruct (poll_once nzoId category (reply (polls i))) as [s'|e0|] eqn:Hv.
  - intros [= <-] [= <-]. by exists i.
  - by intros [= <-].
  - apply IH.
Qed.

Lemma find_first {A} (f : A → bool) l x :
  List.find f l = Some x →
  f x = true ∧ ∃ l1 l2, l = l1 ++ x :: l2 ∧ ∀ y, y ∈ l1 → f y = false.
Proof.
  induction l as [|a l IH]; simpl; [done|].
  destruct (f a) eqn:Ha.
  - intros [= <-]. split; [done|]. exists [], l. split; [done|].
    intros y Hy. by apply elem_of_nil in Hy.
  - intros Hx. destruct (IH Hx) as (Hfx & l1 & l2 & -> & Hl1).
    split; [done|]. exists (a :: l1), l2. split; [done|].
    intros y Hy. apply elem_of_cons in Hy as [->|Hy]; auto.
Qed.

(** X6 — the slot the poller returns is the job's own: its id (under
    [nzo_id], [nzoId] or [NzoId]) is the job id that was asked for, its
    status reads [completed] in any letter case, and it is the first slot
    with that id in a history answer whose status flag is set — a completed
    slot of another job is never returned. *)
Theorem returned_slot_is_the_jobs (cfg : config) (polls : nat → poll)
    (nzoId category : string) (now : Z) (p : polling) (s : slot) :
  waitForNzbdavHistorySlot cfg polls nzoId category now = Some p →
  ended p = Ok s →
  js_or (js_or (nzo_id s) (slot_nzoId s)) (NzoId s) = Some nzoId
  ∧ toLowerCase (or_else (js_or (status s) (Status s)) "") = "completed"
  ∧ ∃ j data before after,
      reply (polls j) = Responded data ∧ hd_status data = true
      ∧ hd_slots data = before ++ s :: after
      ∧ ∀ other, other ∈ before →
          js_or (js_or (nzo_id other) (slot_nzoId other)) (NzoId other)
          ≠ Some nzoId.
Proof.
  unfold waitForNzbdavHistorySlot.
  destruct (ensureNzbdavConfigured cfg); [by intros [= <-]|].
  intros Hp Hs. destruct (poll_loop_return _ _ _ _ _ _ _ _ _ _ Hp Hs) as [j Hj].
  apply poll_once_return in Hj as (data & Hr & Hst & Hfind & Hc).
  apply find_first in Hfind as (Hm & l1 & l2 & Hsl & Hl1).
  unfold slot_matches in Hm. apply bool_decide_eq_true in Hm.
  split; [done|]. split; [done|].
  exists j, data, l1, l2. split; [done|]. split; [done|]. split; [done|].
  intros other Ho. apply Hl1 in Ho. unfold slot_matches in Ho.
  by apply bool_decide_eq_false in Ho.
Qed.

Lemma returned_slot_is_the_jobs_witness :
  let s := Fixtures.history_slot "nzo1" "Completed" "My.Movie.2024" None in
  let p := Polling (Ok s) [1000; 3150; 5300] in
  waitForNzbdavHistorySlot Fixtures.sample_config Fixtures.polls_completed
    "nzo1" "Movies" 1000 = Some p
  ∧ ended p = Ok s
  ∧ js_or (js_or (nzo_id s) (slot_nzoId s)) (NzoId s) = Some "nzo1".
Proof.
  intros s p.
  assert (H1 : waitForNzbdavHistorySlot Fixtures.sample_config
                 Fixtures.polls_completed "nzo1" "Movies" 1000 = Some p)
    by (vm_compute; reflexivity).
  assert (H2 : ended p = Ok s) by reflexivity.
  destruct (returned_slot_is_the_jobs _ _ _ _ _ p s H1 H2) as (H3 & _).
  split; [exact H1|]. split; [exact H2 | exact H3].
Defined.

End PollerExtras.

(** ** Further properties of the locator: paths *)

Module PathExtras.
Import Locator Paths.

Lemma replace_backslashes_free s : no_backslash (replace_backslashes s).
Proof.
  unfold no_backslash, Proxy.free_of. induction s as [|c s IH]; simpl; [done|].
  rewrite IH, andb_true_r. destruct (Ascii.eqb c "\") eqn:Hc; [done|].
  by rewrite Hc.
Qed.

Lemma replace_backslashes_id s : no_backslash s → replace_backslashes s = s.
Proof.
  unfold no_backslash, Proxy.free_of. induction s as [|c s IH]; simpl; [done|].
  intros H. apply andb_true_iff in H as [Hc Hs]. apply negb_true_iff in Hc.
  by rewrite Hc, IH.
Qed.

Lemma replace_backslashes_app s1 s2 :
  replace_backslashes (s1 +:+ s2)
  = replace_backslashes s1 +:+ replace_backslashes s2.
Proof. induction s1 as [|c s1 IH]; simpl; [done|]. by rewrite IH. Qed.

Lemma no_backslash_app s1 s2 :
  no_backslash s1 → no_backslash s2 → no_backslash (s1 +:+ s2).
Proof.
  unfold no_backslash, Proxy.free_of. intros H1 H2.
  rewrite ProxyFacts.list_of_append, forallb_app. by rewrite H1, H2.
Qed.

Lemma normalize_cases p :
  normalizeNzbdavPath p
  = if String.eqb p "" then "/"
    else match replace_backslashes p with
         | String "/" _ => replace_backslashes p
         | _ => "/" +:+ replace_backslashes p
         end.
Proof. reflexivity. Qed.

Lemma normalize_fix rest :
  no_backslash rest → normalizeNzbdavPath (String "/" rest) = String "/" rest.
Proof.
  intros Hr. rewrite normalize_cases. simpl.
  by rewrite (replace_backslashes_id rest Hr).
Qed.

Lemma normalize_shape p :
  ∃ rest, normalizeNzbdavPath p = String "/" rest ∧ no_backslash rest.
Proof.
  rewrite normalize_cases. destruct (String.eqb p ""); [by exists ""|].
  pose proof (replace_backslashes_free p) as Hfree.
  destruct (replace_backslashes p) as [|c r] eqn:Hr.
  - by exists "".
  - destruct (Ascii.eqb c "/") eqn:Hc.
    + apply Ascii.eqb_eq in Hc as ->. exists r. split; [done|].
      unfold no_backslash, Proxy.free_of in *. simpl in Hfree. exact Hfree.
    + exists (String c r). split; [|done].
      destruct c as [[] [] [] [] [] [] [] []]; try done.
Qed.

(** X7 — path normalisation: the result always starts with a slash and
    holds no backslash; normalising twice is normalising once; a path that
    starts with a slash and holds no backslash is left as it is; and the
    empty path becomes the root. *)
Theorem normalize_path_facts (p : string) :
  (∃ rest, normalizeNzbdavPath p = String "/" rest)
  ∧ no_backslash (normalizeNzbdavPath p)
  ∧ normalizeNzbdavPath (normalizeNzbdavPath p) = normalizeNzbdavPath p
  ∧ (∀ rest, no_backslash rest →
       normalizeNzbdavPath (String "/" rest) = String "/" rest)
  ∧ normalizeNzbdavPath "" = "/".
Proof.
  destruct (normalize_shape p) as (rest & Hn & Hfree).
  split; [by exists rest|]. split.
  { rewrite Hn. unfold no_backslash, Proxy.free_of in *. simpl. by rewrite Hfree. }
  split; [rewrite Hn; by apply normalize_fix|].
  split; [exact normalize_fix | reflexivity].
Qed.

Lemma append_assoc (a b c : string) : (a +:+ b) +:+ c = a +:+ (b +:+ c).
Proof.
  induction a as [|x a IH]; [done|].
  change (String x ((a +:+ b) +:+ c) = String x (a +:+ b +:+ c)). by f_equal.
Qed.

Lemma clean_no_backslash p : clean p → no_backslash p.
Proof.
  intros (rest & -> & H). unfold no_backslash, Proxy.free_of in *. simpl.
  by rewrite H.
Qed.

Lemma nextPath_clean p e :
  clean p →
  nextPath p e = p +:+ "/" +:+ replace_backslashes (entryName_text e)
  ∧ clean (nextPath p e).
Proof.
  intros Hp. pose proof (clean_no_backslash p Hp) as Hfree.
  destruct Hp as (rest & -> & Hrest).
  assert (Heq : nextPath (String "/" rest) e
                = String "/" rest +:+ "/"
                  +:+ replace_backslashes (entryName_text e)).
  { unfold nextPath. rewrite normalize_cases. cbn [String.eqb String.append].
    change (Ascii.eqb "/" "\") with false. cbn [replace_backslashes].
    change (Ascii.eqb "/" "\") with false. cbv iota.
    rewrite !replace_backslashes_app. simpl.
    by rewrite (replace_backslashes_id rest Hrest). }
  split; [exact Heq|]. rewrite Heq.
  exists (rest +:+ "/" +:+ replace_backslashes (entryName_text e)).
  split; [done|]. apply no_backslash_app; [done|].
  apply (no_backslash_app "/"); [done|]. apply replace_backslashes_free.
Qed.

Lemma length_append (a b : string) :
  String.length (a +:+ b) = (String.length a + String.length b)%nat.
Proof.
  induction a as [|x a IH]; [done|].
  change (S (String.length (a +:+ b)) = S (String.length a + String.length b)).
  by rewrite IH.
Qed.

Lemma length_replace_backslashes s :
  String.length (replace_backslashes s) = String.length s.
Proof. induction s as [|c s IH]; simpl; [done|]. by rewrite IH. Qed.

Lemma normalize_length p :
  (String.length p ≤ String.length (normalizeNzbdavPath p))%nat.
Proof.
  rewrite normalize_cases. destruct (String.eqb p "") eqn:Hp.
  { apply String.eqb_eq in Hp as ->. simpl. lia. }
  pose proof (length_replace_backslashes p) as Hlen.
  destruct (replace_backslashes p) as [|c r]; [simpl in *; lia|].
  assert (String.length p ≤ String.length ("/" +:+ String c r))%nat.
  { rewrite length_append. simpl in *. lia. }
  destruct c as [[] [] [] [] [] [] [] []]; first [done | lia].
Qed.

Lemma nextPath_longer p e :
  (String.length p < String.length (nextPath p e))%nat.
Proof.
  unfold nextPath.
  pose proof (normalize_length (p +:+ "/" +:+ entryName_text e)) as H.
  rewrite !length_append in H. simpl in H. lia.
Qed.

Lemma under_child root p e :
  clean p → under root p → under root (nextPath p e).
Proof.
  intros Hp Hu. destruct (nextPath_clean p e Hp) as [-> _]. right.
  destruct Hu as [->|[rest ->]].
  - by eexists.
  - exists (rest +:+ "/" +:+ replace_backslashes (entryName_text e)).
    by rewrite !append_assoc.
Qed.

Section Walked.
Variables (sh : share) (requestedEpisode : option requested_episode).
Variables (root : string) (w : walk).
Hypothesis Hinv : walk_inv sh requestedEpisode root w.
Hypothesis Hroot : clean root.

Lemma items_under_root item :
  item ∈ queue w ++ listed w → clean item.1 ∧ under root item.1.
Proof.
  assert (H : ∀ n item, (String.length item.1 < n)%nat →
                item ∈ queue w ++ listed w → clean item.1 ∧ under root item.1).
  { clear item. induction n as [|n IH]; intros item Hlen Hin; [lia|].
    destruct (wi_origin _ _ _ _ Hinv item Hin)
      as [->|(parent & Hpar & entries & e & _ & _ & _ & ->)].
    - split; [done | by left].
    - cbn [fst] in *. pose proof (nextPath_longer parent.1 e) as Hl.
      destruct (IH parent) as [Hc Hu]; [lia| |].
      { apply elem_of_app. by right. }
      split; [by apply nextPath_clean | by apply under_child]. }
  apply (H (S (String.length item.1))). lia.
Qed.

Lemma candidate_origin c :
  c ∈ discovered w →
  ∃ item e, item ∈ listed w ∧ is_video e = true
            ∧ c = candidate_of requestedEpisode item.1 e.
Proof.
  rewrite (wi_found _ _ _ _ Hinv). unfold found. intros H.
  apply list_elem_of_In, in_flat_map in H as (item & Hitem & H).
  unfold videos in H. apply in_map_iff in H as (e & <- & He).
  apply List.filter_In in He as [_ He]. exists item, e.
  split; [by apply list_elem_of_In | done].
Qed.

Lemma candidate_path c :
  c ∈ discovered w →
  ∃ rest, absolutePath c = root +:+ "/" +:+ rest ∧ clean (absolutePath c)
          ∧ viewPath c = strip_leading_slashes (absolutePath c).
Proof.
  intros Hc. destruct (candidate_origin c Hc) as (item & e & Hitem & _ & ->).
  destruct (items_under_root item) as [Hclean Hunder].
  { apply elem_of_app. by right. }
  cbn [absolutePath viewPath candidate_of].
  pose proof (under_child root item.1 e Hclean Hunder) as Hu.
  destruct (nextPath_clean item.1 e Hclean) as [Heq Hcl].
  destruct Hu as [Hu|[rest Hu]].
  - pose proof (nextPath_longer item.1 e) as Hl. rewrite Hu in Hl.
    destruct Hunder as [Hr|[rest Hr]]; rewrite Hr in Hl.
    + lia.
    + rewrite !length_append in Hl. lia.
  - by exists rest.
Qed.

End Walked.

(** X8 — the paths of the traversal.  The root is the normalised
    [/content/<category>/<jobName>]; every path that is listed is the root
    or lies below it, starts with a slash and holds no backslash; every
    candidate's absolute path lies below the root, and its view path is
    that path without its leading slash, so that normalising the view path
    (as the proxy does) gives the absolute path back. *)
Theorem paths_stay_under_root (sh : share) (category jobName : string)
    (requestedEpisode : option requested_episode) :
  ∃ w,
    locate sh category jobName requestedEpisode = Some w
    ∧ (∃ rest, rootPath category jobName = "/content/" +:+ rest)
    ∧ (∀ p d, (p, d) ∈ listed w →
         under (rootPath category jobName) p ∧ clean p)
    ∧ (∀ c, c ∈ discovered w →
         (∃ rest, absolutePath c = rootPath category jobName +:+ "/" +:+ rest)
         ∧ absolutePath c = "/" +:+ viewPath c
         ∧ no_backslash (viewPath c)
         ∧ normalizeNzbdavPath (viewPath c) = absolutePath c).
Proof.
  destruct (LocatorFacts.locate_ends sh category jobName requestedEpisode)
    as (w & Hw & Hinv & _).
  exists w. split; [exact Hw|].
  assert (Hroot : rootPath category jobName
                  = "/content/" +:+ replace_backslashes
                                      (category +:+ "/" +:+ jobName)).
  { unfold rootPath. rewrite normalize_cases.
    change ("/content/" +:+ category +:+ "/" +:+ jobName)
      with (String "/" ("content/" +:+ category +:+ "/" +:+ jobName)).
    cbn [String.eqb replace_backslashes].
    change (Ascii.eqb "/" "\") with false. cbv iota.
    by rewrite (replace_backslashes_app "content/"). }
  assert (Hclean : clean (rootPath category jobName)).
  { destruct (normalize_shape ("/content/" +:+ category +:+ "/" +:+ jobName))
      as (rest & Hn & Hfree). by exists rest. }
  split; [by eexists|]. split.
  - intros p d Hin.
    destruct (items_under_root sh requestedEpisode _ w Hinv Hclean (p, d))
      as [Hc Hu]; [apply elem_of_app; by right|]. by split.
  - intros c Hc.
    destruct (candidate_path sh requestedEpisode _ w Hinv Hclean c Hc)
      as (rest & Habs & Hcl & Hview).
    split; [by exists rest|].
    pose proof (clean_no_backslash _ Hcl) as Hfree.
    rewrite Hview. rewrite Habs, Hroot in *.
    set (tail := replace_backslashes (category +:+ "/" +:+ jobName)
                 +:+ "/" +:+ rest) in *.
    assert (Heq : ("/content/" +:+ replace_backslashes
                                   (category +:+ "/" +:+ jobName))
                  +:+ "/" +:+ rest
                  = String "/" ("content/" +:+ tail)).
    { unfold tail. by rewrite append_assoc. }
    rewrite Heq in *. cbn [strip_leading_slashes String.append].
    assert (Hv : no_backslash ("content/" +:+ tail)).
    { unfold no_backslash, Proxy.free_of in *. simpl in Hfree. exact Hfree. }
    split; [done|]. split; [exact Hv|].
    change (strip_leading_slashes ("content/" +:+ tail))
      with ("content/" +:+ tail).
    rewrite normalize_cases. rewrite (replace_backslashes_id _ Hv). done.
Qed.

End PathExtras.

(** ** Further properties of the locator: the choice among equals *)

Module SelectionExtras.
Import Locator.

Lemma fold_better_first cs : ∀ b0 b,
  fold_left better cs b0 = Some b →
  (b0 = Some b ∧ ∀ c, c ∈ cs → c_size c ≤ c_size b)
  ∨ ∃ before after,
      cs = before ++ b :: after
      ∧ (∀ c, c ∈ before → c_size c < c_size b)
      ∧ (∀ b', b0 = Some b' → c_size b' < c_size b)
      ∧ (∀ c, c ∈ after → c_size c ≤ c_size b).
Proof.
  induction cs as [|c cs IH]; intros b0 b Hb; simpl in Hb.
  { left. split; [done|]. intros c Hc. by apply elem_of_nil in Hc. }
  destruct (IH _ _ Hb) as [[Hbet Hle]|(before & after & -> & Hlt & Hb0 & Hle)].
  - unfold better in Hbet. destruct b0 as [b1|].
    + destruct (c_size b1 <? c_size c) eqn:Hcmp; injection Hbet as ->.
      * right. exists [], cs. apply Z.ltb_lt in Hcmp. split; [done|].
        split; [intros c' Hc'; by apply elem_of_nil in Hc'|].
        split; [by intros b' [= <-]|done].
      * left. apply Z.ltb_ge in Hcmp. split; [done|]. intros c' Hc'.
        apply elem_of_cons in Hc' as [ -> |Hc']; [done | by apply Hle].
    + injection Hbet as ->. right. exists [], cs. split; [done|].
      split; [intros c' Hc'; by apply elem_of_nil in Hc'|]. by split.
  - right. exists (c :: before), after. split; [done|].
    assert (Hc : c_size c < c_size b
                 ∧ ∀ b', b0 = Some b' → c_size b' < c_size b).
    { unfold better in Hb0. destruct b0 as [b1|].
      - destruct (c_size b1 <? c_size c) eqn:Hcmp.
        + apply Z.ltb_lt in Hcmp. specialize (Hb0 c eq_refl).
          split; [done|]. intros b' [= <-]. lia.
        + apply Z.ltb_ge in Hcmp. specialize (Hb0 b1 eq_refl).
          split; [lia|]. by intros b' [= <-].
      - split; [by apply Hb0 | done]. }
    destruct Hc as [Hc Hb0']. split; [|by split].
    intros c' Hc'. apply elem_of_cons in Hc' as [ -> |Hc']; [done | by apply Hlt].
Qed.

Lemma best_of_first cs b :
  best_of cs = Some b →
  ∃ before after,
    cs = before ++ b :: after
    ∧ (∀ c, c ∈ before → c_size c < c_size b)
    ∧ (∀ c, c ∈ after → c_size c ≤ c_size b).
Proof.
  intros H. destruct (fold_better_first cs None b H)
    as [[? _]|(before & after & ? & ? & _ & ?)]; [done|].
  by exists before, after.
Qed.

(** X9 — the choice among equals.  The chosen file is the first of the
    largest: in the order in which the candidates were built, every
    candidate of the pool before the chosen one is strictly smaller and
    every one after it is at most as large, where the pool is the
    candidates that match the requested episode when there is one, and all
    candidates otherwise. *)
Theorem first_of_the_largest (sh : share) (category jobName : string)
    (requestedEpisode : option requested_episode) :
  ∃ w,
    locate sh category jobName requestedEpisode = Some w
    ∧ ∀ c, selection w = Some c →
        let pool := if existsb matchesEpisode (discovered w)
                    then List.filter matchesEpisode (discovered w)
                    else discovered w in
        ∃ before after,
          pool = before ++ c :: after
          ∧ (∀ c', c' ∈ before → c_size c' < c_size c)
          ∧ (∀ c', c' ∈ after → c_size c' ≤ c_size c).
Proof.
  destruct (LocatorFacts.locate_ends sh category jobName requestedEpisode)
    as (w & Hw & [_ _ _ _ _ _ Hb Hbe] & _).
  exists w. split; [exact Hw|]. intros c Hsel pool. subst pool.
  unfold selection in Hsel. rewrite Hb, Hbe in Hsel.
  destruct (best_of (List.filter matchesEpisode (discovered w))) as [c1|] eqn:He.
  - injection Hsel as ->.
    destruct (best_of_first _ _ He) as (before & after & Heq & Hlt & Hle).
    assert (Hex : existsb matchesEpisode (discovered w) = true).
    { apply existsb_exists. exists c.
      apply List.filter_In. rewrite Heq. apply in_app_iff. right. by left. }
    rewrite Hex. by exists before, after.
  - pose proof (LocatorFacts.best_of_spec
                  (List.filter matchesEpisode (discovered w))) as Hnil.
    rewrite He in Hnil.
    assert (Hex : existsb matchesEpisode (discovered w) = false).
    { destruct (existsb matchesEpisode (discovered w)) eqn:Hex; [|done].
      apply existsb_exists in Hex as (c' & Hin & Hc').
      assert (List.In c' (List.filter matchesEpisode (discovered w)))
        by (by apply List.filter_In).
      rewrite Hnil in *. done. }
    rewrite Hex. by apply best_of_first.
Qed.

End SelectionExtras.

(** ** Further properties of the locator: file types *)

Module VideoExtras.
Import Locator Paths.

Lemma scan_app off l1 l2 st :
  scan off (l1 ++ l2) st = scan off l1 (scan (off + length l1) l2 st).
Proof.
  unfold scan. rewrite imap_app, rev_app_distr, fold_left_app. do 2 f_equal.
  f_equal. apply imap_ext. intros i c _. by rewrite Nat.add_assoc.
Qed.

Lemma scan_cons off c l st :
  scan off (c :: l) st = ext_scan_step (scan (S off) l st) (off, c).
Proof.
  change (c :: l) with ([c] ++ l). rewrite scan_app. cbn [length].
  rewrite Nat.add_1_r. unfold scan at 1. cbn. by rewrite Nat.add_0_r.
Qed.

Lemma scan_nil off st : scan off [] st = st.
Proof. reflexivity. Qed.

Lemma plain_spec c :
  plain c = true → Ascii.eqb c "." = false ∧ Ascii.eqb c "/" = false.
Proof.
  unfold plain. intros H. apply andb_true_iff in H as [H1 H2].
  by apply negb_true_iff in H1, H2.
Qed.

(** The scan of an extension's characters. *)
Lemma scan_ext x : ∀ off,
  x ≠ [] → forallb plain x = true →
  scan off x (ExtScan None 0 None true 0 false)
  = ExtScan None 0 (Some (off + length x)%nat) false 0 false.
Proof.
  induction x as [|c x IH]; intros off Hne Hx; [done|].
  cbn [forallb] in Hx. apply andb_true_iff in Hx as [Hc Hx].
  apply plain_spec in Hc as [Hdot Hslash]. rewrite scan_cons.
  destruct x as [|c' x'].
  - rewrite scan_nil. unfold ext_scan_step. cbn. rewrite Hdot, Hslash. cbn.
    by rewrite Nat.add_1_r.
  - rewrite IH; [|done|done]. unfold ext_scan_step. cbn.
    rewrite Hdot, Hslash. cbn. do 3 f_equal. lia.
Qed.

(** The scan of the rest of a file name, once the dot has been found. *)
Lemma scan_stem s : ∀ off sd e pd,
  forallb (λ c, negb (Ascii.eqb c "/")) s = true →
  ∃ pd',
    scan off s (ExtScan (Some sd) 0 (Some e) false pd false)
    = ExtScan (Some sd) 0 (Some e) false pd' false
    ∧ (s ≠ [] → pd' = 1 ∨ pd' = -1)
    ∧ (s = [] → pd' = pd).
Proof.
  induction s as [|c s IH]; intros off sd e pd Hs.
  { exists pd. by rewrite scan_nil. }
  cbn in Hs. apply andb_true_iff in Hs as [Hc Hs]. apply negb_true_iff in Hc.
  destruct (IH (S off) sd e pd Hs) as (pd1 & Heq & _).
  rewrite scan_cons, Heq. unfold ext_scan_step. cbn. rewrite Hc.
  destruct (Ascii.eqb c "."); eexists; (split; [reflexivity|]);
    (split; [intros _; auto | done]).
Qed.

(** Without a dot the scan finds no extension. *)
Lemma scan_no_dot l : ∀ off st,
  forallb (λ c, negb (Ascii.eqb c ".")) l = true →
  startDot (scan off l st) = startDot st.
Proof.
  induction l as [|c l IH]; intros off st Hl; [done|].
  cbn [forallb] in Hl. apply andb_true_iff in Hl as [Hc Hl].
  apply negb_true_iff in Hc. rewrite scan_cons.
  rewrite <- (IH (S off) st Hl). set (st' := scan (S off) l st).
  clearbody st'. destruct st' as [sd sp en ms pd stp].
  unfold ext_scan_step. rewrite Hc. cbn.
  destruct stp; [done|]. destruct (Ascii.eqb c "/"); [by destruct ms|].
  destruct en; cbn; by destruct sd.
Qed.

Lemma extname_scan path :
  extname path
  = let cs := String.list_ascii_of_string path in
    let st := scan 0 cs (ExtScan None 0 None true 0 false) in
    match startDot st, end_ st with
    | Some sd, Some e =>
        if (preDotState st =? 0)
           || ((preDotState st =? 1) && (sd =? e - 1)%nat
               && (sd =? startPart st + 1)%nat)
        then ""
        else String.string_of_list_ascii (take (e - sd) (drop sd cs))
    | _, _ => ""
    end.
Proof. reflexivity. Qed.

Lemma plain_chars x :
  Proxy.free_of "." x → Proxy.free_of "/" x →
  forallb plain (String.list_ascii_of_string x) = true.
Proof.
  unfold Proxy.free_of. induction x as [|c x IH]; cbn; [done|].
  intros H1 H2. apply andb_true_iff in H1 as [Hd H1].
  apply andb_true_iff in H2 as [Hs H2]. rewrite (IH H1 H2).
  unfold plain. by rewrite Hd, Hs.
Qed.

Lemma list_of_string_nil s : String.list_ascii_of_string s = [] → s = "".
Proof. by destruct s. Qed.

(** The extension of a simple file name is the text from its last dot. *)
Lemma extname_split stem x :
  stem ≠ "" → Proxy.free_of "/" stem →
  x ≠ "" → Proxy.free_of "." x → Proxy.free_of "/" x →
  extname (stem +:+ String "." x) = String "." x.
Proof.
  intros Hstem Hslash Hx Hxd Hxs. rewrite extname_scan.
  rewrite ProxyFacts.list_of_append. cbn [String.list_ascii_of_string].
  set (s := String.list_ascii_of_string stem).
  set (l := String.list_ascii_of_string x).
  assert (Hs : s ≠ []) by (intros H; by apply list_of_string_nil in H).
  assert (Hl : l ≠ []) by (intros H; by apply list_of_string_nil in H).
  cbv zeta. rewrite scan_app, scan_cons.
  rewrite (scan_ext l _ Hl (plain_chars x Hxd Hxs)).
  change (ext_scan_step _ ((0 + length s)%nat, "."%char))
    with (ExtScan (Some (0 + length s)%nat) 0
            (Some (S (0 + length s) + length l)%nat) false 0 false).
  destruct (scan_stem s 0 (0 + length s)%nat
              (S (0 + length s) + length l)%nat 0 Hslash)
    as (pd & -> & Hpd & _).
  cbn [startDot end_ preDotState startPart].
  assert (Hlen : (0 < length l)%nat) by (destruct l; [done | cbn; lia]).
  replace ((pd =? 0) || _) with false.
  2: { symmetry. apply orb_false_iff. split.
       - destruct (Hpd Hs) as [-> | ->]; done.
       - apply andb_false_iff. left. apply andb_false_iff. right.
         apply Nat.eqb_neq. lia. }
  replace (S (0 + length s) + length l - (0 + length s))%nat
    with (S (length l)) by lia.
  cbn [Nat.add]. rewrite drop_app_length.
  rewrite take_ge by (cbn; lia). cbn [String.string_of_list_ascii].
  unfold l. by rewrite String.string_of_list_ascii_of_string.
Qed.

Lemma extname_no_dot name : Proxy.free_of "." name → extname name = "".
Proof.
  intros H. rewrite extname_scan. cbv zeta.
  by rewrite (scan_no_dot _ 0%nat _ H).
Qed.

Lemma extname_bare x :
  Proxy.free_of "." x → Proxy.free_of "/" x → extname (String "." x) = "".
Proof.
  intros Hd Hs. rewrite extname_scan. cbn [String.list_ascii_of_string].
  cbv zeta. rewrite scan_cons.
  destruct (String.list_ascii_of_string x) as [|c l] eqn:Hx; [done|].
  rewrite scan_ext; [done|done|]. rewrite <- Hx. by apply plain_chars.
Qed.

Lemma lower_ascii_dot c : Ascii.eqb (lower_ascii c) "." = Ascii.eqb c ".".
Proof. by destruct c as [[] [] [] [] [] [] [] []]. Qed.

Lemma lower_ascii_slash c : Ascii.eqb (lower_ascii c) "/" = Ascii.eqb c "/".
Proof. by destruct c as [[] [] [] [] [] [] [] []]. Qed.

Lemma toLowerCase_app a b :
  toLowerCase (a +:+ b) = toLowerCase a +:+ toLowerCase b.
Proof.
  induction a as [|c a IH]; [done|].
  change (String (lower_ascii c) (toLowerCase (a +:+ b))
          = String (lower_ascii c) (toLowerCase a +:+ toLowerCase b)).
  by rewrite IH.
Qed.

Lemma toLowerCase_free_dot s :
  Proxy.free_of "." s → Proxy.free_of "." (toLowerCase s).
Proof.
  unfold Proxy.free_of. induction s as [|c s IH]; cbn; [done|].
  intros H. apply andb_true_iff in H as [Hc H].
  by rewrite lower_ascii_dot, Hc, IH.
Qed.

Lemma toLowerCase_free_slash s :
  Proxy.free_of "/" s → Proxy.free_of "/" (toLowerCase s).
Proof.
  unfold Proxy.free_of. induction s as [|c s IH]; cbn; [done|].
  intros H. apply andb_true_iff in H as [Hc H].
  by rewrite lower_ascii_slash, Hc, IH.
Qed.

(** X10 — a file's type is read off the text after its last dot, whatever
    the letter case: a name made of a non-empty stem without a slash, a dot
    and a non-empty extension without dot or slash is a video exactly when
    the extension in lower case is one of the twelve known ones; a name
    without a dot is no video; and neither is a name that is nothing but a
    dot and an extension. *)
Theorem video_by_extension :
  (∀ stem x,
     stem ≠ "" → Proxy.free_of "/" stem →
     x ≠ "" → Proxy.free_of "." x → Proxy.free_of "/" x →
     isVideoFileName (stem +:+ String "." x)
     = bool_decide (String "." (toLowerCase x) ∈ NZBDAV_VIDEO_EXTENSIONS))
  ∧ (∀ fileName, Proxy.free_of "." fileName → isVideoFileName fileName = false)
  ∧ (∀ x, Proxy.free_of "." x → Proxy.free_of "/" x →
          isVideoFileName (String "." x) = false).
Proof.
  split; [|split].
  - intros stem x Hstem Hslash Hx Hxd Hxs. unfold isVideoFileName.
    rewrite toLowerCase_app.
    change (toLowerCase (String "." x)) with (String "." (toLowerCase x)).
    rewrite extname_split; [done| | | | |].
    + by destruct stem.
    + by apply toLowerCase_free_slash.
    + by destruct x.
    + by apply toLowerCase_free_dot.
    + by apply toLowerCase_free_slash.
  - intros fileName H. unfold isVideoFileName.
    by rewrite (extname_no_dot _ (toLowerCase_free_dot _ H)).
  - intros x Hd Hs. unfold isVideoFileName.
    change (toLowerCase (String "." x)) with (String "." (toLowerCase x)).
    by rewrite (extname_bare _ (toLowerCase_free_dot _ Hd)
                  (toLowerCase_free_slash _ Hs)).
Qed.

Example video_names :
  isVideoFileName "Show.S01E02.1080p.MKV" = true
  ∧ isVideoFileName "sample.mp4" = true
  ∧ isVideoFileName "movie.nfo" = false
  ∧ isVideoFileName "mkv" = false
  ∧ isVideoFileName ".mkv" = false.
Proof. by vm_compute. Qed.

End VideoExtras.

(** ** Further properties of the locator: episode names *)

Module EpisodeExtras.
Import JS Regex Locator Names.

Lemma upper_lower c : upper_ascii (lower_ascii c) = upper_ascii c.
Proof. by destruct c as [[] [] [] [] [] [] [] []]. Qed.

Lemma eq_char_ci a c : lower_ascii a = lower_ascii c → eq_char true a c = true.
Proof.
  intros H. unfold eq_char. rewrite <- (upper_lower a), H, upper_lower.
  apply Ascii.eqb_refl.
Qed.

Lemma matches_chr_ci a c s k :
  lower_ascii a = lower_ascii c → matches true (Chr c) (a :: s) k = k s.
Proof. intros H. cbn [matches]. by rewrite (eq_char_ci a c H). Qed.

Lemma matches_lit_ci cs : ∀ w rest k,
  map lower_ascii w = map lower_ascii cs →
  matches true (lit cs) (w ++ rest) k = k rest.
Proof.
  induction cs as [|c cs IH]; intros [|a w] rest k Hw; try done.
  injection Hw as Ha Hw. cbn [lit matches app].
  rewrite (eq_char_ci a c Ha). cbn [andb]. by apply IH.
Qed.

Lemma list_of_zeros n : String.list_ascii_of_string (zeros n) = replicate n "0"%char.
Proof. induction n as [|n IH]; cbn; [done|]. by rewrite IH. Qed.

Lemma star_zeros k rest : ∀ z n,
  (z ≤ n)%nat → k rest = true →
  star_iter (matches true (Chr "0")) k n (replicate z "0"%char ++ rest) = true.
Proof.
  induction z as [|z IH]; intros n Hn Hk.
  - destruct n; cbn; [done|]. rewrite Hk. apply orb_true_r.
  - destruct n as [|n]; [lia|]. cbn [replicate app star_iter matches].
    change (eq_char true "0" "0") with true. cbn [andb].
    rewrite IH; [|lia|done]. rewrite andb_true_r.
    replace (_ <? _)%nat with true; [done|]. symmetry. apply Nat.ltb_lt.
    cbn. lia.
Qed.

Lemma matches_zeros z rest k :
  k rest = true →
  matches true (Star (Chr "0")) (replicate z "0"%char ++ rest) k = true.
Proof.
  intros Hk. cbn [matches]. apply star_zeros; [|done].
  rewrite length_app, length_replicate. lia.
Qed.

Lemma test_from_skip ci r pre : ∀ s,
  matches ci r s (λ _, true) = true → test_from ci r (pre ++ s) = true.
Proof.
  induction pre as [|a pre IH]; intros s H.
  - destruct s; cbn; by rewrite H.
  - cbn. rewrite (IH s H). apply orb_true_r.
Qed.

Lemma not_digit_ahead post k :
  next_not_digit post = true → k (String.list_ascii_of_string post) = true →
  matches true NotDigitAhead (String.list_ascii_of_string post) k = true.
Proof. destruct post as [|a post]; cbn; [done|]. by intros -> ->. Qed.

Lemma matches_cat ci r1 r2 s k :
  matches ci (Cat r1 r2) s k = matches ci r1 s (λ s', matches ci r2 s' k).
Proof. reflexivity. Qed.

Lemma matches_class_ci a c c' s k :
  lower_ascii a = lower_ascii c →
  matches true (Class [c; c']) (a :: s) k = k s.
Proof. intros H. cbn [matches existsb]. by rewrite (eq_char_ci a c H). Qed.

Lemma matches_opt_take a s k :
  is_line_terminator a = false → k s = true →
  matches true (Opt Dot) (a :: s) k = true.
Proof. intros Ha Hk. cbn [matches]. by rewrite Ha, Hk. Qed.

Lemma matches_opt_skip ci r s k : k s = true → matches ci (Opt r) s k = true.
Proof. intros Hk. cbn [matches]. rewrite Hk. apply orb_true_r. Qed.

Lemma matches_star_skip ci r s k : k s = true → matches ci (Star r) s k = true.
Proof.
  intros Hk. cbn [matches]. destruct (length s); cbn [star_iter]; [done|].
  rewrite Hk. apply orb_true_r.
Qed.

Lemma list_of_toLowerCase s :
  String.list_ascii_of_string (toLowerCase s)
  = map lower_ascii (String.list_ascii_of_string s).
Proof. induction s as [|c s IH]; cbn; [done|]. by rewrite IH. Qed.

(** The word [Episode] or [Ep], in any letter case, before a rest. *)
Lemma matches_word ew r rest k :
  toLowerCase ew = "episode" ∨ toLowerCase ew = "ep" →
  matches true r rest k = true →
  matches true
    (Cat (Class ["e"; "E"]%char)
         (Cat (Alt (lit (String.list_ascii_of_string "pisode")) (Chr "p")) r))
    (String.list_ascii_of_string ew ++ rest) k = true.
Proof.
  intros Hew Hk.
  assert (H : ∃ e0 w, String.list_ascii_of_string ew = e0 :: w
                      ∧ lower_ascii e0 = "e"%char
                      ∧ (map lower_ascii w = String.list_ascii_of_string "pisode"
                         ∨ map lower_ascii w = ["p"%char])).
  { destruct ew as [|e0 w]; [by destruct Hew|]. exists e0, (String.list_ascii_of_string w).
    split; [done|]. cbn [toLowerCase] in Hew. rewrite <- list_of_toLowerCase.
    destruct Hew as [Hew|Hew]; injection Hew as -> ->; by auto. }
  destruct H as (e0 & w & -> & He0 & Hw). cbn [app].
  rewrite matches_cat, (matches_class_ci e0 "e" "E") by done.
  rewrite matches_cat. cbn [matches]. destruct Hw as [Hw|Hw].
  - rewrite (matches_lit_ci _ w rest) by done. rewrite Hk. done.
  - destruct w as [|p0 [|? ?]]; try done. injection Hw as Hp0. cbn [app].
    rewrite (eq_char_ci p0 "p" Hp0), Hk. apply orb_true_r.
Qed.

(** The text [0…0<n>] followed by a rest. *)
Lemma matches_number z (n : Z) r rest k :
  matches true r rest k = true →
  matches true
    (Cat (Star (Chr "0")) (Cat (lit (String.list_ascii_of_string (pretty n))) r))
    (String.list_ascii_of_string (zeros z +:+ pretty n) ++ rest) k = true.
Proof.
  intros Hk. rewrite ProxyFacts.list_of_append, list_of_zeros, <- app_assoc.
  rewrite matches_cat. apply matches_zeros.
  rewrite matches_cat. by rewrite matches_lit_ci.
Qed.

Lemma matches_end post :
  next_not_digit post = true →
  matches true (Cat NotDigitAhead Eps) (String.list_ascii_of_string post)
    (λ _, true) = true.
Proof. intros H. rewrite matches_cat. by apply not_digit_ahead. Qed.

Section Shapes.
Variables (req : requested_episode) (pre post : string) (z1 z2 : nat).
Hypothesis Hpost : next_not_digit post = true.

Local Abbreviation sn := (zeros z1 +:+ pretty (season req)).
Local Abbreviation en := (zeros z2 +:+ pretty (episode req)).

Lemma shape_SE sm em :
  lower_ascii sm = "s"%char → lower_ascii em = "e"%char →
  fileMatchesEpisode (pre +:+ String sm sn +:+ String em en +:+ post) (Some req)
  = true.
Proof.
  intros Hs He. unfold fileMatchesEpisode, episode_patterns.
  cbn [existsb]. apply orb_true_iff. left. unfold test.
  rewrite !ProxyFacts.list_of_append. cbn [String.list_ascii_of_string app].
  apply test_from_skip. unfold seq. cbn [foldr].
  rewrite matches_cat, (matches_chr_ci sm "s") by done.
  apply matches_number.
  cbn [app]. rewrite matches_cat, (matches_chr_ci em "e") by done.
  apply matches_number. by apply matches_end.
Qed.

Lemma shape_S_E sm em dot :
  lower_ascii sm = "s"%char → lower_ascii em = "e"%char →
  is_line_terminator dot = false →
  fileMatchesEpisode
    (pre +:+ String sm sn +:+ String dot (String em en) +:+ post) (Some req)
  = true.
Proof.
  intros Hs He Hdot. unfold fileMatchesEpisode, episode_patterns.
  cbn [existsb]. apply orb_true_iff. right. apply orb_true_iff. left.
  unfold test.
  rewrite !ProxyFacts.list_of_append. cbn [String.list_ascii_of_string app].
  apply test_from_skip. unfold seq. cbn [foldr].
  rewrite matches_cat, (matches_chr_ci sm "s") by done.
  apply matches_number.
  cbn [app]. rewrite matches_cat. apply matches_opt_take; [done|].
  rewrite matches_cat, (matches_chr_ci em "e") by done.
  apply matches_number. by apply matches_end.
Qed.

Lemma shape_NxM xm :
  lower_ascii xm = "x"%char →
  fileMatchesEpisode (pre +:+ sn +:+ String xm en +:+ post) (Some req) = true.
Proof.
  intros Hx. unfold fileMatchesEpisode, episode_patterns.
  cbn [existsb]. apply orb_true_iff. right. apply orb_true_iff. right.
  apply orb_true_iff. left. unfold test.
  rewrite (ProxyFacts.list_of_append pre), (ProxyFacts.list_of_append sn),
    (ProxyFacts.list_of_append (String xm en)).
  cbn [String.list_ascii_of_string app].
  apply test_from_skip. unfold seq. cbn [foldr].
  apply matches_number.
  rewrite matches_cat, (matches_class_ci xm "x" "X") by done.
  apply matches_number. by apply matches_end.
Qed.

Lemma shape_Ep ew :
  toLowerCase ew = "episode" ∨ toLowerCase ew = "ep" →
  fileMatchesEpisode (pre +:+ ew +:+ en +:+ post) (Some req) = true.
Proof.
  intros Hew. unfold fileMatchesEpisode, episode_patterns.
  cbn [existsb]. rewrite !orb_true_iff. do 3 right. left. unfold test.
  rewrite (ProxyFacts.list_of_append pre), (ProxyFacts.list_of_append ew),
    (ProxyFacts.list_of_append en).
  apply test_from_skip. unfold seq. cbn [foldr].
  apply matches_word; [done|].
  rewrite matches_cat. apply matches_opt_skip.
  rewrite matches_cat. apply matches_star_skip.
  apply matches_number. by apply matches_end.
Qed.

Lemma shape_Ep_sep ew dot :
  toLowerCase ew = "episode" ∨ toLowerCase ew = "ep" →
  is_line_terminator dot = false →
  fileMatchesEpisode (pre +:+ ew +:+ String dot en +:+ post) (Some req) = true.
Proof.
  intros Hew Hdot. unfold fileMatchesEpisode, episode_patterns.
  cbn [existsb]. rewrite !orb_true_iff. do 3 right. left. unfold test.
  rewrite (ProxyFacts.list_of_append pre), (ProxyFacts.list_of_append ew),
    (ProxyFacts.list_of_append (String dot en)).
  cbn [String.list_ascii_of_string app].
  apply test_from_skip. unfold seq. cbn [foldr].
  apply matches_word; [done|].
  rewrite matches_cat. apply matches_opt_take; [done|].
  rewrite matches_cat. apply matches_star_skip.
  apply matches_number. by apply matches_end.
Qed.

End Shapes.



End EpisodeExtras.

(** ** Decimal numerals *)

Module NumeralFacts.
Import JS Proxy Names.

Lemma pretty_N_char_digit y : is_digit (pretty_N_char y) = true.
Proof. unfold pretty_N_char. by repeat case_match. Qed.

Lemma pretty_N_char_value y :
  (y < 10)%N → digit_value (pretty_N_char y) = Z.of_N y.
Proof.
  intros Hy. assert (H : y ∈ [0; 1; 2; 3; 4; 5; 6; 7; 8; 9]%N).
  { rewrite !elem_of_cons. lia. }
  rewrite !elem_of_cons in H.
  destruct H as [ -> |[ -> |[ -> |[ -> |[ -> |[ -> |[ -> |[ -> |[ -> |[ -> |H]]]]]]]]]];
    try done.
  by apply elem_of_nil in H.
Qed.

(** The digits that [pretty_N_go] puts before its accumulator. *)
Lemma pretty_N_go_spec x : ∀ s,
  ∃ t, pretty_N_go x s = t +:+ s
       ∧ all_digits t = true
       ∧ ((0 < x)%N → t ≠ "")
       ∧ ∀ acc rest,
           leading_digits acc (String.list_ascii_of_string t ++ rest)
           = leading_digits
               (acc * 10 ^ Z.of_nat (String.length t) + Z.of_N x) rest.
Proof.
  induction (N.lt_wf_0 x) as [x _ IH]. intros s.
  destruct (decide (x = 0%N)) as [ -> |Hx].
  { exists "". rewrite pretty_N_go_0. split; [done|]. split; [done|].
    split; [lia|]. intros acc rest. cbn. f_equal. lia. }
  assert (Hpos : (0 < x)%N) by lia.
  rewrite (pretty_N_go_step x s Hpos).
  destruct (IH (x `div` 10)%N (N.div_lt x 10 Hpos eq_refl)
              (String (pretty_N_char (x `mod` 10)) s))
    as (t & -> & Hdig & _ & Hval).
  set (d := pretty_N_char (x `mod` 10)).
  exists (t +:+ String d ""). split.
  { clear. induction t as [|c t IHt]; [done|].
    change (String c (t +:+ String d s) = String c ((t +:+ String d "") +:+ s)).
    by rewrite IHt. }
  unfold all_digits in *. rewrite ProxyFacts.list_of_append.
  cbn [String.list_ascii_of_string]. split.
  { rewrite forallb_app, Hdig. cbn [forallb andb]. unfold d.
    by rewrite pretty_N_char_digit. }
  split; [intros _; by destruct t|]. intros acc rest.
  rewrite <- app_assoc. cbn [app]. rewrite Hval. cbn [leading_digits].
  unfold d at 1. rewrite pretty_N_char_digit. f_equal.
  unfold d. rewrite pretty_N_char_value by (apply N.mod_lt; lia).
  assert (Hlen : String.length (t +:+ String (pretty_N_char (x `mod` 10)) "")
                 = S (String.length t)).
  { clear. induction t as [|c t IHt]; [done|].
    change (S (String.length (t +:+ String (pretty_N_char (x `mod` 10)) ""))
            = S (S (String.length t))). by rewrite IHt. }
  rewrite Hlen, Nat2Z.inj_succ, Z.pow_succ_r by lia.
  rewrite N2Z.inj_div, N2Z.inj_mod. change (Z.of_N 10) with 10.
  pose proof (Z.div_mod (Z.of_N x) 10 ltac:(lia)). lia.
Qed.

(** The numeral of a natural number: digits only, at least one, and read
    back as the number. *)
Lemma pretty_N_spec (x : N) :
  pretty x ≠ "" ∧ all_digits (pretty x) = true
  ∧ ∀ rest, leading_digits 0 (String.list_ascii_of_string (pretty x) ++ rest)
            = leading_digits (Z.of_N x) rest.
Proof.
  unfold pretty, pretty_N. destruct (decide (x = 0%N)) as [ -> |Hx]; [done|].
  destruct (pretty_N_go_spec x "") as (t & -> & Hdig & Hne & Hval).
  assert (Ht : t +:+ "" = t).
  { clear. induction t as [|c t IHt]; [done|].
    change (String c (t +:+ "") = String c t). by rewrite IHt. }
  rewrite Ht. split; [apply Hne; lia|]. split; [done|]. intros rest.
  rewrite Hval. f_equal; lia.
Qed.

End NumeralFacts.

(** ** Further properties of the locator: names that cannot match *)

Module MatchExtras.
Import JS Regex Locator Names.

Lemma pretty_Z_cases (n : Z) :
  pretty n = if n <? 0 then "-" +:+ pretty (Z.to_N (- n))
             else pretty (Z.to_N n).
Proof. by destruct n. Qed.

Lemma all_digits_not_free s :
  s ≠ "" → Proxy.all_digits s = true →
  digit_free (String.list_ascii_of_string s) = false.
Proof.
  destruct s as [|c s]; [done|]. intros _ H. unfold Proxy.all_digits in H.
  cbn in H. apply andb_true_iff in H as [Hc _].
  unfold digit_free. cbn [String.list_ascii_of_string forallb]. by rewrite Hc.
Qed.

(** Every numeral holds a digit. *)
Lemma pretty_has_digit (n : Z) :
  digit_free (String.list_ascii_of_string (pretty n)) = false.
Proof.
  rewrite pretty_Z_cases. destruct (n <? 0).
  - destruct (NumeralFacts.pretty_N_spec (Z.to_N (- n))) as (Hne & Hd & _).
    rewrite ProxyFacts.list_of_append. unfold digit_free. rewrite forallb_app.
    fold (digit_free (String.list_ascii_of_string (pretty (Z.to_N (- n))))).
    rewrite (all_digits_not_free _ Hne Hd). apply andb_false_r.
  - destruct (NumeralFacts.pretty_N_spec (Z.to_N n)) as (Hne & Hd & _).
    by apply all_digits_not_free.
Qed.

Lemma digit_free_suffix s s' :
  s' `suffix_of` s → digit_free s = true → digit_free s' = true.
Proof.
  intros [pre ->]. unfold digit_free. rewrite forallb_app.
  intros H. by apply andb_true_iff in H as [_ ?].
Qed.

Lemma star_iter_suffix m k :
  (∀ s k', m s k' = true → ∃ s', s' `suffix_of` s ∧ k' s' = true) →
  ∀ n s, star_iter m k n s = true → ∃ s', s' `suffix_of` s ∧ k s' = true.
Proof.
  intros Hm. induction n as [|n IH]; intros s H; cbn [star_iter] in H.
  { by exists s. }
  apply orb_true_iff in H as [H|H]; [|by exists s].
  apply Hm in H as (s1 & Hs1 & H). apply andb_true_iff in H as [_ H].
  destruct (IH s1 H) as (s2 & Hs2 & Hk). exists s2. split; [|done].
  by etrans.
Qed.

(** A match hands a rest of the input to its continuation. *)
Lemma matches_suffix ci r : ∀ s k,
  matches ci r s k = true → ∃ s', s' `suffix_of` s ∧ k s' = true.
Proof.
  induction r as [|c| | |cs|r1 IH1 r2 IH2|r1 IH1 r2 IH2|r1 IH1|r1 IH1|];
    intros s k H; cbn [matches] in H.
  - by exists s.
  - destruct s as [|a s]; [done|]. apply andb_true_iff in H as [_ H].
    exists s. split; [by apply suffix_cons_r | done].
  - destruct s as [|a s]; [done|]. apply andb_true_iff in H as [_ H].
    exists s. split; [by apply suffix_cons_r | done].
  - destruct s as [|a s]; [done|]. apply andb_true_iff in H as [_ H].
    exists s. split; [by apply suffix_cons_r | done].
  - destruct s as [|a s]; [done|]. apply andb_true_iff in H as [_ H].
    exists s. split; [by apply suffix_cons_r | done].
  - apply IH1 in H as (s1 & Hs1 & H). apply IH2 in H as (s2 & Hs2 & H).
    exists s2. split; [by etrans | done].
  - apply orb_true_iff in H as [H|H]; [by apply IH1 | by apply IH2].
  - apply orb_true_iff in H as [H|H]; [by apply IH1 | by exists s].
  - by apply (star_iter_suffix _ _ IH1) in H.
  - exists s. split; [done|]. destruct s; [done|].
    by apply andb_true_iff in H as [_ ?].
Qed.

Lemma is_digit_upper a : is_digit (upper_ascii a) = is_digit a.
Proof. by destruct a as [[] [] [] [] [] [] [] []]. Qed.

Lemma eq_char_digit a d :
  is_digit d = true → is_digit a = false → eq_char true a d = false.
Proof.
  intros Hd Ha. unfold eq_char.
  destruct (Ascii.eqb (upper_ascii a) (upper_ascii d)) eqn:E; [|done].
  apply Ascii.eqb_eq in E. apply (f_equal is_digit) in E.
  rewrite !is_digit_upper in E. congruence.
Qed.

(** A literal that holds a digit matches no text without digits. *)
Lemma lit_dead cs : ∀ s k,
  digit_free cs = false → digit_free s = true →
  matches true (lit cs) s k = false.
Proof.
  induction cs as [|c cs IH]; intros s k Hcs Hs; [done|].
  cbn [lit matches]. destruct s as [|a s]; [done|].
  unfold digit_free in Hs, Hcs. cbn [forallb] in Hs, Hcs.
  apply andb_true_iff in Hs as [Ha Hs]. apply negb_true_iff in Ha.
  apply andb_false_iff in Hcs as [Hc|Hcs].
  - apply negb_false_iff in Hc. by rewrite (eq_char_digit a c Hc Ha).
  - rewrite (IH s k Hcs Hs). apply andb_false_r.
Qed.

Lemma seq_dead cs rs : ∀ s k,
  In (lit cs) rs → digit_free cs = false → digit_free s = true →
  matches true (seq rs) s k = false.
Proof.
  induction rs as [|r rs IH]; intros s k Hin Hcs Hs; [done|].
  change (seq (r :: rs)) with (Cat r (seq rs)). cbn [matches].
  destruct Hin as [ -> |Hin]; [by apply lit_dead|].
  destruct (matches true r s _) eqn:E; [|done].
  apply matches_suffix in E as (s' & Hsuf & E).
  rewrite IH in E; [done|done|done|]. by eapply digit_free_suffix.
Qed.

Lemma test_dead r s :
  (∀ s' k, digit_free s' = true → matches true r s' k = false) →
  digit_free s = true → test_from true r s = false.
Proof.
  intros Hr. induction s as [|a s IH]; intros Hs; cbn [test_from].
  - by rewrite Hr.
  - rewrite (Hr _ _ Hs). apply IH. unfold digit_free in *. cbn in Hs.
    by apply andb_true_iff in Hs as [_ ?].
Qed.

(** X12 — a file name without any digit matches no requested episode. *)
Theorem digit_free_name_never_matches (req : requested_episode)
    (fileName : string) :
  digit_free (String.list_ascii_of_string fileName) = true →
  fileMatchesEpisode fileName (Some req) = false.
Proof.
  intros Hname. unfold fileMatchesEpisode, episode_patterns, test.
  pose proof (pretty_has_digit (episode req)) as He.
  cbn [existsb]. rewrite !orb_false_iff.
  repeat split; try done;
    (apply test_dead; [|done]; intros s' k Hs';
     apply (seq_dead (String.list_ascii_of_string (pretty (episode req))));
     [cbn; tauto | done | done]).
Qed.

Lemma digit_free_name_never_matches_witness :
  digit_free (String.list_ascii_of_string "Show.Extras.Episode.mkv") = true
  ∧ fileMatchesEpisode "Show.Extras.Episode.mkv"
      (Some (RequestedEpisode 1 2)) = false.
Proof.
  assert (H : digit_free (String.list_ascii_of_string "Show.Extras.Episode.mkv")
              = true) by reflexivity.
  split; [exact H|].
  exact (digit_free_name_never_matches (RequestedEpisode 1 2) _ H).
Defined.

End MatchExtras.

(** ** Properties of the requested episode *)

Module EpisodeParseExtras.
Import JS Locator Episode.

Lemma digit_no_space c : is_digit c = true → is_space c = false.
Proof. by destruct c as [[] [] [] [] [] [] [] []]. Qed.

(** An unsigned numeral is read as it stands. *)
Lemma parseInt_digits c cs :
  is_digit c = true →
  parseInt (String c cs)
  = Some (Proxy.leading_digits 0 (c :: String.list_ascii_of_string cs)).
Proof.
  intros Hc. unfold parseInt. cbn [String.list_ascii_of_string skip_spaces].
  rewrite (digit_no_space c Hc).
  set (l := String.list_ascii_of_string cs). clearbody l.
  destruct c as [[] [] [] [] [] [] [] []]; try done;
    cbv beta iota zeta; rewrite Hc; f_equal; lia.
Qed.

Lemma first_digit s :
  s ≠ "" → Proxy.all_digits s = true →
  ∃ c cs, s = String c cs ∧ is_digit c = true.
Proof.
  destruct s as [|c cs]; [done|]. intros _ H. unfold Proxy.all_digits in H.
  cbn in H. apply andb_true_iff in H as [Hc _]. by exists c, cs.
Qed.

Lemma parseInt_pretty_N (x : N) : parseInt (pretty x) = Some (Z.of_N x).
Proof.
  destruct (NumeralFacts.pretty_N_spec x) as (Hne & Hd & Hval).
  destruct (first_digit _ Hne Hd) as (c & cs & Heq & Hc).
  rewrite Heq, (parseInt_digits c cs Hc). f_equal.
  specialize (Hval []). rewrite Heq, app_nil_r in Hval.
  cbn [String.list_ascii_of_string] in Hval. rewrite Hval. done.
Qed.

(** Reading a numeral gives the number back. *)
Lemma parseInt_pretty (n : Z) : parseInt (pretty n) = Some n.
Proof.
  rewrite MatchExtras.pretty_Z_cases. destruct (n <? 0) eqn:Hn.
  - apply Z.ltb_lt in Hn.
    destruct (NumeralFacts.pretty_N_spec (Z.to_N (- n))) as (Hne & Hd & Hval).
    destruct (first_digit _ Hne Hd) as (c & cs & Heq & Hc).
    specialize (Hval []). rewrite Heq, app_nil_r in Hval.
    rewrite Heq. unfold parseInt.
    change (String.list_ascii_of_string ("-" +:+ String c cs))
      with ("-"%char :: c :: String.list_ascii_of_string cs).
    cbn [skip_spaces]. change (is_space "-") with false. cbv beta iota zeta.
    rewrite Hc. cbn [String.list_ascii_of_string] in Hval. rewrite Hval.
    cbn [Proxy.leading_digits]. f_equal. lia.
  - apply Z.ltb_ge in Hn. rewrite parseInt_pretty_N. f_equal. lia.
Qed.

Lemma free_of_app sep a b :
  Proxy.free_of sep a → Proxy.free_of sep b → Proxy.free_of sep (a +:+ b).
Proof.
  unfold Proxy.free_of. intros Ha Hb.
  by rewrite ProxyFacts.list_of_append, forallb_app, Ha, Hb.
Qed.

(** A numeral holds digits and at most a leading dash. *)
Lemma pretty_free sep (n : Z) :
  is_digit sep = false → sep ≠ "-"%char → Proxy.free_of sep (pretty n).
Proof.
  intros Hsep Hdash. rewrite MatchExtras.pretty_Z_cases.
  assert (HN : ∀ x : N, Proxy.free_of sep (pretty x)).
  { intros x. destruct (NumeralFacts.pretty_N_spec x) as (_ & Hd & _).
    by apply ProxyFacts.digits_free. }
  destruct (n <? 0); [|apply HN]. apply free_of_app; [|apply HN].
  unfold Proxy.free_of. cbn [String.list_ascii_of_string forallb].
  rewrite andb_true_r. apply negb_true_iff, Ascii.eqb_neq. congruence.
Qed.

Lemma includes_sep sep a b : includes sep (a +:+ String sep b) = true.
Proof.
  unfold includes. rewrite ProxyFacts.list_of_append, existsb_app.
  cbn [String.list_ascii_of_string existsb]. rewrite Ascii.eqb_refl.
  cbn. apply orb_true_r.
Qed.

Lemma id_parts prefix (s e : Z) :
  Proxy.free_of ":" prefix →
  Proxy.split_on ":" (prefix +:+ String ":" (pretty s +:+ String ":" (pretty e)))
  = [prefix; pretty s; pretty e].
Proof.
  intros Hp. rewrite (ProxyFacts.split_on_sep _ _ _ Hp).
  rewrite ProxyFacts.split_on_sep by (by apply pretty_free).
  rewrite ProxyFacts.split_on_free by (by apply pretty_free). done.
Qed.

Lemma truthy_num_spec z : truthy_num z = true ↔ z ≠ 0.
Proof.
  unfold truthy_num. rewrite negb_true_iff, Z.eqb_neq. done.
Qed.

(** X13 — the requested episode.  A result never has season or episode
    zero; a season and an episode in the query that read as non-zero
    numbers win over the id; without them only a [series] request with a
    string id can have an episode; the id [<prefix>:<s>:<e>] of a series
    request gives season [s] and episode [e] back, and no episode when
    either is zero; and an empty [season] parameter hides [Season] and
    [S]. *)
Theorem requested_episode_facts :
  (∀ type id q ep, parseRequestedEpisode type id q = Some ep →
     season ep ≠ 0 ∧ episode ep ≠ 0)
  ∧ (∀ type id q s e,
       extractInt (js_nullish (js_nullish (q_season q) (q_Season q)) (q_S q))
       = Some s →
       extractInt (js_nullish (js_nullish (q_episode q) (q_Episode q)) (q_E q))
       = Some e →
       s ≠ 0 → e ≠ 0 →
       parseRequestedEpisode type id q = Some (RequestedEpisode s e))
  ∧ (∀ type id, type ≠ "series" ∨ id = None →
       parseRequestedEpisode type id no_query = None)
  ∧ (∀ prefix s e,
       Proxy.free_of ":" prefix → Z.abs s < 2 ^ 53 → Z.abs e < 2 ^ 53 →
       parseRequestedEpisode "series"
         (Some (prefix +:+ String ":" (pretty s +:+ String ":" (pretty e))))
         no_query
       = if truthy_num s && truthy_num e
         then Some (RequestedEpisode s e) else None)
  ∧ (∀ type id q, q_season q = Some "" → type ≠ "series" →
       parseRequestedEpisode type id q = None).
Proof.
  split; [|split; [|split; [|split]]].
  - intros type id q ep.
    assert (Hid : ∀ r,
      match id with
      | Some i =>
          if String.eqb type "series" && includes ":" i
          then if (3 <=? length (Proxy.split_on ":" i))%nat
               then match extractInt (Proxy.split_on ":" i !! 1%nat),
                          extractInt (Proxy.split_on ":" i !! 2%nat) with
                    | Some s, Some e =>
                        if truthy_num s && truthy_num e
                        then Some (RequestedEpisode s e) else None
                    | _, _ => None
                    end
               else None
          else None
      | None => None
      end = Some r → season r ≠ 0 ∧ episode r ≠ 0).
    { intros r Hr. repeat case_match; try done; injection Hr as <-;
        match goal with
        | Ht : truthy_num _ && truthy_num _ = true |- _ =>
            apply andb_true_iff in Ht as [Hs He]
        end;
        split; by apply truthy_num_spec. }
    intros H. unfold parseRequestedEpisode in H. cbv zeta in H.
    destruct (extractInt (js_nullish (js_nullish (q_season q) _) _)) as [s|];
      [|by apply Hid].
    destruct (extractInt (js_nullish (js_nullish (q_episode q) _) _)) as [e|];
      [|by apply Hid].
    destruct (truthy_num s && truthy_num e) eqn:Ht; [|by apply Hid].
    injection H as <-. apply andb_true_iff in Ht as [Hs He].
    split; by apply truthy_num_spec.
  - intros type id q s e Hs He Hs0 He0. unfold parseRequestedEpisode.
    cbv zeta. rewrite Hs, He.
    apply truthy_num_spec in Hs0, He0. by rewrite Hs0, He0.
  - intros type id H. unfold parseRequestedEpisode. cbn.
    destruct id as [i|]; [|done]. destruct H as [H|H]; [|done].
    apply String.eqb_neq in H. by rewrite H.
  - intros prefix s e Hp _ _. unfold parseRequestedEpisode.
    cbn [no_query q_season q_Season q_S q_episode q_Episode q_E js_nullish
         extractInt]. cbv zeta.
    rewrite includes_sep, (id_parts prefix s e Hp). cbn.
    by rewrite !parseInt_pretty.
  - intros type id q Hq Ht. unfold parseRequestedEpisode. rewrite Hq. cbn.
    apply String.eqb_neq in Ht. rewrite Ht. cbn. by destruct id.
Qed.

Example requested_episode_samples :
  parseRequestedEpisode "series" (Some "tt0944947:1:2") no_query
  = Some (RequestedEpisode 1 2)
  ∧ parseRequestedEpisode "series" (Some "tt0944947:0:2") no_query = None
  ∧ parseRequestedEpisode "movie" (Some "tt0944947:1:2") no_query = None
  ∧ parseRequestedEpisode "movie" (Some "tt0944947")
      (Query (Some " 3") None None None (Some "04x") None)
    = Some (RequestedEpisode 3 4).
Proof. by vm_compute. Qed.

End EpisodeParseExtras.

(** ** Properties of the cache key *)

Module CacheKeyExtras.
Import JS Locator Proxy Names.

Lemma not_free_sep sep a b : ¬ free_of sep (a +:+ String sep b).
Proof.
  unfold free_of. rewrite ProxyFacts.list_of_append, forallb_app.
  cbn [String.list_ascii_of_string forallb]. rewrite Ascii.eqb_refl.
  cbn [negb andb]. rewrite andb_false_r. done.
Qed.

(** Two texts that agree and end in a part without the separator agree on
    that part and on what is before it. *)
Lemma last_segment sep a : ∀ b n1 n2,
  free_of sep n1 → free_of sep n2 →
  a +:+ String sep n1 = b +:+ String sep n2 → a = b ∧ n1 = n2.
Proof.
  induction a as [|c a IH]; intros [|c' b] n1 n2 H1 H2 Heq.
  - by injection Heq as ->.
  - injection Heq as _ Heq. subst n1. by apply not_free_sep in H1.
  - injection Heq as _ Heq. subst n2. by apply not_free_sep in H2.
  - injection Heq as -> Heq. destruct (IH b n1 n2 H1 H2 Heq) as [-> ->]. done.
Qed.

Lemma free_of_head sep c s : free_of sep (String c s) → c ≠ sep ∧ free_of sep s.
Proof.
  unfold free_of. cbn [String.list_ascii_of_string forallb]. intros H.
  apply andb_true_iff in H as [Hc Hs]. split; [|done].
  by apply negb_true_iff, Ascii.eqb_neq in Hc.
Qed.

(** Two texts that agree and start with a part without the separator agree
    on that part and on what is after it. *)
Lemma first_segment sep a : ∀ b n1 n2,
  free_of sep a → free_of sep b →
  a +:+ String sep n1 = b +:+ String sep n2 → a = b ∧ n1 = n2.
Proof.
  induction a as [|c a IH]; intros [|c' b] n1 n2 Ha Hb Heq.
  - by injection Heq as ->.
  - injection Heq as <- _. by apply free_of_head in Hb as [? _].
  - injection Heq as -> _. by apply free_of_head in Ha as [? _].
  - injection Heq as -> Heq. apply free_of_head in Ha as [_ Ha].
    apply free_of_head in Hb as [_ Hb].
    destruct (IH b n1 n2 Ha Hb Heq) as [-> ->]. done.
Qed.

Lemma episode_text_free (ep : requested_episode) :
  free_of "|" (pretty (season ep) +:+ String "x" (pretty (episode ep))).
Proof.
  apply EpisodeParseExtras.free_of_app;
    [by apply EpisodeParseExtras.pretty_free|].
  apply (EpisodeParseExtras.free_of_app "|" "x");
    [done | by apply EpisodeParseExtras.pretty_free].
Qed.

Lemma episode_text_digit (ep : requested_episode) :
  digit_free (String.list_ascii_of_string
                (pretty (season ep) +:+ String "x" (pretty (episode ep))))
  = false.
Proof.
  rewrite ProxyFacts.list_of_append. unfold digit_free. rewrite forallb_app.
  fold (digit_free (String.list_ascii_of_string (pretty (season ep)))).
  by rewrite MatchExtras.pretty_has_digit.
Qed.

Lemma cacheKey_Some u c ep :
  cacheKey u c (Some ep)
  = (u +:+ String "|" c)
    +:+ String "|" (pretty (season ep) +:+ String "x" (pretty (episode ep))).
Proof.
  unfold cacheKey. rewrite PathExtras.append_assoc. reflexivity.
Qed.

Lemma cacheKey_None u c : cacheKey u c None = u +:+ String "|" c.
Proof. reflexivity. Qed.

Lemma cache_key_both u1 u2 c1 c2 e1 e2 :
  free_of "|" c1 → free_of "|" c2 →
  cacheKey u1 c1 (Some e1) = cacheKey u2 c2 (Some e2) →
  u1 = u2 ∧ c1 = c2 ∧ e1 = e2.
Proof.
  intros Hc1 Hc2 Heq. rewrite !cacheKey_Some in Heq.
  apply last_segment in Heq as [Hpre Hep];
    [|apply episode_text_free|apply episode_text_free].
  apply last_segment in Hpre as [-> ->]; [|done|done].
  apply first_segment in Hep as [Hs He];
    [|by apply EpisodeParseExtras.pretty_free
     |by apply EpisodeParseExtras.pretty_free].
  apply (inj pretty) in Hs, He. destruct e1, e2. cbn in Hs, He. by subst.
Qed.

Lemma cache_key_mixed u1 u2 c1 c2 e :
  free_of "|" c2 → digit_free (String.list_ascii_of_string c2) = true →
  cacheKey u1 c1 (Some e) ≠ cacheKey u2 c2 None.
Proof.
  intros Hc2 Hd2 Heq. rewrite cacheKey_Some, cacheKey_None in Heq.
  apply last_segment in Heq as [_ Hep]; [|apply episode_text_free|done].
  rewrite <- Hep, episode_text_digit in Hd2. done.
Qed.

Lemma cache_key_neither u1 u2 c1 c2 :
  free_of "|" c1 → free_of "|" c2 →
  cacheKey u1 c1 None = cacheKey u2 c2 None → u1 = u2 ∧ c1 = c2.
Proof.
  intros Hc1 Hc2 Heq. rewrite !cacheKey_None in Heq.
  by apply last_segment in Heq.
Qed.

(** X14 — the cache key identifies the request.  For categories that hold
    neither a bar nor a digit, two requests with the same key have the same
    download URL, the same category and the same requested episode: no two
    different requests share an entry of the cache. *)
Theorem cache_key_identifies_request (u1 u2 c1 c2 : string)
    (ep1 ep2 : option requested_episode) :
  free_of "|" c1 → free_of "|" c2 →
  digit_free (String.list_ascii_of_string c1) = true →
  digit_free (String.list_ascii_of_string c2) = true →
  cacheKey u1 c1 ep1 = cacheKey u2 c2 ep2 →
  u1 = u2 ∧ c1 = c2 ∧ ep1 = ep2.
Proof.
  intros Hc1 Hc2 Hd1 Hd2 Heq. destruct ep1 as [e1|], ep2 as [e2|].
  - destruct (cache_key_both _ _ _ _ _ _ Hc1 Hc2 Heq) as (-> & -> & ->). done.
  - by apply cache_key_mixed in Heq.
  - symmetry in Heq. by apply cache_key_mixed in Heq.
  - destruct (cache_key_neither _ _ _ _ Hc1 Hc2 Heq) as (-> & ->). done.
Qed.

Lemma cache_key_identifies_request_witness :
  let u := "http://indexer/1.nzb" in
  let ep := Some (RequestedEpisode 1 2) in
  free_of "|" "Tv"
  ∧ digit_free (String.list_ascii_of_string "Tv") = true
  ∧ cacheKey u "Tv" ep = "http://indexer/1.nzb|Tv|1x2"
  ∧ (u = u ∧ "Tv" = "Tv" ∧ ep = ep).
Proof.
  intros u ep.
  assert (H1 : free_of "|" "Tv") by reflexivity.
  assert (H2 : digit_free (String.list_ascii_of_string "Tv") = true)
    by reflexivity.
  split; [exact H1|]. split; [exact H2|]. split; [reflexivity|].
  exact (cache_key_identifies_request u u "Tv" "Tv" ep ep H1 H1 H2 H2 eq_refl).
Defined.

End CacheKeyExtras.

(** ** Further properties of the build pipeline *)

Module PipelineExtras.
Import JS Cache Poller Locator Pipeline Paths.

Lemma addNzb_ok cfg reply nzbUrl category jobLabel nzoId :
  addNzbToNzbdav cfg reply nzbUrl category jobLabel = Ok nzoId →
  nzoId ≠ "" ∧ nzbUrl ≠ "" ∧ category ≠ "".
Proof.
  unfold addNzbToNzbdav.
  destruct (ensureNzbdavConfigured cfg); [done|].
  destruct (String.eqb nzbUrl "") eqn:Hu; [done|].
  destruct (String.eqb category "") eqn:Hc; [done|].
  destruct reply as [data|ce]; [|done].
  destruct (negb (ad_status data)); [done|].
  set (v := js_or _ (ad_queue_0_nzo_id data)).
  destruct v as [s|]; [|done]. cbn [truthy or_else].
  destruct (String.eqb s "") eqn:Hs; [done|]. cbn [negb]. intros [= <-].
  by rewrite <- !String.eqb_neq.
Qed.

Lemma or_else_nonempty v d : d ≠ "" → or_else v d ≠ "".
Proof.
  intros Hd. unfold or_else. destruct v as [s|]; [|done].
  destruct (String.eqb s "") eqn:Hs; [done|]. by apply String.eqb_neq.
Qed.

Lemma selection_discovered sh requestedEpisode root w c :
  walk_inv sh requestedEpisode root w → selection w = Some c →
  c ∈ discovered w.
Proof.
  intros [_ _ _ _ _ _ Hb Hbe]. unfold selection. rewrite Hb, Hbe.
  pose proof (LocatorFacts.best_of_spec
                (List.filter matchesEpisode (discovered w))) as He.
  pose proof (LocatorFacts.best_of_spec (discovered w)) as Ha.
  destruct (best_of (List.filter matchesEpisode (discovered w))) as [c1|].
  - intros [= <-]. destruct He as [Hin _].
    apply list_elem_of_In, List.filter_In in Hin as [Hin _].
    by apply list_elem_of_In.
  - destruct (best_of (discovered w)) as [c2|]; [|done].
    intros [= <-]. by destruct Ha.
Qed.

Lemma rootPath_clean category jobName : clean (rootPath category jobName).
Proof.
  destruct (PathExtras.normalize_shape
              ("/content/" +:+ category +:+ "/" +:+ jobName))
    as (rest & Hn & Hfree). by exists rest.
Qed.

(** What the locator hands to the pipeline. *)
Lemma best_file_shape sh category jobName requestedEpisode c :
  findBestVideoFile sh category jobName requestedEpisode = Some (Some c) →
  isVideoFileName (c_name c) = true
  ∧ ∃ rest, "/" +:+ viewPath c = rootPath category jobName +:+ "/" +:+ rest.
Proof.
  unfold findBestVideoFile.
  destruct (LocatorFacts.locate_ends sh category jobName requestedEpisode)
    as (w & Hw & Hinv & _).
  rewrite Hw. cbn. intros [= Hsel].
  pose proof (selection_discovered _ _ _ _ _ Hinv Hsel) as Hc. split.
  - destruct (PathExtras.candidate_origin _ _ _ _ Hinv c Hc)
      as (item & e & _ & He & ->).
    cbn [c_name candidate_of]. unfold is_video in He.
    apply andb_true_iff in He as [_ He]. apply negb_true_iff in He.
    apply orb_false_iff in He as [_ He]. by apply negb_false_iff in He.
  - destruct (PathExtras.candidate_path _ _ _ _ Hinv
                (rootPath_clean category jobName) c Hc)
      as (rest & Habs & (tail & Htail & _) & Hview).
    exists rest. rewrite <- Habs, Hview, Htail. cbn [strip_leading_slashes].
    destruct (rootPath_clean category jobName) as (r0 & Hr0 & _).
    rewrite Habs, Hr0 in Htail.
    assert (Hc0 : ∃ r1, rootPath category jobName = "/content/" +:+ r1).
    { unfold rootPath. rewrite PathExtras.normalize_cases.
      change ("/content/" +:+ category +:+ "/" +:+ jobName)
        with (String "/" ("content/" +:+ category +:+ "/" +:+ jobName)).
      cbn [String.eqb replace_backslashes].
      change (Ascii.eqb "/" "\") with false. cbv iota.
      rewrite (PathExtras.replace_backslashes_app "content/"). by eexists. }
    destruct Hc0 as [r1 Hr1]. rewrite Hr1 in Hr0. injection Hr0 as <-.
    injection Htail as <-. reflexivity.
Qed.

Lemma returned_slot_id cfg polls nzoId category now p s :
  waitForNzbdavHistorySlot cfg polls nzoId category now = Some p →
  ended p = Ok s →
  js_or (js_or (nzo_id s) (slot_nzoId s)) (NzoId s) = Some nzoId.
Proof.
  unfold waitForNzbdavHistorySlot.
  destruct (ensureNzbdavConfigured cfg); [by intros [= <-]|].
  intros Hp Hs.
  destruct (PollerExtras.poll_loop_return _ _ _ _ _ _ _ _ _ _ Hp Hs) as [j Hj].
  apply PollerExtras.poll_once_return in Hj as (data & _ & _ & Hfind & _).
  apply PollerExtras.find_first in Hfind as (Hm & _).
  unfold slot_matches in Hm. by apply bool_decide_eq_true in Hm.
Qed.

(** X15 — what a resolved stream is.  When the pipeline resolves, the job
    id is the non-empty id the submitter returned and the poller was given;
    the slot the poller returned carries that id and is completed; category
    and job name are not empty, the category being the slot's or else the
    request's; and the file is the one the locator chose for that category
    and job name: a video file whose view path, behind a slash, lies below
    the job's root. *)
Theorem resolved_stream_shape (env : environment) (now : Z)
    (downloadUrl category title : string)
    (requestedEpisode : option requested_episode) (d : stream_data) :
  buildNzbdavStream env now downloadUrl category title requestedEpisode
  = Some (Resolved d) →
  sd_nzoId d ≠ "" ∧ sd_category d ≠ "" ∧ sd_jobName d ≠ ""
  ∧ addNzbToNzbdav (cfg env) (submit_reply env) downloadUrl category title
    = Ok (sd_nzoId d)
  ∧ (∃ p slot,
       waitForNzbdavHistorySlot (cfg env) (polls env) (sd_nzoId d) category
         (now + Z.of_N (submit_elapsed env)) = Some p
       ∧ ended p = Ok slot
       ∧ js_or (js_or (nzo_id slot) (slot_nzoId slot)) (NzoId slot)
         = Some (sd_nzoId d)
       ∧ sd_category d
         = or_else (js_or (slot_category slot) (Category slot)) category
       ∧ js_or (js_or (js_or (job_name slot) (JobName slot))
                      (Poller.name slot))
               (Name slot) = Some (sd_jobName d))
  ∧ ∃ c,
      findBestVideoFile (files env) (sd_category d) (sd_jobName d)
        requestedEpisode = Some (Some c)
      ∧ sd_viewPath d = viewPath c ∧ sd_size d = c_size c
      ∧ isVideoFileName (c_name c) = true
      ∧ ∃ rest, "/" +:+ sd_viewPath d
                = rootPath (sd_category d) (sd_jobName d) +:+ "/" +:+ rest.
Proof.
  unfold buildNzbdavStream.
  destruct (addNzbToNzbdav _ _ _ _ _) as [nzoId|e] eqn:Hadd; [|done].
  destruct (addNzb_ok _ _ _ _ _ _ Hadd) as (Hid & _ & Hcat).
  destruct (PollerFacts.waitFor_ends (cfg env) (polls env) nzoId category
              (now + Z.of_N (submit_elapsed env))) as [p Hwait].
  rewrite Hwait.
  destruct (ended p) as [slot|e] eqn:Hend; [|done].
  destruct (js_or (js_or (js_or (job_name slot) (JobName slot))
                         (Poller.name slot)) (Name slot))
    as [j|] eqn:Hj; [|done].
  cbn [truthy or_else]. destruct (String.eqb j "") eqn:Hjn; [done|].
  cbn [negb].
  destruct (findBestVideoFile _ _ _ _) as [[c|]|] eqn:Hbest; [|done|done].
  intros [= <-]. cbn [sd_nzoId sd_category sd_jobName sd_viewPath sd_size].
  destruct (best_file_shape _ _ _ _ _ Hbest) as [Hvideo Hpath].
  split; [done|]. split; [by apply or_else_nonempty|].
  split; [by apply String.eqb_neq|]. split; [done|]. split.
  - exists p, slot. split; [done|]. split; [done|].
    split; [by eapply returned_slot_id|]. split; [done|].
    exact Hj.
  - exists c. by repeat split.
Qed.

Lemma resolved_stream_shape_witness :
  let d := StreamData "nzo1" "Movies" "My.Movie.2024"
             "content/Movies/My.Movie.2024/My.Movie.2024.mkv" 4200000000 in
  buildNzbdavStream Fixtures.movie_environment 0 "u" "Movies" "My Movie" None
  = Some (Resolved d)
  ∧ sd_nzoId d ≠ "" ∧ sd_category d ≠ "" ∧ sd_jobName d ≠ "".
Proof.
  intros d.
  assert (H : buildNzbdavStream Fixtures.movie_environment 0 "u" "Movies"
                "My Movie" None = Some (Resolved d))
    by (vm_compute; reflexivity).
  destruct (resolved_stream_shape _ _ _ _ _ _ d H) as (H1 & H2 & H3 & _).
  split; [exact H|]. split; [exact H1|]. split; [exact H2 | exact H3].
Defined.

(** X16 — a stage that fails ends the pipeline.  When the submitter
    throws, the result is its error whatever the history queries and the
    file share would answer; when the poller throws, and when the completed
    slot has no job name, the result is that error whatever the file share
    holds: the share is only listed for a completed job with a name. *)
Theorem failed_stage_ends_pipeline (env : environment) (now : Z)
    (downloadUrl category title : string)
    (requestedEpisode : option requested_episode) :
  (∀ e, addNzbToNzbdav (cfg env) (submit_reply env) downloadUrl category title
        = Throw e →
     ∀ elapsed' polls' files',
       buildNzbdavStream
         (Environment (cfg env) (submit_reply env) elapsed' polls' files')
         now downloadUrl category title requestedEpisode
       = Some (Rejected (annotate downloadUrl category title e)))
  ∧ (∀ nzoId p,
       addNzbToNzbdav (cfg env) (submit_reply env) downloadUrl category title
       = Ok nzoId →
       waitForNzbdavHistorySlot (cfg env) (polls env) nzoId category
         (now + Z.of_N (submit_elapsed env)) = Some p →
       ∀ files',
         let env' := Environment (cfg env) (submit_reply env)
                       (submit_elapsed env) (polls env) files' in
         match ended p with
         | Throw e =>
             buildNzbdavStream env' now downloadUrl category title
               requestedEpisode
             = Some (Rejected (annotate downloadUrl category title e))
         | Ok slot =>
             js_or (js_or (js_or (job_name slot) (JobName slot))
                          (Poller.name slot)) (Name slot) = None →
             buildNzbdavStream env' now downloadUrl category title
               requestedEpisode
             = Some (Rejected noJobName)
         end).
Proof.
  split.
  - intros e He elapsed' polls' files'. unfold buildNzbdavStream.
    cbn [cfg submit_reply]. by rewrite He.
  - intros nzoId p Hadd Hwait files' env'. unfold buildNzbdavStream.
    subst env'. cbn [cfg submit_reply submit_elapsed polls files].
    rewrite Hadd, Hwait. destruct (ended p) as [slot|e]; [|done].
    by intros ->.
Qed.

Example failed_job_needs_no_share :
  ∀ files',
    buildNzbdavStream
      (Environment Fixtures.sample_config
         (Responded (AddurlData true None 200 None None None (Some "nzo1") None))
         200 Fixtures.polls_failed files')
      0 "u" "Movies" "My Movie" None
    = Some (Rejected
              (annotate "u" "Movies" "My Movie"
                 (failureError
                    (Fixtures.history_slot "nzo1" "Failed" "My.Movie.2024"
                       (Some "Article missing")) "nzo1" "Movies"))).
Proof. intros files'. vm_compute. reflexivity. Qed.

End PipelineExtras.

(** ** Further properties of the proxy *)

Module ProxyExtras.
Import JS Proxy.

Lemma relay_headers_fields hs : ∀ res,
  statusCode (relay_headers hs res) = statusCode res
  ∧ body (relay_headers hs res) = body res
  ∧ headersSent (relay_headers hs res) = headersSent res
  ∧ finished (relay_headers hs res) = finished res.
Proof.
  unfold relay_headers. induction hs as [|kv hs IH]; intros res; [done|].
  cbn [fold_left]. destruct (String.eqb _ _); [apply IH|].
  destruct (IH (setHeader kv.1 kv.2 res)) as (-> & -> & -> & ->). done.
Qed.

Lemma supported_GET : bool_decide ("GET" ∈ ["GET"; "HEAD"]) = true.
Proof. by vm_compute. Qed.

Lemma outbound_range_get req :
  header_of "Range" (outbound_headers req false)
  = if truthy (range req) then Some (or_else (range req) "") else None.
Proof.
  unfold outbound_headers, pass_through, header_of. cbn [andb].
  destruct (truthy (range req)); cbn; [done|].
  by destruct (truthy (if_range req)), (truthy (accept req)),
    (truthy (accept_language req)), (truthy (accept_encoding req)),
    (truthy (user_agent req)).
Qed.

(** X17 — a GET is relayed.  For every GET request the proxy sends the file
    share a GET for the target URL whose Range header is the client's, or
    none when the client sent none; when the share answers, the response
    takes the share's status, every header of the share but
    Transfer-Encoding (the last value of a name winning), and the bytes of
    the share's body, and is finished; when the share fails, the failure is
    thrown. *)
Theorem get_relays_upstream (encodeURIComponent : string → string)
    (webdavBase : string) (fileShare : share_request → http share_response)
    (req : request) (res : response) (viewPath : string) :
  originalMethod req = "GET" →
  let sent := ShareRequest (targetUrl encodeURIComponent webdavBase viewPath)
                "GET" (outbound_headers req false) in
  header_of "Range" (sr_headers sent)
    = (if truthy (range req) then Some (or_else (range req) "") else None)
  ∧ match fileShare sent with
    | Failed e =>
        proxyNzbdavStream encodeURIComponent webdavBase fileShare req res viewPath
        = Throw (of_client_error e)
    | Responded up =>
        ∃ res',
          proxyNzbdavStream encodeURIComponent webdavBase fileShare req res
            viewPath = Ok (res', true)
          ∧ statusCode res' = up_status up
          ∧ body res' = Bytes (up_data up)
          ∧ headersSent res' = true ∧ finished res' = true
          ∧ ∀ name,
              getHeader name res' =
              if same_header name "transfer-encoding" then getHeader name res
              else match last_header name (up_headers up) with
                   | Some v => Some v
                   | None => getHeader name res
                   end
    end.
Proof.
  intros Hget sent. split; [apply outbound_range_get|].
  unfold proxyNzbdavStream. rewrite Hget, supported_GET.
  change (String.eqb "GET" "HEAD") with false. cbv iota beta zeta.
  cbn [negb]. fold sent.
  destruct (fileShare sent) as [up|e]; [|done].
  eexists. split; [reflexivity|].
  destruct (relay_headers_fields (up_headers up) (status (up_status up) res))
    as (Hst & _).
  split; [exact Hst|]. split; [done|]. split; [done|]. split; [done|].
  intros name. change (getHeader ?n (pipe ?b ?r)) with (getHeader n r).
  rewrite ProxyFacts.relay_headers_lookup. done.
Qed.

Lemma get_relays_upstream_witness :
  let req := Request (Some "get") (Some "bytes=2-3") None None None None None in
  let up := ShareResponse 206
              [("content-range", HStr "bytes 2-3/10");
               ("transfer-encoding", HStr "chunked")]
              ["c"; "d"]%char in
  originalMethod req = "GET"
  ∧ ∃ res',
      proxyNzbdavStream (λ s, s) "http://dav" (λ _, Responded up) req fresh
        "content/Movies/a.mkv" = Ok (res', true)
      ∧ statusCode res' = 206
      ∧ body res' = Bytes ["c"; "d"]%char.
Proof.
  intros req up.
  assert (H : originalMethod req = "GET") by reflexivity.
  split; [exact H|].
  destruct (get_relays_upstream (λ s, s) "http://dav" (λ _, Responded up)
              req fresh "content/Movies/a.mkv" H)
    as (_ & res' & H1 & H2 & H3 & _).
  exists res'. split; [exact H1|]. split; [exact H2 | exact H3].
Defined.

Lemma pass_through_spec nm v n x :
  (n, x) ∈ pass_through nm v → n = nm ∧ x ≠ "" ∧ v = Some x.
Proof.
  unfold pass_through, truthy, or_else. destruct v as [s|]; [|by intros ?%elem_of_nil].
  destruct (String.eqb s "") eqn:Hs; cbn [negb]; [by intros ?%elem_of_nil|].
  intros H. apply list_elem_of_singleton in H. injection H as -> ->.
  split; [done|]. split; [by apply String.eqb_neq | done].
Qed.


Lemma split_on_cons sep s : ∃ x xs, split_on sep s = x :: xs.
Proof.
  destruct s as [|c s]; cbn [split_on]; [by eexists _, _|].
  destruct (Ascii.eqb c sep); [by eexists _, _|].
  destruct (split_on sep s); by eexists _, _.
Qed.

Lemma concat_cons sep x y ys :
  String.concat sep (x :: y :: ys) = x +:+ sep +:+ String.concat sep (y :: ys).
Proof. reflexivity. Qed.

(** Joining what was split gives the text back. *)
Lemma concat_split sep s :
  String.concat (String sep "") (split_on sep s) = s.
Proof.
  induction s as [|c s IH]; [done|]. cbn [split_on].
  destruct (split_on_cons sep s) as (x & xs & Hs). rewrite Hs in *.
  destruct (Ascii.eqb c sep) eqn:Hc.
  - apply Ascii.eqb_eq in Hc as ->. rewrite concat_cons, IH. done.
  - destruct xs as [|y ys].
    + cbn in IH. subst x. done.
    + rewrite concat_cons. rewrite concat_cons in IH.
      change (String c x +:+ ?r) with (String c (x +:+ r)). by rewrite IH.
Qed.

(** Splitting what was joined from parts without the separator gives the
    parts back. *)
Lemma split_concat sep x xs :
  Forall (free_of sep) (x :: xs) →
  split_on sep (String.concat (String sep "") (x :: xs)) = x :: xs.
Proof.
  revert x. induction xs as [|y ys IH]; intros x Hall.
  - apply Forall_cons in Hall as [Hx _]. by apply ProxyFacts.split_on_free.
  - apply Forall_cons in Hall as [Hx Hall]. rewrite concat_cons.
    change (x +:+ String sep "" +:+ ?r) with (x +:+ String sep r).
    rewrite (ProxyFacts.split_on_sep _ _ _ Hx). by rewrite IH.
Qed.

(** X19 — the target URL.  Joining the segments of a path with slashes
    gives the path back, so with an encoder that changes none of the
    path's segments the target URL is the base followed by the normalised
    path; and with an encoder whose results hold no slash, as
    [encodeURIComponent]'s do, the encoded path has exactly the segments
    of the normalised path, each one encoded: no segment can add or remove
    a level. *)
Theorem target_url_keeps_segments (encodeURIComponent : string → string)
    (webdavBase viewPath : string) :
  let normalizedPath := Locator.normalizeNzbdavPath viewPath in
  let segments := split_on "/" normalizedPath in
  String.concat "/" segments = normalizedPath
  ∧ (Forall (λ seg, encodeURIComponent seg = seg) segments →
     targetUrl encodeURIComponent webdavBase viewPath
     = webdavBase +:+ normalizedPath)
  ∧ ((∀ seg, free_of "/" (encodeURIComponent seg)) →
     ∃ encodedPath,
       targetUrl encodeURIComponent webdavBase viewPath
       = webdavBase +:+ encodedPath
       ∧ split_on "/" encodedPath = map encodeURIComponent segments).
Proof.
  intros normalizedPath segments.
  assert (Hjoin : String.concat "/" segments = normalizedPath)
    by apply concat_split.
  split; [exact Hjoin|]. split.
  - intros Hid. unfold targetUrl. fold normalizedPath. fold segments.
    replace (map encodeURIComponent segments) with segments; [by rewrite Hjoin|].
    clear Hjoin. induction Hid as [|seg l Hseg _ IH]; [done|].
    cbn [map]. by rewrite Hseg, <- IH.
  - intros Hfree. exists (String.concat "/" (map encodeURIComponent segments)).
    split; [done|].
    destruct (split_on_cons "/" normalizedPath) as (x & xs & Hs).
    unfold segments. rewrite Hs. cbn [map]. apply split_concat.
    apply Forall_forall. intros seg Hin.
    apply elem_of_cons in Hin as [ -> |Hin]; [apply Hfree|].
    apply list_elem_of_fmap in Hin as (seg' & -> & _). apply Hfree.
Qed.

Example target_url_sample :
  targetUrl (λ s, if String.eqb s "My Movie" then "My%20Movie" else s)
    "http://dav:3000" "content/Movies/My Movie/a.mkv"
  = "http://dav:3000/content/Movies/My%20Movie/a.mkv".
Proof. reflexivity. Qed.

Lemma streamFileResponse_finished req res stats emulateHead res' :
  streamFileResponse req res stats emulateHead = Ok (Some res') →
  headersSent res' = true ∧ finished res' = true.
Proof.
  unfold streamFileResponse. destruct stats as [[content mtime|]|]; [|done|done].
  cbv zeta. destruct emulateHead; [by intros [= <-]|].
  destruct (match range req with Some _ => _ | None => false end).
  - destruct (_ <=? _); [by intros [= <-]|].
    destruct (createReadStream _ _ _); [by intros [= <-] | done].
  - destruct (createReadStream _ _ _); [by intros [= <-] | done].
Qed.

Lemma streamFailureVideo_answers asset req res e :
  (∀ mtime, asset ≠ Some (RegularFile [] mtime)) →
  match streamFailureVideo asset req res e with
  | Ok (Some res') => headersSent res' = true ∧ finished res' = true
  | Ok None => True
  | Throw _ => False
  end.
Proof.
  intros Hasset. unfold streamFailureVideo.
  destruct asset as [[content mtime|]|]; [|done|done].
  set (res1 := if negb (headersSent res) then _ else res).
  destruct content as [|c content]; [by destruct (Hasset mtime)|].
  destruct (ProxyFacts.streamFileResponse_serves (c :: content) mtime req res1
              (String.eqb (originalMethod req) "HEAD")) as (res' & Hres & _).
  { cbn [length]. lia. }
  rewrite Hres. by eapply streamFileResponse_finished.
Qed.

Lemma handle_error_answers asset req res e :
  (∀ mtime, asset ≠ Some (RegularFile [] mtime)) →
  ∃ res', handle_error asset req res e = Ok res'
          ∧ headersSent res' = true ∧ finished res' = true.
Proof.
  intros Hasset. unfold handle_error.
  destruct (isNzbdavFailure e).
  - pose proof (streamFailureVideo_answers asset req res e Hasset) as H.
    destruct (streamFailureVideo asset req res e) as [[res'|]|e']; [| |done].
    + by exists res'.
    + destruct (negb (headersSent res)); by eexists.
  - destruct (negb (headersSent res)); by eexists.
Qed.



(** With an empty fallback video a failed job makes the handler throw. *)
Example empty_fallback_throws :
  handleNzbdavStream (λ s, s) "http://dav" (λ _, Failed (ClientError "down" None))
    (Some (RegularFile [] "")) (Some "u")
    (Cache.Rejected (Poller.failureError
                       (Fixtures.history_slot "nzo1" "Failed" "Job" None)
                       "nzo1" "Movies"))
    (Request (Some "GET") None None None None None None) fresh
  = Throw rangeError.
Proof. reflexivity. Qed.

End ProxyExtras.

(** ** Properties of the search plans *)

Module SearchExtras.
Import JS Search.

Lemma concat_head sep tok rest :
  tok ≠ "" → ∃ tail, String.concat sep (tok :: rest) = tok +:+ tail.
Proof.
  intros _. destruct rest as [|y ys]; [exists ""|by eexists].
  cbn. induction tok as [|c tok IH]; [done|].
  change (String c tok = String c (tok +:+ "")). by rewrite <- IH.
Qed.

Lemma append_nonempty a b : a ≠ "" → a +:+ b ≠ "".
Proof. by destruct a. Qed.

(** What [addPlan] does: nothing, or one plan more at the end. *)
Lemma addPlan_spec i planType tokens rawQuery st :
  let r := addPlan i planType tokens rawQuery st in
  (r = (false, st))
  ∨ ∃ query,
      query ≠ ""
      ∧ ((planType +:+ "|" +:+ query) ∉ seenPlans st)
      ∧ r = (true, PlansState (searchPlans st ++ [Plan planType query])
                     ({[planType +:+ "|" +:+ query]} ∪ seenPlans st))
      ∧ (truthy rawQuery = true → query = or_else rawQuery "")
      ∧ (truthy rawQuery = false →
         ∀ tok rest, tokens = tok :: rest → tok ≠ "" →
                     ∃ tail, query = tok +:+ tail).
Proof.
  intros r. subst r. unfold addPlan.
  set (query := if truthy rawQuery then _ else _).
  destruct (String.eqb query "") eqn:Hq; [by left|].
  destruct (bool_decide _) eqn:Hseen; [by left|].
  right. exists query. apply String.eqb_neq in Hq.
  apply bool_decide_eq_false in Hseen. split; [done|]. split; [done|].
  split; [done|]. subst query. split.
  - by intros ->.
  - intros -> tok rest -> Htok. cbn [app List.filter].
    apply String.eqb_neq in Htok. rewrite Htok. cbn [negb].
    apply concat_head. by apply String.eqb_neq.
Qed.

Lemma plan_key_inj p q :
  p_type p ∈ plan_types → p_type q ∈ plan_types →
  plan_key p = plan_key q → p = q.
Proof.
  intros Hp Hq Hk. unfold plan_key in Hk.
  assert (Hfree : ∀ t, t ∈ plan_types → Proxy.free_of "|" t).
  { intros t Ht. unfold plan_types in Ht. rewrite !elem_of_cons in Ht.
    destruct Ht as [ -> |[ -> |[ -> |Ht]]]; [done|done|done|].
    by apply elem_of_nil in Ht. }
  apply (CacheKeyExtras.first_segment "|") in Hk as [Ht Hquery];
    [|by apply Hfree|by apply Hfree].
  destruct p, q. cbn in *. by subst.
Qed.

Lemma inv_empty : plans_inv (PlansState [] ∅).
Proof.
  split; cbn.
  - intros k. split; [by intros ?%elem_of_empty | by intros ?%elem_of_nil].
  - constructor.
  - by intros p ?%elem_of_nil.
Qed.

Lemma inv_addPlan i planType tokens rawQuery st :
  planType ∈ plan_types → plans_inv st →
  plans_inv (addPlan i planType tokens rawQuery st).2.
Proof.
  intros Ht Hinv.
  destruct (addPlan_spec i planType tokens rawQuery st)
    as [ -> |(query & Hq & Hnew & -> & _)]; [done|].
  destruct Hinv as [Hseen Hnodup Hshape]. split; cbn [snd searchPlans seenPlans].
  - intros k. rewrite fmap_app, elem_of_app, elem_of_union, Hseen.
    cbn [fmap list_fmap]. rewrite elem_of_singleton, list_elem_of_singleton.
    unfold plan_key at 2. cbn [p_type p_query]. tauto.
  - rewrite fmap_app. apply NoDup_app. split; [done|]. split.
    + intros k Hk Hk'. cbn in Hk'. apply list_elem_of_singleton in Hk'.
      subst k. apply Hseen in Hk. done.
    + cbn. apply NoDup_singleton.
  - intros p Hp. apply elem_of_app in Hp as [Hp|Hp]; [by apply Hshape|].
    apply list_elem_of_singleton in Hp as ->. done.
Qed.

Lemma addPlan_length i planType tokens rawQuery st :
  let st' := (addPlan i planType tokens rawQuery st).2 in
  (length (searchPlans st) ≤ length (searchPlans st') ≤ S (length (searchPlans st)))%nat.
Proof.
  intros st'. subst st'.
  destruct (addPlan_spec i planType tokens rawQuery st)
    as [ -> |(query & _ & _ & -> & _)]; cbn [snd searchPlans].
  - lia.
  - rewrite length_app. cbn. lia.
Qed.

(** *** Trimming *)

Lemma skip_spaces_head l c rest :
  Episode.skip_spaces l = c :: rest → Episode.is_space c = false.
Proof.
  induction l as [|a l IH]; cbn [Episode.skip_spaces]; [done|].
  destruct (Episode.is_space a) eqn:Ha; [done|]. by intros [= <- _].
Qed.

Lemma skip_spaces_fix c rest :
  Episode.is_space c = false → Episode.skip_spaces (c :: rest) = c :: rest.
Proof. intros H. cbn [Episode.skip_spaces]. by rewrite H. Qed.

Lemma strip_end_snoc l c :
  strip_end (l ++ [c])
  = if Episode.is_space c then strip_end l else l ++ [c].
Proof.
  unfold strip_end. rewrite rev_app_distr. cbn [rev app Episode.skip_spaces].
  destruct (Episode.is_space c); [done|]. cbn [rev]. by rewrite rev_involutive.
Qed.

Lemma strip_end_idem l : strip_end (strip_end l) = strip_end l.
Proof.
  induction l as [|c l IH] using rev_ind; [done|].
  rewrite strip_end_snoc. destruct (Episode.is_space c) eqn:Hc; [done|].
  by rewrite strip_end_snoc, Hc.
Qed.

Lemma strip_end_head c rest :
  Episode.is_space c = false → ∃ tail, strip_end (c :: rest) = c :: tail.
Proof.
  intros Hc. induction rest as [|d rest IH] using rev_ind.
  - exists []. unfold strip_end. cbn [rev app Episode.skip_spaces].
    by rewrite Hc.
  - change (c :: rest ++ [d]) with ((c :: rest) ++ [d]).
    rewrite strip_end_snoc. destruct (Episode.is_space d); [exact IH|].
    by exists (rest ++ [d]).
Qed.

Lemma trim_list s :
  String.list_ascii_of_string (trim s)
  = strip_end (Episode.skip_spaces (String.list_ascii_of_string s)).
Proof. unfold trim. by rewrite String.list_ascii_of_string_of_list_ascii. Qed.

(** Trimming twice is trimming once. *)
Lemma trim_idem s : trim (trim s) = trim s.
Proof.
  unfold trim at 1. rewrite trim_list. unfold trim. f_equal.
  fold (strip_end (Episode.skip_spaces (String.list_ascii_of_string s))).
  destruct (Episode.skip_spaces (String.list_ascii_of_string s))
    as [|c rest] eqn:Hs; [done|].
  pose proof (skip_spaces_head _ _ _ Hs) as Hc.
  destruct (strip_end_head c rest Hc) as [tail Ht].
  rewrite Ht, (skip_spaces_fix c tail Hc), <- Ht.
  fold (strip_end (strip_end (c :: rest))). apply strip_end_idem.
Qed.

(** *** The plans *)

Lemma searchType_plan_type i : searchType i ∈ plan_types.
Proof.
  unfold searchType, plan_types.
  destruct (String.eqb (type i) "series"); [rewrite !elem_of_cons; tauto|].
  destruct (String.eqb (type i) "movie"); rewrite !elem_of_cons; tauto.
Qed.

(** A token plan that meets no key that was seen is added. *)
Lemma addPlan_fresh i planType tok st :
  tok ≠ "" → seenPlans st = ∅ →
  ∃ tail, (addPlan i planType [tok] None st).2
          = PlansState (searchPlans st ++ [Plan planType (tok +:+ tail)])
              ({[planType +:+ "|" +:+ tok +:+ tail]} ∪ seenPlans st).
Proof.
  intros Htok Hseen.
  destruct (addPlan_spec i planType [tok] None st)
    as [Hno|(query & _ & _ & Hr & _ & Hq)].
  - exfalso. unfold addPlan in Hno. cbn [truthy] in Hno.
    cbn [app List.filter] in Hno. apply String.eqb_neq in Htok.
    rewrite Htok in Hno. cbn [negb] in Hno.
    match type of Hno with
    | context [String.concat " " (tok :: ?rest)] =>
        destruct (concat_head " " tok rest) as [tail Ht];
          [by apply String.eqb_neq|]; rewrite Ht in Hno
    end.
    assert (Hne : String.eqb (tok +:+ tail) "" = false).
    { apply String.eqb_neq, append_nonempty. by apply String.eqb_neq. }
    rewrite Hne, Hseen in Hno.
    rewrite bool_decide_eq_false_2 in Hno by apply not_elem_of_empty. done.
  - destruct (Hq eq_refl tok [] eq_refl Htok) as [tail ->].
    exists tail. by rewrite Hr.
Qed.

Lemma id_plan_added i planType tok st :
  planType ∈ plan_types → tok ≠ "" →
  (∀ tail, is_id_plan (Plan planType (tok +:+ tail)) = true) →
  plans_inv st → forallb is_id_plan (searchPlans st) = true →
  let st' := (addPlan i planType [tok] None st).2 in
  plans_inv st' ∧ forallb is_id_plan (searchPlans st') = true
  ∧ (length (searchPlans st) ≤ length (searchPlans st')
     ≤ S (length (searchPlans st)))%nat
  ∧ (searchPlans st ≠ [] → head (searchPlans st') = head (searchPlans st)).
Proof.
  intros Ht Htok Hid Hinv Hall st'. subst st'.
  split; [by apply inv_addPlan|]. split; [|split; [apply addPlan_length|]].
  - destruct (addPlan_spec i planType [tok] None st)
      as [ -> |(query & _ & _ & -> & _ & Hq)]; [done|].
    destruct (Hq eq_refl tok [] eq_refl Htok) as [tail ->].
    cbn [snd searchPlans]. rewrite forallb_app, Hall. cbn [forallb].
    by rewrite Hid.
  - destruct (addPlan_spec i planType [tok] None st)
      as [ -> |(query & _ & _ & -> & _)]; cbn [snd searchPlans].
    + done.
    + by destruct (searchPlans st).
Qed.

Lemma addPlan_head i planType tokens rawQuery st :
  searchPlans st ≠ [] →
  head (searchPlans (addPlan i planType tokens rawQuery st).2)
  = head (searchPlans st).
Proof.
  intros Hne.
  destruct (addPlan_spec i planType tokens rawQuery st)
    as [ -> |(query & _ & _ & -> & _)]; cbn [snd searchPlans]; [done|].
  by destruct (searchPlans st).
Qed.

(** The text plan: added unless its key was seen. *)
Lemma addPlan_text i planType text st :
  text ≠ "" →
  (addPlan i planType [] (Some text) st).2
  = if bool_decide ((planType +:+ "|" +:+ text) ∈ seenPlans st) then st
    else PlansState (searchPlans st ++ [Plan planType text])
           ({[planType +:+ "|" +:+ text]} ∪ seenPlans st).
Proof.
  intros Ht. apply String.eqb_neq in Ht. unfold addPlan.
  cbn [truthy or_else]. rewrite Ht. cbn [negb]. rewrite Ht.
  by destruct (bool_decide _).
Qed.

Lemma textQueryFallback_nonempty i :
  trim (primaryId i) ≠ "" → textQueryFallback i ≠ "".
Proof.
  intros Hp. unfold textQueryFallback. cbv zeta.
  destruct (String.eqb (trim _) "") eqn:Hj; [done|].
  rewrite trim_idem. by apply String.eqb_neq.
Qed.

Lemma prefix_app a b : String.prefix a (a +:+ b) = true.
Proof.
  induction a as [|c a IH]; [by destruct b|].
  change (String c a +:+ b) with (String c (a +:+ b)). cbn [String.prefix].
  by destruct (ascii_dec c c).
Qed.

Lemma id_plan_imdb t x tail :
  is_id_plan (Plan t (("{ImdbId:" +:+ x) +:+ tail)) = true.
Proof.
  unfold is_id_plan, id_prefixes. cbn [existsb p_query].
  by rewrite PathExtras.append_assoc, prefix_app.
Qed.

Lemma id_plan_tvdb t x tail :
  is_id_plan (Plan t (("{TvdbId:" +:+ x) +:+ tail)) = true.
Proof.
  unfold is_id_plan, id_prefixes. cbn [existsb p_query].
  rewrite PathExtras.append_assoc, (prefix_app "{TvdbId:").
  by rewrite orb_true_r.
Qed.

Lemma id_plan_tmdb t x tail :
  is_id_plan (Plan t (("{TmdbId:" +:+ x) +:+ tail)) = true.
Proof.
  unfold is_id_plan, id_prefixes. cbn [existsb p_query].
  rewrite PathExtras.append_assoc, (prefix_app "{TmdbId:").
  by rewrite !orb_true_r.
Qed.

(** The state after the identifier plans. *)
Lemma id_plans_state i :
  ∃ st,
    buildSearchPlans i
    = (if negb (PROWLARR_STRICT_ID_MATCH i)
       then (addPlan i "search" [] (Some (textQueryFallback i)) st).2 else st)
    ∧ plans_inv st
    ∧ forallb is_id_plan (searchPlans st) = true
    ∧ (length (searchPlans st) ≤ 2)%nat
    ∧ (truthy (imdb i) = true →
       ∃ tail, head (searchPlans st)
               = Some (Plan (searchType i)
                         (("{ImdbId:" +:+ or_else (imdb i) "" +:+ "}") +:+ tail))).
Proof.
  unfold buildSearchPlans. cbv zeta.
  set (tokI := "{ImdbId:" +:+ or_else (imdb i) "" +:+ "}").
  set (st0 := PlansState [] ∅).
  set (st1 := if truthy (imdb i)
              then (addPlan i (searchType i) [tokI] None st0).2 else st0).
  assert (H1 : plans_inv st1 ∧ forallb is_id_plan (searchPlans st1) = true
               ∧ length (searchPlans st1) = (if truthy (imdb i) then 1 else 0)%nat
               ∧ (truthy (imdb i) = true →
                  ∃ tail, searchPlans st1
                          = [Plan (searchType i) (tokI +:+ tail)])).
  { subst st1. destruct (truthy (imdb i)).
    - destruct (addPlan_fresh i (searchType i) tokI st0) as [tail Hst];
        [done|done|].
      split; [apply inv_addPlan; [apply searchType_plan_type | apply inv_empty]|].
      rewrite Hst. cbn [searchPlans st0 app forallb length].
      split; [subst tokI; by rewrite id_plan_imdb|]. split; [done|].
      intros _. by exists tail.
    - split; [apply inv_empty|]. by repeat split. }
  destruct H1 as (Hinv1 & Hid1 & Hlen1 & Hhead1).
  set (st2 := if String.eqb (type i) "series" && truthy (tvdb i) then _ else st1).
  assert (H2 : plans_inv st2 ∧ forallb is_id_plan (searchPlans st2) = true
               ∧ (length (searchPlans st1) ≤ length (searchPlans st2)
                  ≤ length (searchPlans st1)
                    + (if String.eqb (type i) "series" then 1 else 0))%nat
               ∧ (searchPlans st1 ≠ [] →
                  head (searchPlans st2) = head (searchPlans st1))).
  { subst st2. destruct (String.eqb (type i) "series"); cbn [andb].
    - destruct (truthy (tvdb i)).
      + destruct (id_plan_added i "tvsearch"
                    ("{TvdbId:" +:+ or_else (tvdb i) "" +:+ "}") st1)
          as (Ha & Hb & Hc & Hd);
          [unfold plan_types; rewrite !elem_of_cons; tauto | done
          |intros tail; apply id_plan_tvdb | done | done |].
        split; [done|]. split; [done|]. split; [lia | done].
      + split; [done|]. split; [done|]. split; [lia | done].
    - split; [done|]. split; [done|]. split; [lia | done]. }
  destruct H2 as (Hinv2 & Hid2 & Hlen2 & Hhead2).
  set (st3 := if String.eqb (type i) "movie" && truthy (tmdb i) then _ else st2).
  assert (H3 : plans_inv st3 ∧ forallb is_id_plan (searchPlans st3) = true
               ∧ (length (searchPlans st2) ≤ length (searchPlans st3)
                  ≤ length (searchPlans st2)
                    + (if String.eqb (type i) "movie" then 1 else 0))%nat
               ∧ (searchPlans st2 ≠ [] →
                  head (searchPlans st3) = head (searchPlans st2))).
  { subst st3. destruct (String.eqb (type i) "movie"); cbn [andb].
    - destruct (truthy (tmdb i)).
      + destruct (id_plan_added i "movie"
                    ("{TmdbId:" +:+ or_else (tmdb i) "" +:+ "}") st2)
          as (Ha & Hb & Hc & Hd);
          [unfold plan_types; rewrite !elem_of_cons; tauto | done
          |intros tail; apply id_plan_tmdb | done | done |].
        split; [done|]. split; [done|]. split; [lia | done].
      + split; [done|]. split; [done|]. split; [lia | done].
    - split; [done|]. split; [done|]. split; [lia | done]. }
  destruct H3 as (Hinv3 & Hid3 & Hlen3 & Hhead3).
  assert (Hexcl : String.eqb (type i) "series" = true →
                  String.eqb (type i) "movie" = false).
  { intros H. apply String.eqb_eq in H. by rewrite H. }
  assert (H4 : (length (searchPlans st3) =? 0)%nat && truthy (imdb i) = false).
  { destruct (truthy (imdb i)); [|apply andb_false_r].
    rewrite andb_true_r. apply Nat.eqb_neq. lia. }
  rewrite H4. exists st3. split; [done|]. split; [done|]. split; [done|].
  split.
  - destruct (truthy (imdb i)), (String.eqb (type i) "series") eqn:Hs;
      try rewrite (Hexcl eq_refl) in Hlen3;
      destruct (String.eqb (type i) "movie"); lia.
  - intros Himdb. destruct (Hhead1 Himdb) as [tail Hst1]. exists tail.
    assert (Hne1 : searchPlans st1 ≠ []) by (by rewrite Hst1).
    assert (Hne2 : searchPlans st2 ≠ []).
    { intros Hnil. rewrite Hnil, Hst1 in Hlen2. cbn in Hlen2. lia. }
    by rewrite (Hhead3 Hne2), (Hhead2 Hne1), Hst1.
Qed.

Lemma plans_nodup st : plans_inv st → NoDup (searchPlans st).
Proof. intros [_ Hnodup _]. by apply NoDup_fmap_1 in Hnodup. Qed.

(** X21 — the search plans of a request.  Every plan has a query and one
    of the types [tvsearch], [movie] and [search]; no plan occurs twice;
    there are at most three; when there is an IMDb id the first plan
    searches for it, with the request's search type; with strict id
    matching every plan's query starts with an identifier token, so no
    text search is made; without it, and with a primary id that is not
    blank, there is at least one plan. *)
Theorem search_plans_facts (i : plan_input) :
  let plans := searchPlans (buildSearchPlans i) in
  (∀ p, p ∈ plans → p_query p ≠ "" ∧ p_type p ∈ plan_types)
  ∧ NoDup plans
  ∧ (length plans ≤ 3)%nat
  ∧ (truthy (imdb i) = true →
     ∃ tail, head plans
             = Some (Plan (searchType i)
                       (("{ImdbId:" +:+ or_else (imdb i) "" +:+ "}") +:+ tail)))
  ∧ (PROWLARR_STRICT_ID_MATCH i = true → forallb is_id_plan plans = true)
  ∧ (PROWLARR_STRICT_ID_MATCH i = false → trim (primaryId i) ≠ "" →
     plans ≠ []).
Proof.
  intros plans. subst plans.
  destruct (id_plans_state i) as (st & -> & Hinv & Hid & Hlen & Hhead).
  assert (Hsearch : "search" ∈ plan_types).
  { unfold plan_types. rewrite !elem_of_cons. tauto. }
  destruct (PROWLARR_STRICT_ID_MATCH i); cbn [negb].
  - split; [apply Hinv|]. split; [by apply plans_nodup|].
    split; [lia|]. split; [exact Hhead|]. by split.
  - pose proof (inv_addPlan i "search" [] (Some (textQueryFallback i)) st
                  Hsearch Hinv) as Hinv'.
    pose proof (addPlan_length i "search" [] (Some (textQueryFallback i)) st)
      as Hlen'. cbv zeta in Hlen'.
    split; [apply Hinv'|]. split; [by apply plans_nodup|].
    split; [lia|]. split; [|split; [done|]].
    + intros Himdb. destruct (Hhead Himdb) as [tail Ht]. exists tail.
      rewrite addPlan_head; [done|]. intros Hnil. by rewrite Hnil in Ht.
    + intros _ Hp. rewrite addPlan_text by (by apply textQueryFallback_nonempty).
      destruct (bool_decide _) eqn:Hseen; cbn [searchPlans].
      * apply bool_decide_eq_true in Hseen.
        apply (pi_seen _ Hinv) in Hseen. intros Hnil.
        rewrite Hnil in Hseen. by apply elem_of_nil in Hseen.
      * by destruct (searchPlans st).
Qed.

Example search_plans_series :
  searchPlans
    (buildSearchPlans
       (PlanInput "series" (Some "tt0944947") (Some "121361") None
          (Some 1) (Some 2) (Some "Game of Thrones") (Some 2011)
          "tt0944947" false))
  = [Plan "tvsearch" "{ImdbId:tt0944947} {Season:1} {Episode:2}";
     Plan "tvsearch" "{TvdbId:121361} {Season:1} {Episode:2}";
     Plan "search" "Game of Thrones S01E02"].
Proof. by vm_compute. Qed.

Example search_plans_strict_without_ids :
  searchPlans
    (buildSearchPlans
       (PlanInput "movie" None None None None None (Some "Heat") (Some 1995)
          "tt0113277" true))
  = [].
Proof. by vm_compute. Qed.

End SearchExtras.

(** ** Properties of the identifiers *)

Module IdentifierExtras.
Import JS Regex Search.

Lemma skip_spaces_nospace l :
  forallb (λ c, negb (Episode.is_space c)) l = true → Episode.skip_spaces l = l.
Proof.
  destruct l as [|c l]; [done|]. cbn [forallb Episode.skip_spaces].
  intros H. apply andb_true_iff in H as [Hc _].
  apply negb_true_iff in Hc. by rewrite Hc.
Qed.

(** A text without white space is trimmed to itself. *)
Lemma trim_nospace s :
  forallb (λ c, negb (Episode.is_space c)) (String.list_ascii_of_string s) = true →
  trim s = s.
Proof.
  intros H. unfold trim. rewrite (skip_spaces_nospace _ H).
  rewrite skip_spaces_nospace.
  - by rewrite rev_involutive, String.string_of_list_ascii_of_string.
  - apply forallb_forall. intros c Hc. apply in_rev in Hc.
    by apply (proj1 (forallb_forall _ _) H).
Qed.

Lemma digits_nospace ds :
  Proxy.all_digits ds = true →
  forallb (λ c, negb (Episode.is_space c)) (String.list_ascii_of_string ds) = true.
Proof.
  unfold Proxy.all_digits. intros H. apply forallb_forall. intros c Hc.
  apply (proj1 (forallb_forall _ _) H) in Hc.
  by rewrite (EpisodeParseExtras.digit_no_space c Hc).
Qed.

Lemma number_pattern_shape x :
  test_anchored false number_pattern x = true
  ↔ x ≠ "" ∧ Proxy.all_digits x = true.
Proof.
  unfold test_anchored, number_pattern, Proxy.all_digits. cbn [seq foldr].
  destruct x as [|a x]; [split; [done | by intros [? _]]|].
  cbn [String.list_ascii_of_string matches forallb]. split.
  - intros H. apply andb_true_iff in H as [Ha H]. split; [done|].
    rewrite Ha. cbn [andb].
    apply ProxyFacts.star_digits_inv in H as (ds & rest & -> & Hds & Hk).
    destruct rest; [|done]. by rewrite app_nil_r.
  - intros [_ H]. apply andb_true_iff in H as [Ha H]. rewrite Ha. cbn [andb].
    rewrite <- (app_nil_r (String.list_ascii_of_string x)) at 2.
    apply ProxyFacts.star_digits; [done|done|].
    rewrite app_nil_r. lia.
Qed.

Lemma imdb_pattern_shape x :
  test_anchored false imdb_pattern x = true
  ↔ ∃ ds, ds ≠ "" ∧ Proxy.all_digits ds = true ∧ x = "tt" +:+ ds.
Proof.
  unfold test_anchored, imdb_pattern. cbn [seq foldr].
  change (matches false (Cat ?a ?b) ?s ?k)
    with (matches false a s (λ s', matches false b s' k)).
  split.
  - intros H. apply ProxyFacts.matches_lit_inv in H as (rest & Hx & H).
    exists (String.string_of_list_ascii rest).
    assert (Hn : test_anchored false number_pattern
                   (String.string_of_list_ascii rest) = true).
    { unfold test_anchored, number_pattern. cbn [seq foldr].
      by rewrite String.list_ascii_of_string_of_list_ascii. }
    apply number_pattern_shape in Hn as [Hne Hd]. split; [done|].
    split; [done|].
    rewrite <- (String.string_of_list_ascii_of_string x), Hx. reflexivity.
  - intros (ds & Hne & Hd & ->).
    change (String.list_ascii_of_string ("tt" +:+ ds))
      with (String.list_ascii_of_string "tt" ++ String.list_ascii_of_string ds).
    rewrite ProxyFacts.matches_lit.
    by apply (proj2 (number_pattern_shape ds)).
Qed.

Lemma trim_imdb ds : Proxy.all_digits ds = true → trim ("tt" +:+ ds) = "tt" +:+ ds.
Proof.
  intros Hd. apply trim_nospace.
  change (String.list_ascii_of_string ("tt" +:+ ds))
    with ("t"%char :: "t"%char :: String.list_ascii_of_string ds).
  cbn [forallb]. by rewrite (digits_nospace ds Hd).
Qed.

Lemma prefix_tt_digit ds :
  ds ≠ "" → Proxy.all_digits ds = true → String.prefix "tt" ds = false.
Proof.
  destruct ds as [|d ds]; [done|]. intros _ H. unfold Proxy.all_digits in H.
  cbn [String.list_ascii_of_string forallb] in H.
  apply andb_true_iff in H as [Hd _]. cbn [String.prefix].
  destruct (ascii_dec "t" d) as [ <- |_]; done.
Qed.

Lemma normalizeImdb_accepts ds :
  ds ≠ "" → Proxy.all_digits ds = true →
  normalizeImdb (Some ds) = Some ("tt" +:+ ds)
  ∧ normalizeImdb (Some ("tt" +:+ ds)) = Some ("tt" +:+ ds).
Proof.
  intros Hne Hd.
  assert (Hm : test_anchored false imdb_pattern ("tt" +:+ ds) = true).
  { apply imdb_pattern_shape. by exists ds. }
  unfold normalizeImdb. split.
  - rewrite (trim_nospace ds (digits_nospace ds Hd)). cbv zeta.
    apply String.eqb_neq in Hne. rewrite Hne.
    apply String.eqb_neq in Hne. rewrite (prefix_tt_digit ds Hne Hd).
    by rewrite Hm.
  - rewrite (trim_imdb ds Hd). cbv zeta.
    change (String.eqb ("tt" +:+ ds) "") with false. cbv iota.
    by rewrite (SearchExtras.prefix_app "tt" ds), Hm.
Qed.

(** X22 — the identifiers of a request.  An IMDb id that is accepted is
    [tt] followed by at least one digit; digits alone, or [tt] and digits,
    are accepted and give the same id, so accepting twice is accepting
    once; a numeric id that is accepted is a non-empty run of digits, and
    is accepted again as it is; the first value that is not blank decides,
    whatever follows it; and when every value before it is blank, the
    primary id of the path, which the handler has checked, is the IMDb id
    of the request. *)
Theorem identifier_normalisation :
  (∀ v x, normalizeImdb v = Some x →
     ∃ ds, ds ≠ "" ∧ Proxy.all_digits ds = true ∧ x = "tt" +:+ ds)
  ∧ (∀ ds, ds ≠ "" → Proxy.all_digits ds = true →
       normalizeImdb (Some ds) = Some ("tt" +:+ ds)
       ∧ normalizeImdb (Some ("tt" +:+ ds)) = Some ("tt" +:+ ds))
  ∧ (∀ v x, normalizeNumericId v = Some x →
       x ≠ "" ∧ Proxy.all_digits x = true ∧ normalizeNumericId (Some x) = Some x)
  ∧ (∀ c rest, trim c ≠ "" → pickFirstDefined (Some c :: rest) = Some c)
  ∧ (∀ id p blanks,
       primaryId_of id = Some p → Forall (λ c, trim c = "") blanks →
       normalizeImdb (pickFirstDefined ((Some <$> blanks) ++ [Some p]))
       = Some p).
Proof.
  split; [|split; [exact normalizeImdb_accepts|split; [|split]]].
  - intros v x. unfold normalizeImdb. destruct v as [v|]; [|done]. cbv zeta.
    destruct (String.eqb (trim v) ""); [done|].
    destruct (test_anchored _ _ _) eqn:Hm; [|done]. intros [= <-].
    by apply imdb_pattern_shape.
  - intros v x. unfold normalizeNumericId. destruct v as [v|]; [|done].
    cbv zeta. destruct (test_anchored _ _ _) eqn:Hm; [|done]. intros [= <-].
    pose proof Hm as Hm'. apply number_pattern_shape in Hm' as [Hne Hd].
    split; [done|]. split; [done|].
    rewrite SearchExtras.trim_idem. by rewrite Hm.
  - intros c rest Hc. unfold pickFirstDefined. cbn [List.find].
    apply String.eqb_neq in Hc. by rewrite Hc.
  - intros id p blanks Hp Hblank. unfold primaryId_of in Hp. cbv zeta in Hp.
    destruct (test_anchored _ _ _) eqn:Hm; [|done]. injection Hp as Hp.
    rewrite Hp in Hm. apply imdb_pattern_shape in Hm as (ds & Hne & Hd & ->).
    assert (Hpick : pickFirstDefined ((Some <$> blanks) ++ [Some ("tt" +:+ ds)])
                    = Some ("tt" +:+ ds)).
    { unfold pickFirstDefined. induction Hblank as [|c l Hc _ IH].
      - cbn [fmap list_fmap app List.find]. by rewrite (trim_imdb ds Hd).
      - cbn [fmap list_fmap app List.find]. rewrite Hc. cbn [negb String.eqb].
        exact IH. }
    rewrite Hpick. by apply normalizeImdb_accepts.
Qed.

Example identifier_samples :
  normalizeImdb (Some " 0944947 ") = Some "tt0944947"
  ∧ normalizeImdb (Some "tt0944947") = Some "tt0944947"
  ∧ normalizeImdb (Some "nm0000123") = None
  ∧ normalizeNumericId (Some "121361") = Some "121361"
  ∧ normalizeNumericId (Some "the-wire") = None
  ∧ primaryId_of "tt0944947:1:2" = Some "tt0944947"
  ∧ primaryId_of "kitsu:42" = None
  ∧ normalizeImdb (pickFirstDefined [Some "n/a"; Some "tt0944947"]) = None.
Proof. by vm_compute. Qed.

End IdentifierExtras.

(** ** Properties of the search results *)

Module ResultsExtras.
Import JS Results.

Ltac same_set :=
  apply set_eq; intros ?;
  rewrite ?elem_of_union, ?elem_of_list_to_set, ?elem_of_app, ?elem_of_cons,
    ?elem_of_singleton, ?elem_of_union, ?elem_of_list_to_set, ?elem_of_empty,
    ?elem_of_nil;
  tauto.

Lemma deriveResultKey_nonempty r : deriveResultKey r ≠ "".
Proof.
  unfold deriveResultKey. cbv zeta.
  match goal with |- ?a +:+ _ ≠ "" => destruct a end; done.
Qed.

Lemma add_result_spec t m x :
  add_result t m x
  = if bool_decide (deriveResultKey x ∈ m.*1) then m
    else m ++ [(deriveResultKey x, Entry x t)].
Proof.
  unfold add_result. cbv zeta.
  pose proof (deriveResultKey_nonempty x) as H. apply String.eqb_neq in H.
  by rewrite H.
Qed.

Lemma firsts_ext l : ∀ s1 s2, s1 = s2 → firsts s1 l = firsts s2 l.
Proof. by intros s1 s2 ->. Qed.

(** One plan's results are added as the first of their keys. *)
Lemma add_results_firsts t xs : ∀ m,
  let m' := fold_left (add_result t) xs m in
  map (λ kv, e_result kv.2) m'
  = map (λ kv, e_result kv.2) m ++ firsts (list_to_set m.*1) xs
  ∧ m'.*1 = m.*1 ++ (deriveResultKey <$> firsts (list_to_set m.*1) xs).
Proof.
  induction xs as [|x xs IH]; intros m; cbn [fold_left firsts].
  { cbn. by rewrite !app_nil_r. }
  rewrite add_result_spec.
  destruct (bool_decide (deriveResultKey x ∈ m.*1)) eqn:Hin.
  - apply bool_decide_eq_true in Hin.
    rewrite (bool_decide_eq_true_2 (deriveResultKey x ∈ list_to_set m.*1))
      by (by apply elem_of_list_to_set).
    apply IH.
  - apply bool_decide_eq_false in Hin.
    rewrite (bool_decide_eq_false_2 (deriveResultKey x ∈ list_to_set m.*1))
      by (by rewrite elem_of_list_to_set).
    destruct (IH (m ++ [(deriveResultKey x, Entry x t)])) as [H1 H2].
    cbv zeta in H1, H2.
    assert (Hset : list_to_set (m ++ [(deriveResultKey x, Entry x t)]).*1
                   = ({[deriveResultKey x]} ∪ list_to_set m.*1 : gset string)).
    { rewrite fmap_app. cbn [fmap list_fmap fst]. same_set. }
    rewrite Hset in H1, H2. split.
    + rewrite H1, map_app. cbn [map snd e_result]. by rewrite <- app_assoc.
    + rewrite H2, fmap_app. cbn [fmap list_fmap fst].
      by rewrite <- app_assoc.
Qed.

Lemma firsts_app l1 : ∀ seen l2,
  firsts seen (l1 ++ l2)
  = firsts seen l1
    ++ firsts (list_to_set (deriveResultKey <$> firsts seen l1) ∪ seen) l2.
Proof.
  induction l1 as [|x l1 IH]; intros seen l2; cbn [app firsts].
  { cbn. apply firsts_ext. same_set. }
  destruct (bool_decide (deriveResultKey x ∈ seen)); [apply IH|].
  cbn [app fmap list_fmap]. rewrite IH. f_equal. f_equal.
  apply firsts_ext. same_set.
Qed.

Lemma plans_firsts settled : ∀ m,
  let m' := fold_left add_plan_results settled m in
  map (λ kv, e_result kv.2) m'
  = map (λ kv, e_result kv.2) m ++ firsts (list_to_set m.*1) (offered settled)
  ∧ m'.*1 = m.*1 ++ (deriveResultKey <$> firsts (list_to_set m.*1) (offered settled)).
Proof.
  induction settled as [|[p resp] settled IH]; intros m;
    cbn [fold_left offered flat_map].
  { cbn. by rewrite !app_nil_r. }
  unfold add_plan_results at 2 4. cbn [snd fst].
  destruct resp as [|data]; [apply IH|].
  set (xs := filteredResults (default [] data)).
  destruct (add_results_firsts (Search.p_type p) xs m) as [H1 H2].
  cbv zeta in H1, H2.
  destruct (IH (fold_left (add_result (Search.p_type p)) xs m)) as [H3 H4].
  cbv zeta in H3, H4. rewrite H2 in H3, H4.
  assert (Hset : list_to_set
                   (m.*1 ++ (deriveResultKey <$> firsts (list_to_set m.*1) xs))
                 = (list_to_set
                      (deriveResultKey <$> firsts (list_to_set m.*1) xs)
                    ∪ list_to_set m.*1 : gset string)) by same_set.
  rewrite Hset in H3, H4. rewrite firsts_app. split.
  - rewrite H3, H1. by rewrite <- app_assoc.
  - rewrite H4, fmap_app. by rewrite <- app_assoc.
Qed.

(** The results that are kept are the first of their keys, in the order in
    which they were met. *)
Lemma deduped_firsts settled :
  dedupedNzbResults settled = firsts ∅ (offered settled).
Proof.
  unfold dedupedNzbResults. destruct (plans_firsts settled []) as [H _].
  cbv zeta in H. rewrite H. reflexivity.
Qed.

Lemma firsts_keys l : ∀ seen,
  NoDup (deriveResultKey <$> firsts seen l)
  ∧ ∀ r, r ∈ firsts seen l → deriveResultKey r ∉ seen.
Proof.
  induction l as [|x l IH]; intros seen; cbn [firsts].
  { split; [constructor | by intros r ?%elem_of_nil]. }
  destruct (bool_decide (deriveResultKey x ∈ seen)) eqn:Hx; [apply IH|].
  apply bool_decide_eq_false in Hx.
  destruct (IH ({[deriveResultKey x]} ∪ seen)) as [Hnd Hout]. split.
  - cbn [fmap list_fmap]. apply NoDup_cons. split; [|done].
    intros Hin. apply list_elem_of_fmap in Hin as (r & Hk & Hr).
    apply Hout in Hr. rewrite <- Hk in Hr.
    apply Hr, elem_of_union. left. by apply elem_of_singleton.
  - intros r Hr. apply elem_of_cons in Hr as [ -> |Hr]; [done|].
    apply Hout in Hr. intros Hin. apply Hr, elem_of_union. by right.
Qed.

Lemma firsts_spec l : ∀ seen r,
  r ∈ firsts seen l
  ↔ ∃ before after,
      l = before ++ r :: after ∧ (deriveResultKey r ∉ seen)
      ∧ ∀ r', r' ∈ before → deriveResultKey r' ≠ deriveResultKey r.
Proof.
  induction l as [|x l IH]; intros seen r; cbn [firsts].
  { split; [by intros ?%elem_of_nil|].
    intros (before & after & H & _). by destruct before. }
  destruct (bool_decide (deriveResultKey x ∈ seen)) eqn:Hx.
  - apply bool_decide_eq_true in Hx. rewrite IH. split.
    + intros (before & after & -> & Hr & Hb).
      exists (x :: before), after. split; [done|]. split; [done|].
      intros r' Hr'. apply elem_of_cons in Hr' as [ -> |Hr']; [|by apply Hb].
      congruence.
    + intros (before & after & Hl & Hr & Hb).
      destruct before as [|y before]; injection Hl as -> ->; [done|].
      exists before, after. split; [done|]. split; [done|].
      intros r' Hr'. apply Hb. apply elem_of_cons. by right.
  - apply bool_decide_eq_false in Hx. rewrite elem_of_cons, IH. split.
    + intros [ -> |(before & after & -> & Hr & Hb)].
      * exists [], l. split; [done|]. split; [done|].
        by intros r' ?%elem_of_nil.
      * exists (x :: before), after. split; [done|].
        rewrite elem_of_union, elem_of_singleton in Hr.
        split; [tauto|]. intros r' Hr'.
        apply elem_of_cons in Hr' as [ -> |Hr']; [|by apply Hb].
        intros Heq. apply Hr. by left.
    + intros (before & after & Hl & Hr & Hb).
      destruct before as [|y before]; injection Hl as -> ->; [by left|].
      right. exists before, after. split; [done|]. split.
      * rewrite elem_of_union, elem_of_singleton. intros [Heq|Hin]; [|done].
        apply (Hb y); [apply elem_of_cons; by left | done].
      * intros r' Hr'. apply Hb. apply elem_of_cons. by right.
Qed.

Lemma offered_origin settled r :
  r ∈ offered settled →
  truthy (downloadUrl r) = true ∧ isTorrentResult r = false
  ∧ ∃ plan items, (plan, PlanFulfilled (Some items)) ∈ settled
                  ∧ Some r ∈ items.
Proof.
  unfold offered. intros H.
  apply list_elem_of_In, in_flat_map in H as ([plan resp] & Hs & Hr).
  cbn [snd] in Hr. destruct resp as [|[items|]]; [done| |done].
  cbn [default] in Hr. unfold filteredResults in Hr.
  apply list_elem_of_In, list_elem_of_omap in Hr as ([r0|] & Hin & Heq);
    [|done].
  cbn in Heq. injection Heq as ->.
  apply list_elem_of_In, List.filter_In in Hin as [Hin Hok].
  unfold is_nzb_item in Hok. apply andb_true_iff in Hok as [Hu Ht].
  apply negb_true_iff in Ht. split; [done|]. split; [done|].
  exists plan, items. split; by apply list_elem_of_In.
Qed.

(** X23 — one result per key.  The results that are kept have pairwise
    different keys; a result is kept exactly when it is the first with its
    key among the results that pass the filters of their plans, taken in
    the order of the plans and, within a plan, of its answer; the results
    are kept in that order; and every one of them has a download URL, is
    not a torrent, and is an item of the array that a fulfilled plan
    answered with. *)
Theorem one_result_per_key (settled : list (Search.plan * plan_response)) :
  let deduped := dedupedNzbResults settled in
  NoDup (deriveResultKey <$> deduped)
  ∧ (∀ r, r ∈ deduped
          ↔ ∃ before after,
              offered settled = before ++ r :: after
              ∧ ∀ r', r' ∈ before → deriveResultKey r' ≠ deriveResultKey r)
  ∧ deduped = firsts ∅ (offered settled)
  ∧ (∀ r, r ∈ deduped →
       truthy (downloadUrl r) = true ∧ isTorrentResult r = false
       ∧ ∃ plan items, (plan, PlanFulfilled (Some items)) ∈ settled
                       ∧ Some r ∈ items).
Proof.
  intros deduped. subst deduped. rewrite deduped_firsts.
  split; [apply firsts_keys|]. split; [|split; [done|]].
  - intros r. rewrite firsts_spec. split.
    + intros (before & after & H & _ & Hb). by exists before, after.
    + intros (before & after & H & Hb). exists before, after.
      split; [done|]. split; [apply not_elem_of_empty | done].
  - intros r Hr. apply offered_origin.
    apply firsts_spec in Hr as (before & after & -> & _).
    apply elem_of_app. right. apply elem_of_cons. by left.
Qed.

Example one_result_per_key_sample :
  let nzb t z u := Result (Some "usenet") None None (Some u) None (Some 7) None
                     (Some "idx") None (Some t) None (Some z) None in
  let a := nzb "Heat 1995 1080p" 9000 "http://x/1" in
  let a' := nzb "Heat 1995 1080p " 9000 "http://x/2" in
  let b := nzb "Heat 1995 2160p" 30000 "http://x/3" in
  let t := Result (Some "Torrent") None None (Some "http://x/4") None (Some 7)
             None (Some "idx") None (Some "Heat") None (Some 1) None in
  dedupedNzbResults
    [(Search.Plan "movie" "{ImdbId:tt0113277}",
      PlanFulfilled (Some [Some a; None; Some t]));
     (Search.Plan "search" "Heat 1995", PlanRejected);
     (Search.Plan "search" "Heat", PlanFulfilled (Some [Some a'; Some b]))]
  = [a; b].
Proof. by vm_compute. Qed.

(** *** The order of the results *)

Lemma insert_desc_perm x l : insert_desc x l ≡ₚ x :: l.
Proof.
  induction l as [|y l IH]; cbn [insert_desc]; [done|].
  destruct (size_or_zero y <? size_or_zero x); [done|].
  rewrite IH. apply Permutation_swap.
Qed.

Lemma insert_desc_sorted x l :
  StronglySorted size_ge l → StronglySorted size_ge (insert_desc x l).
Proof.
  induction l as [|y l IH]; intros Hs; cbn [insert_desc].
  { by repeat constructor. }
  apply StronglySorted_inv in Hs as [Hl Hy].
  destruct (size_or_zero y <? size_or_zero x) eqn:Hlt.
  - apply Z.ltb_lt in Hlt. constructor; [by constructor|].
    constructor; [unfold size_ge; lia|].
    eapply Forall_impl; [exact Hy|]. unfold size_ge. intros b Hb. cbn in Hb. lia.
  - apply Z.ltb_ge in Hlt. constructor; [by apply IH|].
    rewrite insert_desc_perm. by constructor.
Qed.

Lemma of_size_higher s y l :
  Forall (size_ge y) l → size_or_zero y < s → of_size s l = [].
Proof.
  unfold of_size. induction 1 as [|b l Hb _ IH]; intros Hs; cbn [List.filter];
    [done|].
  unfold size_ge in Hb. rewrite (proj2 (Z.eqb_neq _ _)) by lia. by apply IH.
Qed.

Lemma of_size_cons s x l :
  of_size s (x :: l)
  = (if size_or_zero x =? s then [x] else []) ++ of_size s l.
Proof. unfold of_size. cbn [List.filter]. by destruct (_ =? _). Qed.

(** Insertion puts the element behind those of its own size. *)
Lemma insert_desc_of_size s x l :
  StronglySorted size_ge l →
  of_size s (insert_desc x l)
  = of_size s l ++ (if size_or_zero x =? s then [x] else []).
Proof.
  induction l as [|y l IH]; intros Hs; cbn [insert_desc].
  { rewrite of_size_cons. by destruct (_ =? _). }
  apply StronglySorted_inv in Hs as [Hl Hy].
  destruct (size_or_zero y <? size_or_zero x) eqn:Hlt.
  - apply Z.ltb_lt in Hlt. rewrite (of_size_cons s x).
    destruct (size_or_zero x =? s) eqn:Hx; [|by rewrite app_nil_r].
    apply Z.eqb_eq in Hx.
    assert (Hnil : of_size s (y :: l) = []).
    { apply (of_size_higher s y); [|lia].
      constructor; [unfold size_ge; lia | done]. }
    by rewrite Hnil.
  - rewrite !(of_size_cons s y), (IH Hl). by rewrite app_assoc.
Qed.

Lemma of_size_app s l1 l2 : of_size s (l1 ++ l2) = of_size s l1 ++ of_size s l2.
Proof. unfold of_size. apply List.filter_app. Qed.

Lemma sort_acc l : ∀ acc,
  StronglySorted size_ge acc →
  let out := fold_left (λ acc x, insert_desc x acc) l acc in
  StronglySorted size_ge out ∧ out ≡ₚ acc ++ l
  ∧ ∀ s, of_size s out = of_size s acc ++ of_size s l.
Proof.
  induction l as [|x l IH]; intros acc Hacc; cbn [fold_left].
  { split; [done|]. split; [by rewrite app_nil_r|]. intros s.
    unfold of_size at 3. cbn. by rewrite app_nil_r. }
  destruct (IH (insert_desc x acc) (insert_desc_sorted x acc Hacc))
    as (Hs & Hp & Hsz).
  split; [done|]. split.
  - rewrite Hp, insert_desc_perm. cbn [app]. apply Permutation_middle.
  - intros s. rewrite Hsz, (insert_desc_of_size s x acc Hacc).
    by rewrite <- app_assoc, (of_size_cons s x l).
Qed.

Lemma NoDup_fmap_filter {A B} (f : A → B) (P : A → bool) l :
  NoDup (f <$> l) → NoDup (f <$> List.filter P l).
Proof.
  induction l as [|x l IH]; cbn [fmap list_fmap List.filter]; [done|].
  intros Hnd. apply NoDup_cons in Hnd as [Hx Hl].
  destruct (P x); [|by apply IH]. cbn [fmap list_fmap].
  apply NoDup_cons. split; [|by apply IH]. intros Hin. apply Hx.
  apply list_elem_of_fmap in Hin as (y & Hy & Hin).
  apply list_elem_of_In, List.filter_In in Hin as [Hin _].
  apply list_elem_of_fmap. exists y. split; [done | by apply list_elem_of_In].
Qed.

(** X24 — the order of the results.  The results of the answer are the
    kept results that have a download URL and an indexer id, all of them
    and no others; they are in descending order of size, a missing size
    counting as zero; and results of the same size are in the order in
    which they were kept. *)
Theorem results_are_sorted (settled : list (Search.plan * plan_response)) :
  let kept := List.filter has_required_fields (dedupedNzbResults settled) in
  let out := finalNzbResults settled in
  out ≡ₚ kept
  ∧ StronglySorted size_ge out
  ∧ (∀ s, of_size s out = of_size s kept)
  ∧ NoDup (deriveResultKey <$> out)
  ∧ ∀ r, r ∈ out →
         truthy (downloadUrl r) = true ∧ isTorrentResult r = false
         ∧ ∃ z, indexerId r = Some z ∧ z ≠ 0.
Proof.
  intros kept out. subst out. unfold finalNzbResults, sort_desc. fold kept.
  destruct (sort_acc kept [] (SSorted_nil _)) as (Hs & Hp & Hsz).
  cbv zeta in Hs, Hp, Hsz. cbn [app] in Hp.
  split; [done|]. split; [done|]. split; [exact Hsz|]. split.
  - rewrite Hp. subst kept. apply NoDup_fmap_filter.
    rewrite deduped_firsts. apply firsts_keys.
  - intros r Hr. rewrite Hp in Hr. subst kept.
    apply list_elem_of_In, List.filter_In in Hr as [Hr Hreq].
    apply list_elem_of_In in Hr. rewrite deduped_firsts in Hr.
    apply firsts_spec in Hr as (before & after & Hoff & _).
    destruct (offered_origin settled r) as (Hu & Ht & _).
    { rewrite Hoff. apply elem_of_app. right. apply elem_of_cons. by left. }
    split; [done|]. split; [done|]. unfold has_required_fields in Hreq.
    apply andb_true_iff in Hreq as [_ Hid].
    destruct (indexerId r) as [z|]; [|done]. exists z. split; [done|].
    unfold truthy_num in Hid. apply negb_true_iff in Hid. by apply Z.eqb_neq.
Qed.

Example results_are_sorted_sample :
  let nzb t z := Result (Some "usenet") None None (Some "http://x") None
                   (Some 7) None (Some "idx") None (Some t) None z None in
  let a := nzb "a" (Some 5) in
  let b := nzb "b" None in
  let c := nzb "c" (Some 9) in
  let d := nzb "d" (Some 5) in
  let e := Result None None None (Some "http://y") None None None None None
             (Some "e") None (Some 50) None in
  finalNzbResults
    [(Search.Plan "search" "q", PlanFulfilled (Some [Some a; Some b; Some e]));
     (Search.Plan "movie" "q", PlanFulfilled (Some [Some c; Some d]))]
  = [c; a; d; b].
Proof. by vm_compute. Qed.

Example torrent_samples :
  let item p g u l := Result p None g u l (Some 1) None None None None None
                        None None in
  isTorrentResult (item (Some "TORRENT") None (Some "http://x/a.nzb") None) = true
  ∧ isTorrentResult (item None (Some "Magnet:?xt=urn") None None) = true
  ∧ isTorrentResult (item (Some "usenet") None None (Some "http://x/A.Torrent"))
    = true
  ∧ isTorrentResult (item (Some "usenet") None (Some "http://x/a.nzb") None)
    = false.
Proof. by vm_compute. Qed.

End ResultsExtras.

(** ** Properties of the request's cache key *)

Module RequestKeyExtras.
Import JS Locator Episode Names.

Lemma category_cases env type :
  getNzbdavCategory env type
  ∈ [or_else (env_NZBDAV_CATEGORY_SERIES env) "Tv";
     or_else (env_NZBDAV_CATEGORY_MOVIES env) "Movies";
     or_else (env_NZBDAV_CATEGORY_DEFAULT env) "Movies"].
Proof.
  unfold getNzbdavCategory. rewrite !elem_of_cons.
  destruct (_ || _); [tauto|]. destruct (String.eqb type "movie"); tauto.
Qed.

(** X25 — category and key of a request.  The category of a request is
    never empty; [series] and [tv] have the same one; without category
    settings it is [Tv] for these two types and [Movies] for every other;
    and then two requests have the same cache key exactly when they have
    the same download URL, the same category and the same requested
    episode. *)
Theorem request_category_and_key (env : categories) :
  (∀ type, getNzbdavCategory env type ≠ "")
  ∧ getNzbdavCategory env "series" = getNzbdavCategory env "tv"
  ∧ (env = Categories None None None →
     (∀ type, getNzbdavCategory env type
              = if String.eqb type "series" || String.eqb type "tv"
                then "Tv" else "Movies")
     ∧ ∀ u1 u2 t1 t2 id1 id2 q1 q2,
         requestKey env u1 t1 id1 q1 = requestKey env u2 t2 id2 q2
         ↔ u1 = u2
           ∧ getNzbdavCategory env t1 = getNzbdavCategory env t2
           ∧ parseRequestedEpisode t1 id1 q1 = parseRequestedEpisode t2 id2 q2).
Proof.
  split; [|split; [done|]].
  - intros type. pose proof (category_cases env type) as H.
    rewrite !elem_of_cons in H.
    destruct H as [ -> |[ -> |[ -> |H]]];
      [by apply PipelineExtras.or_else_nonempty..|by apply elem_of_nil in H].
  - intros ->.
    assert (Hcat : ∀ type,
              getNzbdavCategory (Categories None None None) type
              = if String.eqb type "series" || String.eqb type "tv"
                then "Tv" else "Movies").
    { intros type. unfold getNzbdavCategory. cbn.
      destruct (_ || _); [done|]. by destruct (String.eqb type "movie"). }
    split; [exact Hcat|]. intros u1 u2 t1 t2 id1 id2 q1 q2. unfold requestKey.
    split; [|by intros (-> & -> & ->)].
    intros Hk.
    assert (Hfree : ∀ t, Proxy.free_of "|"
                           (getNzbdavCategory (Categories None None None) t)
                         ∧ digit_free (String.list_ascii_of_string
                             (getNzbdavCategory (Categories None None None) t))
                           = true).
    { intros t. rewrite Hcat. by destruct (_ || _). }
    destruct (Hfree t1) as [Hf1 Hd1], (Hfree t2) as [Hf2 Hd2].
    destruct (parseRequestedEpisode t1 id1 q1) as [e1|],
      (parseRequestedEpisode t2 id2 q2) as [e2|].
    + destruct (CacheKeyExtras.cache_key_both _ _ _ _ _ _ Hf1 Hf2 Hk)
        as (Hu & Hc & He). split; [done|]. split; [done|]. by f_equal.
    + by apply CacheKeyExtras.cache_key_mixed in Hk.
    + symmetry in Hk. by apply CacheKeyExtras.cache_key_mixed in Hk.
    + destruct (CacheKeyExtras.cache_key_neither _ _ _ _ Hf1 Hf2 Hk)
        as (Hu & Hc). by repeat split.
Qed.

End RequestKeyExtras.

(** ** The episode that is searched and the episode that is streamed *)

Module EpisodeAgreementExtras.
Import JS Locator Episode Search.



End EpisodeAgreementExtras.
